(** * crash-diagnostics: the script parser and the executor

    A shallow embedding of [parser.Parse] / [enforceDefaults] and of
    [exec.Executor.Execute], together with the parts of the Go runtime they
    lean on (byte strings, [path/filepath], a directory tree standing for the
    file system), and the properties of the specification proved on them. *)

From Stdlib Require Import ZArith Bool List Ascii String DecimalString Lia.
From Stdlib.Strings Require Import Byte.
From stdpp Require Import base list gmap strings.

Open Scope string_scope.
Open Scope Z_scope.

(** ** Go strings

    A Go [string] is a byte sequence; it is modelled by [String.string], one
    [ascii] per byte. *)
Module Str.

(** The white space of the ASCII range: tab, line feed, vertical tab, form
    feed, carriage return and space. *)
Definition isSpace (c : ascii) : bool :=
  let n := N_of_ascii c in
  ((9 <=? n) && (n <=? 13))%N || (n =? 32)%N.

(** The class [\s] of Go's regexp package: [\t\n\f\r ] (no vertical tab). *)
Definition reSpace (c : ascii) : bool :=
  let n := N_of_ascii c in
  (n =? 9)%N || (n =? 10)%N || (n =? 12)%N || (n =? 13)%N || (n =? 32)%N.

(** The text of the bytes given. *)
Definition utf8 (bs : list N) : string :=
  string_of_list_ascii (map ascii_of_N bs).

(** The characters [unicode.IsSpace] accepts, each in its UTF-8 encoding:
    the six of the ASCII range, U+0085, U+00A0, U+1680, U+2000 to U+200A,
    U+2028, U+2029, U+202F, U+205F and U+3000. *)
Definition whiteSpace : list string :=
  map utf8
      [[9]; [10]; [11]; [12]; [13]; [32];
       [194; 133]; [194; 160];
       [225; 154; 128];
       [226; 128; 128]; [226; 128; 129]; [226; 128; 130]; [226; 128; 131];
       [226; 128; 132]; [226; 128; 133]; [226; 128; 134]; [226; 128; 135];
       [226; 128; 136]; [226; 128; 137]; [226; 128; 138];
       [226; 128; 168]; [226; 128; 169]; [226; 128; 175];
       [226; 129; 159];
       [227; 128; 128]]%N.

(** The bytes [c], [d] encode a white-space character. *)
Definition isSpace2 (c d : ascii) : bool :=
  existsb (String.eqb (String c (String d EmptyString))) whiteSpace.

(** The bytes [c], [d], [e] encode a white-space character. *)
Definition isSpace3 (c d e : ascii) : bool :=
  existsb (String.eqb (String c (String d (String e EmptyString)))) whiteSpace.

(** [strings.TrimLeftFunc(s, unicode.IsSpace)]: the characters are decoded
    one after the other from the start, and removed as long as they are
    white space. A white-space character takes one, two or three bytes;
    bytes that do not decode to one end the loop. *)
Fixpoint trimLeft (s : string) : string :=
  match s with
  | EmptyString => EmptyString
  | String c s1 =>
      if isSpace c then trimLeft s1
      else match s1 with
           | EmptyString => s
           | String d s2 =>
               if isSpace2 c d then trimLeft s2
               else match s2 with
                    | EmptyString => s
                    | String e s3 =>
                        if isSpace3 c d e then trimLeft s3 else s
                    end
           end
  end.

(** The text is made of white-space characters only. *)
Definition blank (s : string) : bool := (trimLeft s =? "")%string.

(** [strings.TrimRightFunc(s, unicode.IsSpace)]: the characters are decoded
    one after the other from the end, and removed as long as they are white
    space. No encoding of a white-space character ends another one, so that
    what is removed is the longest ending of the text that is made of
    white-space characters: the text is cut where that ending starts. *)
Fixpoint trimRight (s : string) : string :=
  match s with
  | EmptyString => EmptyString
  | String c s' => if blank s then EmptyString else String c (trimRight s')
  end.

(** [strings.TrimSpace] *)
Definition TrimSpace (s : string) : string := trimRight (trimLeft s).

(** A byte of the form [10xxxxxx], which continues a character. *)
Definition continuation (c : ascii) : bool :=
  ((128 <=? N_of_ascii c) && (N_of_ascii c <? 192))%N.

(** The text that follows the white-space character [s] starts with, when
    it starts with one. *)
Definition afterSpace (s : string) : option string :=
  match s with
  | EmptyString => None
  | String c s1 =>
      if isSpace c then Some s1
      else match s1 with
           | EmptyString => None
           | String d s2 =>
               if isSpace2 c d then Some s2
               else match s2 with
                    | EmptyString => None
                    | String e s3 => if isSpace3 c d e then Some s3 else None
                    end
           end
  end.

(** [spaceSep.Split(text, 2)] on a non-empty [text]: the text before the
    first match of [\s], and the remainder after that one character when
    there is a match (a slice of length 2), nothing otherwise (length 1). *)
Fixpoint splitFirstSpace (s : string) : string * option string :=
  match s with
  | EmptyString => (EmptyString, None)
  | String c s' =>
      if reSpace c then (EmptyString, Some s')
      else let '(a, b) := splitFirstSpace s' in (String c a, b)
  end.

(** [strings.Split(s, string(sep))] *)
Fixpoint splitOn (sep : ascii) (s : string) : list string :=
  match s with
  | EmptyString => [EmptyString]
  | String c s' =>
      if Ascii.eqb c sep then EmptyString :: splitOn sep s'
      else match splitOn sep s' with
           | h :: t => String c h :: t
           | [] => [String c EmptyString]
           end
  end.

(** [strings.HasPrefix(s, p)] *)
Definition HasPrefix (s p : string) : bool := String.prefix p s.

(** The rendering of an integer by the verb [%d]. *)
Definition fmtInt (z : Z) : string := NilZero.string_of_int (Z.to_int z).

End Str.

(** ** path/filepath, for slash-separated paths *)
Module Filepath.

Definition Separator : ascii := "/"%char.

Definition isRooted (path : string) : bool :=
  match path with
  | String c _ => Ascii.eqb c Separator
  | EmptyString => false
  end.

(** The element pass of [Clean]: empty elements and [.] are dropped, a
    [..] removes the element before it when there is one that is not itself
    [..]; at the start it is dropped in a rooted path and kept otherwise.
    [out] is the output so far, last element first. *)
Fixpoint cleanElems (rooted : bool) (es out : list string) : list string :=
  match es with
  | [] => rev out
  | e :: es' =>
      if (e =? "")%string || (e =? ".")%string then cleanElems rooted es' out
      else if (e =? "..")%string then
        match out with
        | top :: out' =>
            if (top =? "..")%string then cleanElems rooted es' (e :: out)
            else cleanElems rooted es' out'
        | [] => if rooted then cleanElems rooted es' []
                else cleanElems rooted es' [e]
        end
      else cleanElems rooted es' (e :: out)
  end.

(** [filepath.Clean] *)
Definition Clean (path : string) : string :=
  let es := cleanElems (isRooted path) (Str.splitOn Separator path) [] in
  if isRooted path then String Separator (String.concat "/" es)
  else match es with
       | [] => "."
       | _ => String.concat "/" es
       end.

(** [filepath.Join] of two elements: leading empty elements are ignored, the
    rest is joined with the separator and cleaned. *)
Definition Join (a b : string) : string :=
  if negb (a =? "")%string then Clean (a ++ "/" ++ b)
  else if negb (b =? "")%string then Clean b
  else "".

Fixpoint lastNonEmpty (es : list string) (acc : option string) : option string :=
  match es with
  | [] => acc
  | e :: es' => lastNonEmpty es' (if (e =? "")%string then acc else Some e)
  end.

(** [filepath.Base]: the last element of the path, trailing separators
    removed first; [.] for the empty path, the separator for a path of
    separators only. *)
Definition Base (path : string) : string :=
  if (path =? "")%string then "."
  else match lastNonEmpty (Str.splitOn Separator path) None with
       | Some e => e
       | None => "/"
       end.

(** The elements [Rel] steps through in a cleaned path: the text between
    separators; a rooted path starts with an empty element. *)
Definition relElems (p : string) : list string :=
  if (p =? "")%string then []
  else if (p =? "/")%string then [""]
  else Str.splitOn Separator p.

(** [Rel]'s loop: position both paths at their first differing elements.
    The third component is [base[b0:bi]] when the loop is left: the base
    element that differed, or the empty string when either path ran out. *)
Fixpoint relSkip (base targ : list string) : list string * list string * string :=
  match base, targ with
  | b :: base', t :: targ' =>
      if (t =? b)%string then relSkip base' targ' else (base, targ, b)
  | _, _ => (base, targ, "")
  end.

(** [filepath.Rel(basepath, targpath)]; [inr] carries the error text. The
    statements of this file use it on rooted paths, whose cleaned form has
    no [..] element. *)
Definition Rel (basepath targpath : string) : string + string :=
  let base := Clean basepath in
  let targ := Clean targpath in
  if (targ =? base)%string then inl "."
  else
    let base := if (base =? ".")%string then "" else base in
    if negb (Bool.eqb (isRooted base) (isRooted targ))
    then inr ("Rel: can't make " ++ targpath ++ " relative to " ++ basepath)
    else
      let '(brest, trest, bcur) := relSkip (relElems base) (relElems targ) in
      if (bcur =? "..")%string
      then inr ("Rel: can't make " ++ targpath ++ " relative to " ++ basepath)
      else match brest with
           | [] => inl (String.concat "/" trest)
           | _ => inl (String.concat "/" (map (fun _ => "..") brest ++ trest)%list)
           end.

End Filepath.

(** ** The file system

    The file system the executor works on is a directory tree. [os] calls
    receive a path string and resolve it from the root (the process is taken
    to run with the root as its current directory). Only the failures that
    follow from the shape of the tree are modelled (a missing file, a file
    where a directory is needed, a directory where a file is needed);
    permissions, quotas and device errors are not. *)
Module FS.

#[warnings="-register-all"]
Inductive Node : Type :=
| File (size : Z) (data : list byte)
    (* a regular file: the size [Lstat] reports, and its content *)
| Dir (entries : list (string * Node))
    (* a directory: its entries, kept in the order of their names *)
| Other.
    (* a symbolic link, device, socket or pipe *)

Definition resolve (path : string) : list string :=
  Filepath.cleanElems true (Str.splitOn Filepath.Separator path) [].

Fixpoint find (name : string) (es : list (string * Node)) : option Node :=
  match es with
  | [] => None
  | (n, c) :: es' => if (n =? name)%string then Some c else find name es'
  end.

(** Bind [name] to [c], keeping the entries ordered by name. *)
Fixpoint put (name : string) (c : Node) (es : list (string * Node))
  : list (string * Node) :=
  match es with
  | [] => [(name, c)]
  | (n, x) :: es' =>
      match String.compare name n with
      | Eq => (name, c) :: es'
      | Lt => (name, c) :: es
      | Gt => (n, x) :: put name c es'
      end
  end.

(** What [Lstat] finds at a resolved path. *)
Fixpoint lookup (p : list string) (n : Node) : option Node :=
  match p with
  | [] => Some n
  | e :: p' =>
      match n with
      | Dir es => match find e es with
                  | Some c => lookup p' c
                  | None => None
                  end
      | _ => None
      end
  end.

(** [os.MkdirAll]: every missing directory on the way is created; an
    existing directory is left as it is; [None] when an element of the path
    exists and is not a directory. *)
Fixpoint mkdirAll (p : list string) (n : Node) : option Node :=
  match n with
  | Dir es =>
      match p with
      | [] => Some n
      | e :: p' =>
          match mkdirAll p' (default (Dir []) (find e es)) with
          | Some c => Some (Dir (put e c es))
          | None => None
          end
      end
  | _ => None
  end.

(** Create or truncate the regular file at [p] and give it the content
    [data]; [None] when the parent is not an existing directory or when [p]
    is not a regular file already. *)
Fixpoint store (p : list string) (data : list byte) (n : Node) : option Node :=
  match p, n with
  | [e], Dir es =>
      match find e es with
      | Some (Dir _) | Some Other => None
      | _ => Some (Dir (put e (File (Z.of_nat (length data)) data) es))
      end
  | e :: p', Dir es =>
      match find e es with
      | Some c => match store p' data c with
                  | Some c' => Some (Dir (put e c' es))
                  | None => None
                  end
      | None => None
      end
  | _, _ => None
  end.

Definition MkdirAll (path : string) (fs : Node) : Node + string :=
  match mkdirAll (resolve path) fs with
  | Some fs' => inl fs'
  | None => inr ("mkdir " ++ path ++ ": not a directory")
  end.

(** [os.Create]: the file is created, or truncated when it exists. *)
Definition Create (path : string) (fs : Node) : Node + string :=
  match store (resolve path) [] fs with
  | Some fs' => inl fs'
  | None => inr ("open " ++ path ++ ": cannot create file")
  end.

(** [io.Copy] into the file just created at [path]. *)
Definition Fill (path : string) (data : list byte) (fs : Node) : Node + string :=
  match store (resolve path) data fs with
  | Some fs' => inl fs'
  | None => inr ("write " ++ path ++ ": bad file descriptor")
  end.

Definition Lstat (path : string) (fs : Node) : Node + string :=
  match lookup (resolve path) fs with
  | Some n => inl n
  | None => inr ("lstat " ++ path ++ ": no such file or directory")
  end.

(** [os.Stat] succeeds on [path]. *)
Definition exists_ (path : string) (fs : Node) : bool :=
  match lookup (resolve path) fs with
  | Some _ => true
  | None => false
  end.

(** The regular files below a node, with their paths relative to it, in
    the order of a walk. *)
Fixpoint files (n : Node) : list (list string * list byte) :=
  match n with
  | File _ data => [([], data)]
  | Dir es =>
      (fix go (es : list (string * Node)) : list (list string * list byte) :=
         match es with
         | [] => []
         | (name, c) :: es' =>
             (map (fun '(p, d) => (name :: p, d)) (files c) ++ go es')%list
         end) es
  | Other => []
  end.

End FS.

(** ** The command model (package script) *)
Module Script.

(** Modelled from the spec: the directive names of package [script], as
    the specification lists them (preambles AS, ENV, FROM, KUBECONFIG,
    AUTHCONFIG, OUTPUT, WORKDIR; actions CAPTURE, COPY, RUN, KUBEGET). *)
Definition CmdAs : string := "AS".
Definition CmdEnv : string := "ENV".
Definition CmdFrom : string := "FROM".
Definition CmdKubeConfig : string := "KUBECONFIG".
Definition CmdAuthConfig : string := "AUTHCONFIG".
Definition CmdOutput : string := "OUTPUT".
Definition CmdWorkDir : string := "WORKDIR".
Definition CmdCapture : string := "CAPTURE".
Definition CmdCopy : string := "COPY".
Definition CmdRun : string := "RUN".
Definition CmdKubeGet : string := "KUBEGET".

(** The six configuration directives that take a single value. *)
Definition singleValued : list string :=
  [CmdAs; CmdFrom; CmdAuthConfig; CmdOutput; CmdWorkDir; CmdKubeConfig].

Definition actionNames : list string :=
  [CmdCapture; CmdCopy; CmdRun; CmdKubeGet].

(** Modelled from the spec: the capability descriptor held for each
    directive in the table [script.Cmds]. *)
Record CommandMeta : Type := {
  Name : string;
  MinArgs : Z;
  MaxArgs : Z;
  Supported : bool
}.

(** The zero value, what a Go map yields for a missing key. *)
Definition zeroMeta : CommandMeta :=
  {| Name := ""; MinArgs := 0; MaxArgs := 0; Supported := false |}.

(** Modelled from the spec: the command variants of package [script], each
    with the source line it was built from ([Index]) and the fields read by
    the parser and the executor. *)
Record AsCommand : Type :=
  { as_index : Z; as_userid : string; as_groupid : string }.
Record EnvCommand : Type :=
  { env_index : Z; Envs : list string }.
Record FromCommand : Type :=
  { from_index : Z; Sources : list string }.
Record KubeConfigCommand : Type :=
  { kubeconfig_index : Z; kubeconfig_path : string }.
Record AuthConfigCommand : Type :=
  { auth_index : Z; auth_username : string; auth_private_key : string }.
Record OutputCommand : Type :=
  { output_index : Z; output_path : string }.
Record WorkdirCommand : Type :=
  { workdir_index : Z; Dir : string }.
Record CaptureCommand : Type :=
  { capture_index : Z; GetCliString : string;
    GetParsedCli : string * list string }.
Record CopyCommand : Type :=
  { copy_index : Z; Args : list string }.
Record RunCommand : Type :=
  { run_index : Z; run_cli : string }.
Record KubeGetCommand : Type :=
  { kubeget_index : Z; kubeget_args : string }.

(** The interface [script.Command] with the concrete type of its value. *)
Inductive Command : Type :=
| IsAs (c : AsCommand)
| IsEnv (c : EnvCommand)
| IsFrom (c : FromCommand)
| IsKubeConfig (c : KubeConfigCommand)
| IsAuthConfig (c : AuthConfigCommand)
| IsOutput (c : OutputCommand)
| IsWorkdir (c : WorkdirCommand)
| IsCapture (c : CaptureCommand)
| IsCopy (c : CopyCommand)
| IsRun (c : RunCommand)
| IsKubeGet (c : KubeGetCommand).

(** [script.Script] *)
Record Script : Type := {
  Preambles : gmap string (list Command);
  Actions : list Command
}.

Definition setPreamble (k : string) (v : list Command) (s : Script) : Script :=
  {| Preambles := <[k := v]> (Preambles s); Actions := Actions s |}.

Definition addAction (c : Command) (s : Script) : Script :=
  {| Preambles := Preambles s; Actions := Actions s ++ [c] |}.

(** [m[k]] on a Go map of slices: the nil slice for a missing key. *)
Definition preamble (k : string) (s : Script) : list Command :=
  default [] (Preambles s !! k).

End Script.

(** ** The parser (package parser) *)
Module Parser.
Import Script.

(** A Go [error] value is represented by its message. *)
Definition error : Type := string.

(** What the parser takes from package [script] and from the process: the
    capability table, one constructor per directive (each receives the line
    number and the raw arguments, and yields the command or an error), the
    default values and the identity of the process. *)
Record Package : Type := {
  Cmds : gmap string CommandMeta;
  NewAsCommand : Z -> string -> AsCommand + error;
  NewEnvCommand : Z -> string -> EnvCommand + error;
  NewFromCommand : Z -> string -> FromCommand + error;
  NewKubeConfigCommand : Z -> string -> KubeConfigCommand + error;
  NewAuthConfigCommand : Z -> string -> AuthConfigCommand + error;
  NewOutputCommand : Z -> string -> OutputCommand + error;
  NewWorkdirCommand : Z -> string -> WorkdirCommand + error;
  NewCaptureCommand : Z -> string -> CaptureCommand + error;
  NewCopyCommand : Z -> string -> CopyCommand + error;
  NewRunCommand : Z -> string -> RunCommand + error;
  NewKubeGetCommand : Z -> string -> KubeGetCommand + error;
  DefaultsFromValue : string;
  DefaultsWorkdirValue : string;
  DefaultsOutputValue : string;
  DefaultsKubeConfigValue : string;
  Getuid : Z;
  Getgid : Z
}.

(** The outcome of one iteration of the scanning loop. *)
Inductive LineResult : Type :=
| Skipped                 (* blank line or comment: [continue] *)
| Failed (e : error)      (* [return nil, err] *)
| Parsed (scr : Script).  (* the script after the directive is stored *)

(** A function that either goes on with a script or returns from
    [enforceDefaults] with the pair given. *)
Definition Step : Type := Script + (option Script * error).

Definition andThen (r : Step) (f : Script -> Step) : Step :=
  match r with
  | inl scr => f scr
  | inr out => inr out
  end.

Notation "r >>= f" := (andThen r f) (at level 50, left associativity).

Section WithPackage.
Variable P : Package.

(** [script.Cmds[cmdName].Supported] *)
Definition supported (cmdName : string) : bool :=
  Supported (default zeroMeta (Cmds P !! cmdName)).

(** [text == "" || text[0] == '#'] *)
Definition skipText (text : string) : bool :=
  match text with
  | EmptyString => true
  | String c _ => Ascii.eqb c "#"%char
  end.

(** The body of the loop of [Parse] for the line [raw], numbered [line],
    with the script built so far. *)
Definition parseLine (scr : Script) (line : Z) (raw : string) : LineResult :=
  let text := Str.TrimSpace raw in
  if skipText text then Skipped
  else
    let '(cmdName, tail) := Str.splitFirstSpace text in
    let rawArgs := default "" tail in
    if negb (supported cmdName)
    then Failed ("line " ++ Str.fmtInt line ++ ": " ++ cmdName ++ " unsupported")
    else if (cmdName =? CmdAs)%string then
      match NewAsCommand P line rawArgs with
      | inr err => Failed err
      | inl cmd => Parsed (setPreamble CmdAs [IsAs cmd] scr)
      end
    else if (cmdName =? CmdEnv)%string then
      match NewEnvCommand P line rawArgs with
      | inr err => Failed err
      | inl cmd =>
          Parsed (setPreamble CmdEnv (preamble CmdEnv scr ++ [IsEnv cmd]) scr)
      end
    else if (cmdName =? CmdFrom)%string then
      match NewFromCommand P line rawArgs with
      | inr err => Failed err
      | inl cmd => Parsed (setPreamble CmdFrom [IsFrom cmd] scr)
      end
    else if (cmdName =? CmdKubeConfig)%string then
      match NewKubeConfigCommand P line rawArgs with
      | inr err => Failed err
      | inl cmd => Parsed (setPreamble CmdKubeConfig [IsKubeConfig cmd] scr)
      end
    else if (cmdName =? CmdAuthConfig)%string then
      match NewAuthConfigCommand P line rawArgs with
      | inr err => Failed err
      | inl cmd => Parsed (setPreamble CmdAuthConfig [IsAuthConfig cmd] scr)
      end
    else if (cmdName =? CmdOutput)%string then
      match NewOutputCommand P line rawArgs with
      | inr err => Failed err
      | inl cmd => Parsed (setPreamble CmdOutput [IsOutput cmd] scr)
      end
    else if (cmdName =? CmdWorkDir)%string then
      match NewWorkdirCommand P line rawArgs with
      | inr err => Failed err
      | inl cmd => Parsed (setPreamble CmdWorkDir [IsWorkdir cmd] scr)
      end
    else if (cmdName =? CmdCapture)%string then
      match NewCaptureCommand P line rawArgs with
      | inr err => Failed err
      | inl cmd => Parsed (addAction (IsCapture cmd) scr)
      end
    else if (cmdName =? CmdCopy)%string then
      match NewCopyCommand P line rawArgs with
      | inr err => Failed err
      | inl cmd => Parsed (addAction (IsCopy cmd) scr)
      end
    else if (cmdName =? CmdRun)%string then
      match NewRunCommand P line rawArgs with
      | inr err => Failed err
      | inl cmd => Parsed (addAction (IsRun cmd) scr)
      end
    else if (cmdName =? CmdKubeGet)%string then
      match NewKubeGetCommand P line rawArgs with
      | inr err => Failed err
      | inl cmd => Parsed (addAction (IsKubeGet cmd) scr)
      end
    else Failed (cmdName ++ " not supported").

(** The loop [for lineScanner.Scan()] over the lines the scanner yields;
    [line] is the counter, incremented on every line. *)
Fixpoint parseLines (lines : list string) (scr : Script) (line : Z)
  : Script + error :=
  match lines with
  | [] => inl scr
  | raw :: rest =>
      match parseLine scr line raw with
      | Skipped => parseLines rest scr (line + 1)
      | Failed err => inr err
      | Parsed scr' => parseLines rest scr' (line + 1)
      end
  end.

Definition defaultAs (scr : Script) : Step :=
  match Preambles scr !! CmdAs with
  | Some _ => inl scr
  | None =>
      match NewAsCommand P 0
              ("userid:" ++ Str.fmtInt (Getuid P) ++
               " groupid:" ++ Str.fmtInt (Getgid P)) with
      | inr err => inr (Some scr, err)
      | inl cmd => inl (setPreamble CmdAs [IsAs cmd] scr)
      end
  end.

Definition defaultFrom (scr : Script) : Step :=
  match Preambles scr !! CmdFrom with
  | Some _ => inl scr
  | None =>
      match NewFromCommand P 0 (DefaultsFromValue P) with
      | inr err => inr (None, err)
      | inl cmd => inl (setPreamble CmdFrom [IsFrom cmd] scr)
      end
  end.

Definition defaultAuthConfig (scr : Script) : Step :=
  match Preambles scr !! CmdAuthConfig with
  | Some _ => inl scr
  | None =>
      match NewAuthConfigCommand P 0
              "username:${USER} private-key:${HOME}/.ssh/id_rsa" with
      | inr err => inr (None, err)
      | inl cmd => inl (setPreamble CmdAuthConfig [IsAuthConfig cmd] scr)
      end
  end.

Definition defaultWorkDir (scr : Script) : Step :=
  match Preambles scr !! CmdWorkDir with
  | Some _ => inl scr
  | None =>
      match NewWorkdirCommand P 0 ("path:" ++ DefaultsWorkdirValue P) with
      | inr err => inr (None, err)
      | inl cmd => inl (setPreamble CmdWorkDir [IsWorkdir cmd] scr)
      end
  end.

Definition defaultOutput (scr : Script) : Step :=
  match Preambles scr !! CmdOutput with
  | Some _ => inl scr
  | None =>
      match NewOutputCommand P 0 ("path:" ++ DefaultsOutputValue P) with
      | inr err => inr (None, err)
      | inl cmd => inl (setPreamble CmdOutput [IsOutput cmd] scr)
      end
  end.

Definition defaultKubeConfig (scr : Script) : Step :=
  match Preambles scr !! CmdKubeConfig with
  | Some _ => inl scr
  | None =>
      match NewKubeConfigCommand P 0 ("path:" ++ DefaultsKubeConfigValue P) with
      | inr err => inr (None, err)
      | inl cmd => inl (setPreamble CmdKubeConfig [IsKubeConfig cmd] scr)
      end
  end.

(** [enforceDefaults]: the pair (script, error) it returns. *)
Definition enforceDefaults (scr : Script) : option Script * option error :=
  match defaultAs scr >>= defaultFrom >>= defaultAuthConfig
          >>= defaultWorkDir >>= defaultOutput >>= defaultKubeConfig with
  | inl scr' => (Some scr', None)
  | inr (ret, err) => (ret, Some err)
  end.

Definition emptyScript : Script := {| Preambles := ∅; Actions := [] |}.

(** [Parse], on the lines of the input. *)
Definition Parse (lines : list string) : option Script * option error :=
  match parseLines lines emptyScript 1 with
  | inr err => (None, Some err)
  | inl scr => enforceDefaults scr
  end.

End WithPackage.

End Parser.

(** ** The executor (package exec) *)
Module Exec.
Import Script.

Definition error : Type := string.

(** One call of [CliRun]: the identity, the environment and the command. *)
Record Invocation : Type := {
  inv_uid : Z;
  inv_gid : Z;
  inv_env : list string;
  inv_cmd : string;
  inv_args : list string
}.

(** What [Execute] acts on: the file system, the messages logged at error
    level, and the subprocesses started so far. Messages of the levels
    info and debug are left out. *)
Record World : Type := {
  fs : FS.Node;
  logged : list string;
  invoked : list Invocation
}.

Definition withFs (w : World) (fs' : FS.Node) : World :=
  {| fs := fs'; logged := logged w; invoked := invoked w |}.

(** [logrus.Error] / [logrus.Errorf] *)
Definition logError (msg : string) (w : World) : World :=
  {| fs := fs w; logged := logged w ++ [msg]; invoked := invoked w |}.

Definition recordRun (i : Invocation) (fs' : FS.Node) (w : World) : World :=
  {| fs := fs'; logged := logged w; invoked := invoked w ++ [i] |}.

(** What the executor takes from outside this file: the resolution of an
    identity ([AsCommand.GetCredentials]), the subprocess runner [CliRun]
    (it may change the file system, and yields the output of the command or
    an error when the command cannot be started or fails), the flattening
    of a command line into a file name ([flatCmd]), and the text [%s]
    prints for the method value [cmd.Name]. *)
Record Runtime : Type := {
  GetCredentials : AsCommand -> (Z * Z) + error;
  CliRun : Z -> Z -> list string -> string -> list string ->
           FS.Node -> FS.Node * (list byte + error);
  flatCmd : string -> string;
  fmtMethodValue : string
}.

(** How a call of [Execute] ends. *)
Inductive Outcome : Type :=
| Returned (err : option error)
| Panicked (msg : string).

(** [cmds, ok := Preambles[k]] followed by the type assertion on
    [cmds[0]]. *)
Inductive Fetched (A : Type) : Type :=
| Found (a : A)
| Missing
| Panics (msg : string).
Arguments Found {A} a.
Arguments Missing {A}.
Arguments Panics {A} msg.

Definition indexPanic : string := "index out of range [0] with length 0".
Definition conversionPanic : string := "interface conversion".

Definition fetchFrom (scr : Script) : Fetched FromCommand :=
  match Preambles scr !! CmdFrom with
  | None => Missing
  | Some [] => Panics indexPanic
  | Some (IsFrom c :: _) => Found c
  | Some (_ :: _) => Panics conversionPanic
  end.

Definition fetchAs (scr : Script) : Fetched AsCommand :=
  match Preambles scr !! CmdAs with
  | None => Missing
  | Some [] => Panics indexPanic
  | Some (IsAs c :: _) => Found c
  | Some (_ :: _) => Panics conversionPanic
  end.

Definition fetchWorkdir (scr : Script) : Fetched WorkdirCommand :=
  match Preambles scr !! CmdWorkDir with
  | None => Missing
  | Some [] => Panics indexPanic
  | Some (IsWorkdir c :: _) => Found c
  | Some (_ :: _) => Panics conversionPanic
  end.

Definition missingValid (directive : string) : error :=
  "Script missing valid " ++ directive.

(** The loop over the ENV preambles; [None] when an entry is not an
    [EnvCommand] (the type assertion panics). *)
Fixpoint collectEnv (envCmds : list Command) (envPairs : list string)
  : option (list string) :=
  match envCmds with
  | [] => Some envPairs
  | IsEnv env :: rest => collectEnv rest (envPairs ++ Envs env)
  | _ :: _ => None
  end.

(** [uint32(x)] *)
Definition uint32 (x : Z) : Z := x mod 2 ^ 32.

(** [writeFile] *)
Definition writeFile (source : list byte) (filePath : string) (w : World)
  : World * option error :=
  match FS.Create filePath (fs w) with
  | inr err => (w, Some err)
  | inl fs1 =>
      match FS.Fill filePath source fs1 with
      | inr err => (withFs w fs1, Some err)
      | inl fs2 => (withFs w fs2, None)
      end
  end.

Section WithRuntime.
Variable R : Runtime.

(** The function handed to [filepath.Walk]: [file] is the path visited,
    [finfo] what [Lstat] found there. *)
Definition walkFn (workdir : string) (file : string) (finfo : FS.Node)
           (fs0 : FS.Node) : FS.Node * option error :=
  let subpath := Filepath.Join workdir (Filepath.Base file) in
  match finfo with
  | FS.Dir _ =>
      match FS.MkdirAll subpath fs0 with
      | inr err => (fs0, Some err)
      | inl fs1 => (fs1, None)
      end
  | FS.File size _ =>
      match FS.Lstat file fs0 with            (* os.Open(file) *)
      | inr err => (fs0, Some err)
      | inl _ =>
          match FS.Create subpath fs0 with    (* os.Create(subpath) *)
          | inr err => (fs0, Some err)
          | inl fs1 =>
              (* io.Copy(desFile, srcFile) *)
              match FS.Lstat file fs1 with
              | inl (FS.File _ data) =>
                  match FS.Fill subpath data fs1 with
                  | inr err => (fs1, Some err)
                  | inl fs2 =>
                      if Z.of_nat (length data) =? size
                      then (fs2, None)
                      else (fs2, Some (fmtMethodValue R ++
                                       " did not complet for " ++ file))
                  end
              | _ => (fs1, Some ("read " ++ file ++ ": is a directory"))
              end
          end
      end
  | FS.Other =>
      (fs0, Some (fmtMethodValue R ++ " unknown file type for " ++ file))
  end.

(** [filepath.walk]: the node is visited, then, for a directory, its
    entries in the order of their names. The walk follows the tree found
    under the root when it starts; what it writes goes to the working
    directory, and the content of a file is read when it is copied. A
    working directory that lies inside the tree walked, so that the walk
    would meet its own output, is outside this model. *)
Fixpoint walk (workdir : string) (path : string) (info : FS.Node)
         (fs0 : FS.Node) : FS.Node * option error :=
  match info with
  | FS.Dir entries =>
      match walkFn workdir path info fs0 with
      | (fs1, Some err) => (fs1, Some err)
      | (fs1, None) =>
          (fix children (es : list (string * FS.Node)) (fs2 : FS.Node)
             : FS.Node * option error :=
             match es with
             | [] => (fs2, None)
             | (name, child) :: es' =>
                 match walk workdir (Filepath.Join path name) child fs2 with
                 | (fs3, Some err) => (fs3, Some err)
                 | (fs3, None) => children es' fs3
                 end
             end) entries fs1
      end
  | _ => walkFn workdir path info fs0
  end.

(** [filepath.Walk(path, walkFn)] *)
Definition Walk (workdir : string) (root : string) (fs0 : FS.Node)
  : FS.Node * option error :=
  match FS.Lstat root fs0 with
  | inr err => (fs0, Some err)
  | inl info => walk workdir root info fs0
  end.

(** [relPath, err := filepath.Rel(workdir, path);
     err == nil && !strings.HasPrefix(relPath, "..")] *)
Definition relativeToWorkdir (workdir path : string) : bool :=
  match Filepath.Rel workdir path with
  | inl relPath => negb (Str.HasPrefix relPath "..")
  | inr _ => false
  end.

(** The body of the loop over the arguments of a COPY. *)
Definition copyPath (workdir : string) (path : string) (w : World) : World :=
  if relativeToWorkdir workdir path
  then logError (CmdCopy ++ " path " ++ path ++
                 " cannot be relative to workdir " ++ workdir) w
  else
    match Walk workdir path (fs w) with
    | (fs1, Some err) => logError err (withFs w fs1)
    | (fs1, None) => withFs w fs1
    end.

Fixpoint copyPaths (workdir : string) (paths : list string) (w : World)
  : World :=
  match paths with
  | [] => w
  | path :: rest => copyPaths workdir rest (copyPath workdir path w)
  end.

(** The case of a CAPTURE in the loop over the actions. *)
Definition capture (workdir : string) (asUid asGid : Z)
           (envPairs : list string) (cmd : CaptureCommand) (w : World)
  : World * option error :=
  let cmdStr := GetCliString cmd in
  let '(cliCmd, cliArgs) := GetParsedCli cmd in
  let '(fs1, cmdReader) :=
    CliRun R (uint32 asUid) (uint32 asGid) envPairs cliCmd cliArgs (fs w) in
  let w1 := recordRun {| inv_uid := uint32 asUid; inv_gid := uint32 asGid;
                         inv_env := envPairs; inv_cmd := cliCmd;
                         inv_args := cliArgs |} fs1 w in
  match cmdReader with
  | inr err => (w1, Some err)
  | inl output =>
      let fileName := flatCmd R cmdStr ++ ".txt" in
      let filePath := Filepath.Join workdir fileName in
      writeFile output filePath w1
  end.

(** The loop over [e.script.Actions]; [Some err] is [return err]. *)
Fixpoint runActions (workdir : string) (asUid asGid : Z)
         (envPairs : list string) (actions : list Command) (w : World)
  : World * option error :=
  match actions with
  | [] => (w, None)
  | IsCopy cmd :: rest =>
      runActions workdir asUid asGid envPairs rest
                 (copyPaths workdir (Args cmd) w)
  | IsCapture cmd :: rest =>
      match capture workdir asUid asGid envPairs cmd w with
      | (w1, Some err) => (w1, Some err)
      | (w1, None) => runActions workdir asUid asGid envPairs rest w1
      end
  | _ :: rest => runActions workdir asUid asGid envPairs rest w
  end.

(** The loop over [fromCmd.Sources()]. *)
Fixpoint runSources (workdir : string) (asUid asGid : Z)
         (envPairs : list string) (actions : list Command)
         (sources : list string) (w : World) : World * option error :=
  match sources with
  | [] => (w, None)
  | _ :: rest =>
      match runActions workdir asUid asGid envPairs actions w with
      | (w1, Some err) => (w1, Some err)
      | (w1, None) =>
          runSources workdir asUid asGid envPairs actions rest w1
      end
  end.

(** [Executor.Execute] *)
Definition Execute (scr : Script) (w : World) : World * Outcome :=
  match fetchFrom scr with
  | Missing => (w, Returned (Some (missingValid CmdFrom)))
  | Panics msg => (w, Panicked msg)
  | Found fromCmd =>
  match fetchAs scr with
  | Missing => (w, Returned (Some (missingValid CmdAs)))
  | Panics msg => (w, Panicked msg)
  | Found asCmd =>
  match GetCredentials R asCmd with
  | inr err => (w, Returned (Some err))
  | inl (asUid, asGid) =>
  match fetchWorkdir scr with
  | Missing => (w, Returned (Some (missingValid CmdWorkDir)))
  | Panics msg => (w, Panicked msg)
  | Found workdir =>
  match FS.MkdirAll (Dir workdir) (fs w) with
  | inr err => (w, Returned (Some err))
  | inl fs1 =>
  match collectEnv (preamble CmdEnv scr) [] with
  | None => (withFs w fs1, Panicked conversionPanic)
  | Some envPairs =>
      let '(w', err) :=
        runSources (Dir workdir) asUid asGid envPairs (Actions scr)
                   (Sources fromCmd) (withFs w fs1) in
      (w', Returned err)
  end end end end end end.

End WithRuntime.

End Exec.

(** ** A concrete package, runtime and file system

    An instance of what the parser and the executor take from outside, on
    which the statements below are evaluated. *)
Module Sample.
Import Script.

Definition meta (name : string) (lo hi : Z) : CommandMeta :=
  {| Name := name; MinArgs := lo; MaxArgs := hi; Supported := true |}.

Definition table : gmap string CommandMeta :=
  list_to_map
    [(CmdAs, meta CmdAs 1 2); (CmdEnv, meta CmdEnv 1 (-1));
     (CmdFrom, meta CmdFrom 1 (-1)); (CmdKubeConfig, meta CmdKubeConfig 1 1);
     (CmdAuthConfig, meta CmdAuthConfig 1 2); (CmdOutput, meta CmdOutput 1 1);
     (CmdWorkDir, meta CmdWorkDir 1 1); (CmdCapture, meta CmdCapture 1 1);
     (CmdCopy, meta CmdCopy 1 (-1)); (CmdRun, meta CmdRun 1 1);
     (CmdKubeGet, meta CmdKubeGet 1 (-1))].

(** The words of a string, split at spaces. *)
Definition words (s : string) : list string :=
  filter (fun w => w <> "") (Str.splitOn " "%char s).

(** A constructor fails on empty arguments. *)
Definition build {A : Type} (name : string) (mk : Z -> string -> A)
           (line : Z) (rawArgs : string) : A + string :=
  if (rawArgs =? "")%string
  then inr (name ++ " must have at least 1 argument(s)")
  else inl (mk line rawArgs).

Definition stripPath (rawArgs : string) : string :=
  if String.prefix "path:" rawArgs
  then String.substring 5 (String.length rawArgs - 5) rawArgs
  else rawArgs.

Definition package : Parser.Package :=
  {| Parser.Cmds := table;
     Parser.NewAsCommand :=
       build CmdAs (fun l a => {| as_index := l; as_userid := a; as_groupid := "" |});
     Parser.NewEnvCommand :=
       build CmdEnv (fun l a => {| env_index := l; Envs := words a |});
     Parser.NewFromCommand :=
       build CmdFrom (fun l a => {| from_index := l; Sources := words a |});
     Parser.NewKubeConfigCommand :=
       build CmdKubeConfig
             (fun l a => {| kubeconfig_index := l; kubeconfig_path := stripPath a |});
     Parser.NewAuthConfigCommand :=
       build CmdAuthConfig
             (fun l a => {| auth_index := l; auth_username := a;
                            auth_private_key := "" |});
     Parser.NewOutputCommand :=
       build CmdOutput (fun l a => {| output_index := l; output_path := stripPath a |});
     Parser.NewWorkdirCommand :=
       build CmdWorkDir (fun l a => {| workdir_index := l; Dir := stripPath a |});
     Parser.NewCaptureCommand :=
       build CmdCapture
             (fun l a => {| capture_index := l; GetCliString := a;
                            GetParsedCli := (hd "" (words a), tl (words a)) |});
     Parser.NewCopyCommand :=
       build CmdCopy (fun l a => {| copy_index := l; Args := words a |});
     Parser.NewRunCommand :=
       build CmdRun (fun l a => {| run_index := l; run_cli := a |});
     Parser.NewKubeGetCommand :=
       build CmdKubeGet (fun l a => {| kubeget_index := l; kubeget_args := a |});
     Parser.DefaultsFromValue := "local";
     Parser.DefaultsWorkdirValue := "/tmp/flareout";
     Parser.DefaultsOutputValue := "out.tar.gz";
     Parser.DefaultsKubeConfigValue := "/root/.kube/config";
     Parser.Getuid := 1000;
     Parser.Getgid := 1000 |}.

(** The script [Parse] returns for [lines]. *)
Definition parsed (lines : list string) : Script :=
  default Parser.emptyScript (fst (Parser.Parse package lines)).

(** The no-break space U+00A0 and the em space U+2003, in UTF-8. *)
Definition nbsp : string := Str.utf8 [194; 160]%N.
Definition emsp : string := Str.utf8 [226; 128; 131]%N.

(** A script with a comment behind a no-break space, and lines that start
    or end with white space of several bytes. *)
Definition mixedLines : list string :=
  [nbsp ++ "# identity"; emsp; "AS a"; "ENV a=b" ++ nbsp; "COPY /src";
   emsp ++ " AS b"; "ENV c=d"; "CAPTURE /bin/echo x"].



Definition spacedCopy : string := nbsp ++ " COPY  /a /b " ++ nbsp.



Definition bytes (s : string) : list byte := list_byte_of_string s.

Definition isAlnum (c : ascii) : bool :=
  let n := N_of_ascii c in
  (((48 <=? n) && (n <=? 57)) || ((65 <=? n) && (n <=? 90))
   || ((97 <=? n) && (n <=? 122)))%N.

Fixpoint flatten (s : string) : string :=
  match s with
  | EmptyString => EmptyString
  | String c s' => String (if isAlnum c then c else "_"%char) (flatten s')
  end.

(** The identity of the process resolves, any other is unknown; the only
    program that can be started is [/bin/echo], and it leaves the file
    system alone. *)
Definition runtime : Exec.Runtime :=
  {| Exec.GetCredentials := fun c =>
       if (as_userid c =? "userid:1000 groupid:1000")%string
       then inl (1000, 1000)
       else inr ("user: unknown user " ++ as_userid c);
     Exec.CliRun := fun _ _ _ cmd args fs0 =>
       if (cmd =? "/bin/echo")%string
       then (fs0, inl (bytes (String.concat " " args)))
       else (fs0, inr ("exec: " ++ cmd ++ ": file not found"));
     Exec.flatCmd := flatten;
     Exec.fmtMethodValue := "%!s(func() string)" |}.

(** A file system with [/src/a/x] (1 byte), [/src/b/x] (2 bytes), the
    device [/dev/null] and an empty [/tmp]. *)
Definition disk : FS.Node :=
  FS.Dir [("dev", FS.Dir [("null", FS.Other)]);
          ("src", FS.Dir [("a", FS.Dir [("x", FS.File 1 (bytes "1"))]);
                          ("b", FS.Dir [("x", FS.File 2 (bytes "22"))])]);
          ("tmp", FS.Dir [])].

Definition worldOf (fs0 : FS.Node) : Exec.World :=
  {| Exec.fs := fs0; Exec.logged := []; Exec.invoked := [] |}.

Definition world : Exec.World := worldOf disk.

(** [disk] once the default working directory is made. *)
Definition diskWithWorkdir : FS.Node :=
  FS.Dir [("dev", FS.Dir [("null", FS.Other)]);
          ("src", FS.Dir [("a", FS.Dir [("x", FS.File 1 (bytes "1"))]);
                          ("b", FS.Dir [("x", FS.File 2 (bytes "22"))])]);
          ("tmp", FS.Dir [("flareout", FS.Dir [])])].

(** A working directory that holds the directory [..cache] with one file. *)
Definition cacheDisk : FS.Node :=
  FS.Dir [("tmp",
           FS.Dir [("flareout",
                    FS.Dir [("..cache",
                             FS.Dir [("f", FS.File 3 (bytes "abc"))])])])].

Definition defaultFrom : FromCommand :=
  {| from_index := 0; Sources := ["local"] |}.

Definition defaultAs : AsCommand :=
  {| as_index := 0; as_userid := "userid:1000 groupid:1000"; as_groupid := "" |}.

Definition defaultWorkdir : WorkdirCommand :=
  {| workdir_index := 0; Dir := "/tmp/flareout" |}.

Definition echoLines : list string := ["CAPTURE /bin/echo 'HELLO WORLD'"].

Definition echoCommand : CaptureCommand :=
  {| capture_index := 1; GetCliString := "/bin/echo 'HELLO WORLD'";
     GetParsedCli := ("/bin/echo", ["'HELLO"; "WORLD'"]) |}.

Definition unknownUserLines : list string :=
  ["AS foo:bar"; "CAPTURE /bin/echo 'HELLO WORLD'"].

Definition unknownUser : AsCommand :=
  {| as_index := 1; as_userid := "foo:bar"; as_groupid := "" |}.

(** Two sources; a COPY, a CAPTURE of a program that cannot be started, and
    a CAPTURE that would succeed. *)
Definition failingLines : list string :=
  ["FROM a b"; "COPY /src"; "CAPTURE ls"; "CAPTURE /bin/echo a"].

Definition twoSources : FromCommand :=
  {| from_index := 1; Sources := ["a"; "b"] |}.

Definition copySrc : CopyCommand := {| copy_index := 2; Args := ["/src"] |}.

Definition lsCommand : CaptureCommand :=
  {| capture_index := 3; GetCliString := "ls"; GetParsedCli := ("ls", []) |}.

Definition echoA : CaptureCommand :=
  {| capture_index := 4; GetCliString := "/bin/echo a";
     GetParsedCli := ("/bin/echo", ["a"]) |}.

(** The COPY of a directory of the working directory. *)
Definition copyCache : CopyCommand :=
  {| copy_index := 1; Args := ["/tmp/flareout/..cache"] |}.

(** A COPY whose second argument is a device. *)
Definition copyThree : CopyCommand :=
  {| copy_index := 1; Args := ["/src/a"; "/dev/null"; "/src/b"] |}.

(** The world [Execute] leaves for [echoLines]. *)
Definition afterEcho : Exec.World :=
  {| Exec.fs :=
       FS.Dir [("dev", FS.Dir [("null", FS.Other)]);
               ("src", FS.Dir [("a", FS.Dir [("x", FS.File 1 (bytes "1"))]);
                               ("b", FS.Dir [("x", FS.File 2 (bytes "22"))])]);
               ("tmp",
                FS.Dir [("flareout",
                         FS.Dir [("_bin_echo__HELLO_WORLD_.txt",
                                  FS.File 13 (bytes "'HELLO WORLD'"))])])];
     Exec.logged := [];
     Exec.invoked := [{| Exec.inv_uid := 1000; Exec.inv_gid := 1000;
                         Exec.inv_env := []; Exec.inv_cmd := "/bin/echo";
                         Exec.inv_args := ["'HELLO"; "WORLD'"] |}] |}.

(** The script of the default preambles with the actions given. *)
Definition scriptOf (actions : list Command) : Script :=
  {| Preambles :=
       list_to_map [(CmdFrom, [IsFrom defaultFrom]); (CmdAs, [IsAs defaultAs]);
                    (CmdWorkDir, [IsWorkdir defaultWorkdir])];
     Actions := actions |}.

(** A script with the preambles given and no action. *)
Definition preamblesOnly (l : list (string * list Command)) : Script :=
  {| Preambles := list_to_map l; Actions := [] |}.

Definition fromOnly : list (string * list Command) :=
  [(CmdFrom, [IsFrom defaultFrom])].

Definition fromAndAs : list (string * list Command) :=
  [(CmdFrom, [IsFrom defaultFrom]); (CmdAs, [IsAs defaultAs])].

End Sample.

(** ** The specification's vocabulary

    The notions the statements are phrased with, defined after the wording
    of the specification and independently of the functions above. *)
Module Spec.
Import Script.

(** The first character of a line that is not white space: the first byte
    of what is left of the line once the white space it starts with is
    removed. *)
Definition firstNonSpace (s : string) : option ascii :=
  match Str.trimLeft s with
  | EmptyString => None
  | String c _ => Some c
  end.

(** A text made of white-space characters only. *)
Inductive Blank : string -> Prop :=
| Blank_nil : Blank ""
| Blank_cons (w s : string) :
    In w Str.whiteSpace -> Blank s -> Blank (w ++ s).

(** A blank line, or a line whose first non-white-space character is [#]. *)
Definition skippedLine (raw : string) : bool :=
  match firstNonSpace raw with
  | None => true
  | Some c => Ascii.eqb c "#"%char
  end.

(** The directive name of a line and its raw arguments. *)
Definition directiveOf (raw : string) : string :=
  fst (Str.splitFirstSpace (Str.TrimSpace raw)).

Definition argumentsOf (raw : string) : string :=
  default "" (snd (Str.splitFirstSpace (Str.TrimSpace raw))).

Section WithPackage.
Variable P : Parser.Package.

Definition lift {A : Type} (wrap : A -> Command)
           (mk : Z -> string -> A + Parser.error)
  : Z -> string -> Command + Parser.error :=
  fun line rawArgs =>
    match mk line rawArgs with
    | inl c => inl (wrap c)
    | inr err => inr err
    end.

(** The constructor dedicated to each directive. *)
Definition constructors
  : list (string * (Z -> string -> Command + Parser.error)) :=
  [(CmdAs, lift IsAs (Parser.NewAsCommand P));
   (CmdEnv, lift IsEnv (Parser.NewEnvCommand P));
   (CmdFrom, lift IsFrom (Parser.NewFromCommand P));
   (CmdKubeConfig, lift IsKubeConfig (Parser.NewKubeConfigCommand P));
   (CmdAuthConfig, lift IsAuthConfig (Parser.NewAuthConfigCommand P));
   (CmdOutput, lift IsOutput (Parser.NewOutputCommand P));
   (CmdWorkDir, lift IsWorkdir (Parser.NewWorkdirCommand P));
   (CmdCapture, lift IsCapture (Parser.NewCaptureCommand P));
   (CmdCopy, lift IsCopy (Parser.NewCopyCommand P));
   (CmdRun, lift IsRun (Parser.NewRunCommand P));
   (CmdKubeGet, lift IsKubeGet (Parser.NewKubeGetCommand P))].

Fixpoint constructorOf (name : string)
         (table : list (string * (Z -> string -> Command + Parser.error)))
  : option (Z -> string -> Command + Parser.error) :=
  match table with
  | [] => None
  | (n, mk) :: table' =>
      if (name =? n)%string then Some mk else constructorOf name table'
  end.

(** The directive and the command a line of the script yields: nothing
    for a skipped line, and nothing for a line that is rejected. *)
Definition lineCommand (line : Z) (raw : string) : option (string * Command) :=
  if skippedLine raw then None
  else if negb (Parser.supported P (directiveOf raw)) then None
  else match constructorOf (directiveOf raw) constructors with
       | Some mk =>
           match mk line (argumentsOf raw) with
           | inl c => Some (directiveOf raw, c)
           | inr _ => None
           end
       | None => None
       end.

(** The commands of a script in source-line order, the first line being
    numbered [line]. *)
Fixpoint commandsFrom (line : Z) (lines : list string)
  : list (string * Command) :=
  match lines with
  | [] => []
  | raw :: rest =>
      match lineCommand line raw with
      | Some dc => dc :: commandsFrom (line + 1) rest
      | None => commandsFrom (line + 1) rest
      end
  end.

End WithPackage.

(** The commands of the directive [d], in order. *)
Definition valuesOf (d : string) (cmds : list (string * Command)) : list Command :=
  map snd (List.filter (fun dc => (fst dc =? d)%string) cmds).

Definition isAction (d : string) : bool :=
  existsb (String.eqb d) actionNames.

Definition isSingleValued (d : string) : bool :=
  existsb (String.eqb d) singleValued.

(** The commands of the action directives, in order. *)
Definition actionsOf (cmds : list (string * Command)) : list Command :=
  map snd (List.filter (fun dc => isAction (fst dc)) cmds).

(** Where the parser puts the command of a directive: a single-valued
    directive replaces what the script holds for it, ENV is appended to the
    ENV commands, an action is appended to the actions. *)
Definition place (d : string) (c : Command) (scr : Script) : Script :=
  if isSingleValued d then setPreamble d [c] scr
  else if (d =? CmdEnv)%string
       then setPreamble CmdEnv (preamble CmdEnv scr ++ [c]) scr
       else addAction c scr.

Definition placeAll (cmds : list (string * Command)) (scr : Script) : Script :=
  foldl (fun s dc => place (fst dc) (snd dc) s) scr cmds.

(** A directive the parser has a case for. *)
Definition known (d : string) : bool :=
  isSingleValued d || (d =? CmdEnv)%string || isAction d.

(** The command [c] has the concrete type of the directive [d]. *)
Definition wellTyped (d : string) (c : Command) : bool :=
  match c with
  | IsAs _ => (d =? CmdAs)%string
  | IsEnv _ => (d =? CmdEnv)%string
  | IsFrom _ => (d =? CmdFrom)%string
  | IsKubeConfig _ => (d =? CmdKubeConfig)%string
  | IsAuthConfig _ => (d =? CmdAuthConfig)%string
  | IsOutput _ => (d =? CmdOutput)%string
  | IsWorkdir _ => (d =? CmdWorkDir)%string
  | IsCapture _ => (d =? CmdCapture)%string
  | IsCopy _ => (d =? CmdCopy)%string
  | IsRun _ => (d =? CmdRun)%string
  | IsKubeGet _ => (d =? CmdKubeGet)%string
  end.

(** [scr'] is [scr] with defaults added for the directives [ds]: the
    actions and every other preamble are the same, a directive of [ds]
    that was present keeps its commands, and one that was absent has got
    exactly one command, of its own type. *)
Definition completes (ds : list string) (scr scr' : Script) : Prop :=
  Actions scr' = Actions scr /\
  (forall k, ~ In k ds -> Preambles scr' !! k = Preambles scr !! k) /\
  (forall d, In d ds ->
     match Preambles scr !! d with
     | Some v => Preambles scr' !! d = Some v
     | None => exists c, Preambles scr' !! d = Some [c] /\ wellTyped d c = true
     end).

(** A string without path separator. *)
Fixpoint noSeparator (e : string) : bool :=
  match e with
  | EmptyString => true
  | String c e' => negb (Ascii.eqb c Filepath.Separator) && noSeparator e'
  end.

(** A path element that names an entry: not empty, neither [.] nor [..]. *)
Definition properElement (e : string) : bool :=
  negb ((e =? "")%string || (e =? ".")%string || (e =? "..")%string).

Definition isProper (e : string) : Prop := properElement e = true.

Definition isDots (e : string) : Prop := e = "..".

(** A file name: one proper path element. *)
Definition fileName (e : string) : bool := noSeparator e && properElement e.

(** The elements of a path once cleaned. *)
Definition elements (path : string) : list string :=
  Filepath.cleanElems (Filepath.isRooted path)
                      (Str.splitOn Filepath.Separator path) [].

Fixpoint stripPrefix (pre l : list string) : option (list string) :=
  match pre, l with
  | [], _ => Some l
  | a :: pre', b :: l' => if (a =? b)%string then stripPrefix pre' l' else None
  | _ :: _, [] => None
  end.

(** [path] is the working directory or lies inside it: both are rooted or
    both are not, and the elements of [path] are those of the working
    directory followed by elements that do not start by going up. *)
Definition inside (workdir path : string) : bool :=
  Bool.eqb (Filepath.isRooted workdir) (Filepath.isRooted path) &&
  match stripPrefix (elements workdir) (elements path) with
  | Some (e :: _) => negb (e =? "..")%string
  | Some [] => true
  | None => false
  end.

(** The first element of [path] below the working directory starts with
    two dots. *)
Definition dottedBelow (workdir path : string) : bool :=
  match stripPrefix (elements workdir) (elements path) with
  | Some (e :: _) => Str.HasPrefix e ".."
  | _ => false
  end.

(** The regular files found below [path], with their content. *)
Definition filesBelow (path : string) (fs : FS.Node)
  : list (list string * list byte) :=
  match FS.lookup (FS.resolve path) fs with
  | Some n => FS.files n
  | None => []
  end.

(** What a regular file at [p] holds: the size reported and the content. *)
Definition fileAt (p : list string) (fs : FS.Node) : option (Z * list byte) :=
  match FS.lookup p fs with
  | Some (FS.File size data) => Some (size, data)
  | _ => None
  end.

End Spec.

(** ** Regular expressions

    The part of Go's [regexp] syntax the parser uses, on byte strings:
    character classes, concatenation, alternation and repetition. A pattern
    anchored by [^] and [$] matches a text when the whole text belongs to
    its language, which [matches] decides by taking derivatives. *)
Module Regexp.

Inductive re : Type :=
| Void                        (* no text *)
| Eps                         (* the empty text *)
| Class (p : ascii -> bool)   (* one character of a class *)
| Cat (r1 r2 : re)
| Alt (r1 r2 : re)
| Star (r : re).

(** [r+] *)
Definition Plus (r : re) : re := Cat r (Star r).

(** [r{0,1}] *)
Definition Opt (r : re) : re := Alt Eps r.

Fixpoint nullable (r : re) : bool :=
  match r with
  | Void => false
  | Eps => true
  | Class _ => false
  | Cat r1 r2 => nullable r1 && nullable r2
  | Alt r1 r2 => nullable r1 || nullable r2
  | Star _ => true
  end.

(** The texts [s] such that [c] followed by [s] is matched by [r]. *)
Fixpoint deriv (c : ascii) (r : re) : re :=
  match r with
  | Void => Void
  | Eps => Void
  | Class p => if p c then Eps else Void
  | Cat r1 r2 =>
      if nullable r1 then Alt (Cat (deriv c r1) r2) (deriv c r2)
      else Cat (deriv c r1) r2
  | Alt r1 r2 => Alt (deriv c r1) (deriv c r2)
  | Star r' => Cat (deriv c r') (Star r')
  end.

(** [MatchString] for a pattern anchored at both ends. *)
Fixpoint matches (r : re) (s : string) : bool :=
  match s with
  | EmptyString => nullable r
  | String c s' => matches (deriv c r) s'
  end.

(** The language of a pattern: the texts it matches from end to end. *)
Inductive lang : re -> string -> Prop :=
| lang_eps : lang Eps ""
| lang_class (p : ascii -> bool) (c : ascii) :
    p c = true -> lang (Class p) (String c "")
| lang_cat (r1 r2 : re) (s1 s2 : string) :
    lang r1 s1 -> lang r2 s2 -> lang (Cat r1 r2) (s1 ++ s2)
| lang_alt_l (r1 r2 : re) (s : string) : lang r1 s -> lang (Alt r1 r2) s
| lang_alt_r (r1 r2 : re) (s : string) : lang r2 s -> lang (Alt r1 r2) s
| lang_star_nil (r : re) : lang (Star r) ""
| lang_star_app (r : re) (s1 s2 : string) :
    lang r s1 -> lang (Star r) s2 -> lang (Star r) (s1 ++ s2).

End Regexp.

(** ** The argument helpers of package parser *)
Module ParserArgs.
Import Script Parser.

Definition quote : ascii := "034"%char.
Definition apostrophe : ascii := "039"%char.

(** The class [[a-z0-9_\-]]. *)
Definition nameChar (c : ascii) : bool :=
  let n := N_of_ascii c in
  (((97 <=? n) && (n <=? 122)) || ((48 <=? n) && (n <=? 57))
   || (n =? 95) || (n =? 45))%N.

(** The class of the double and the single quote. *)
Definition quoteChar (c : ascii) : bool :=
  Ascii.eqb c quote || Ascii.eqb c apostrophe.

(** The class [.]: any character but the line feed. The pattern is
    matched on the bytes of the text: the line feed, the colon, the quotes
    and the characters of a name are single bytes that occur in no
    character of several bytes, so that a match on characters is a match on
    bytes. *)
Definition anyChar (c : ascii) : bool := negb (Ascii.eqb c "010"%char).

(** [namedParamRegx]: between [^] and [$], a group of one or more
    characters of the class [a-z0-9_\-], the group [:], and a group made of
    at most one quote, one or more times any character, and at most one
    quote. *)
Definition namedParamRegx : Regexp.re :=
  Regexp.Cat (Regexp.Plus (Regexp.Class nameChar))
    (Regexp.Cat (Regexp.Class (Ascii.eqb ":"%char))
       (Regexp.Cat (Regexp.Opt (Regexp.Class quoteChar))
          (Regexp.Cat (Regexp.Plus (Regexp.Class anyChar))
                      (Regexp.Opt (Regexp.Class quoteChar))))).

(** [isNamedParam] *)
Definition isNamedParam (str : string) : bool :=
  Regexp.matches namedParamRegx str.


Section WithPackage.
Variable P : Package.

(** [validateRawArgs]; [None] is the nil error. *)
Definition validateRawArgs (cmdName rawArgs : string) : option error :=
  match Cmds P !! cmdName with
  | None => Some (cmdName ++ " is unknown")
  | Some cmd =>
      if (Nat.eqb (String.length rawArgs) 0) && (0 <? MinArgs cmd)
      then Some (cmdName ++ " must have at least " ++ Str.fmtInt (MinArgs cmd)
                 ++ " argument(s)")
      else None
  end.

(** [validateCmdArgs] *)
Definition validateCmdArgs (cmdName : string) (args : gmap string string)
  : option error :=
  match Cmds P !! cmdName with
  | None => Some (cmdName ++ " is unknown")
  | Some cmd =>
      let minArgs := MinArgs cmd in
      let maxArgs := MaxArgs cmd in
      if Z.of_nat (size args) <? minArgs
      then Some (cmdName ++ " must have at least " ++ Str.fmtInt minArgs
                 ++ " argument(s)")
      else if (-1 <? maxArgs) && (maxArgs <? Z.of_nat (size args))
      then Some (cmdName ++ " can only have up to " ++ Str.fmtInt maxArgs
                 ++ " argument(s)")
      else None
  end.

End WithPackage.

(** [mapArgs] relies on two functions of the package that split a string:
    [commandSplit] cuts the raw arguments into parameters, and
    [namedParamSplit] cuts a parameter into its name and its value. *)
Section WithSplitters.
Variable commandSplit : string -> list string + error.
Variable namedParamSplit : string -> (string * string) + error.

(** The loop of [mapArgs] over the parameters. *)
Fixpoint mapParams (params : list string) (argMap : gmap string string)
  : gmap string string + error :=
  match params with
  | [] => inl argMap
  | param :: rest =>
      match namedParamSplit param with
      | inr err => inr ("map args: " ++ err)
      | inl (cmdName, cmdStr) => mapParams rest (<[cmdName := cmdStr]> argMap)
      end
  end.

(** [mapArgs] *)
Definition mapArgs (rawArgs : string) : gmap string string + error :=
  match commandSplit rawArgs with
  | inr err => inr err
  | inl params => mapParams params ∅
  end.

End WithSplitters.

End ParserArgs.

(** ** Two splitters

    An instance of the two functions [mapArgs] relies on: the raw arguments
    are cut at spaces, a parameter at its first colon. *)
Module SampleArgs.

Fixpoint atColon (s : string) : option (string * string) :=
  match s with
  | EmptyString => None
  | String c s' =>
      if Ascii.eqb c ":"%char then Some (EmptyString, s')
      else match atColon s' with
           | Some (n, v) => Some (String c n, v)
           | None => None
           end
  end.

Definition namedParamSplit (param : string) : (string * string) + string :=
  match atColon param with
  | Some nv => inl nv
  | None => inr ("malformed param: " ++ param)
  end.

Definition commandSplit (rawArgs : string) : list string + string :=
  inl (Sample.words rawArgs).

End SampleArgs.

(** ** A working directory that holds a file

    The working directory [/tmp/flareout] with the regular file [..x] of
    three bytes, and the directory [/src] with a file of the same name. *)
Module SampleDisk.

Definition dotted : FS.Node :=
  FS.Dir [("src", FS.Dir [("..x", FS.File 2 (Sample.bytes "de"))]);
          ("tmp",
           FS.Dir [("flareout",
                    FS.Dir [("..x", FS.File 3 (Sample.bytes "abc"))])])].

End SampleDisk.

(** ** Notions used by the statements on the helpers and the executor *)
Module Notions.
Import Script.

(** Every character of [s] is in the class [p]. *)
Fixpoint allChars (p : ascii -> bool) (s : string) : bool :=
  match s with
  | EmptyString => true
  | String c s' => p c && allChars p s'
  end.

(** The raw arguments [enforceDefaults] builds the default identity from:
    [fmt.Sprintf] of the user and the group of the process. *)
Definition defaultIdentity (P : Parser.Package) : string :=
  "userid:" ++ Str.fmtInt (Parser.Getuid P) ++
  " groupid:" ++ Str.fmtInt (Parser.Getgid P).

(** A character that is not in the class [\s]. *)
Definition noSpace (c : ascii) : bool := negb (Str.reSpace c).

(** An action the executor has a case for. *)
Definition performed (c : Command) : bool :=
  match c with
  | IsCopy _ | IsCapture _ => true
  | _ => false
  end.

Definition isCapture (c : Command) : bool :=
  match c with
  | IsCapture _ => true
  | _ => false
  end.

Definition isCopy (c : Command) : bool :=
  match c with
  | IsCopy _ => true
  | _ => false
  end.

(** The subprocess [i] was started for a CAPTURE of [actions], under the
    identity [uid], [gid] converted to 32 bits and with the environment
    [env]. *)
Definition ranAs (uid gid : Z) (env : list string) (actions : list Command)
           (i : Exec.Invocation) : Prop :=
  Exec.inv_uid i = uid mod 2 ^ 32 /\ Exec.inv_gid i = gid mod 2 ^ 32 /\
  Exec.inv_env i = env /\
  exists cmd, In (IsCapture cmd) actions /\
              GetParsedCli cmd = (Exec.inv_cmd i, Exec.inv_args i).

(** The script with the actions the executor has a case for. *)
Definition performedOnly (scr : Script) : Script :=
  {| Preambles := Preambles scr;
     Actions := List.filter performed (Actions scr) |}.


(** A command of one of the four action directives. *)
Definition isActionCommand (c : Command) : bool :=
  match c with
  | IsCapture _ | IsCopy _ | IsRun _ | IsKubeGet _ => true
  | _ => false
  end.

(** The value of the last pair named [k], if there is one. *)
Definition lastValue (k : string) (pairs : list (string * string))
  : option string :=
  match last (List.filter (fun nv => (fst nv =? k)%string) pairs) with
  | Some nv => Some (snd nv)
  | None => None
  end.

(** [argMap[name] = value] for a pair of a name and a value. *)
Definition bind (m : gmap string string) (nv : string * string)
  : gmap string string := <[fst nv := snd nv]> m.

(** The number of different names among the pairs. *)
Definition distinctNames (pairs : list (string * string)) : nat :=
  length (remove_dups (map fst pairs)).

End Notions.


(** * Properties *)

(** ** Strings *)
Module StrFacts.
Import Str.

Lemma cons_app_string (x : ascii) (a b : string) :
  String x a +:+ b = String x (a +:+ b).
Proof. reflexivity. Qed.

Lemma app_assoc_string (a b c : string) : (a +:+ b) +:+ c = a +:+ (b +:+ c).
Proof.
  induction a as [|x a IH]; [reflexivity|].
  rewrite !cons_app_string, IH. reflexivity.
Qed.

Lemma app_nil_string (a : string) : a +:+ "" = a.
Proof.
  induction a as [|x a IH]; [reflexivity|].
  rewrite cons_app_string, IH. reflexivity.
Qed.

Lemma length_app (a b : string) :
  String.length (a +:+ b) = (String.length a + String.length b)%nat.
Proof.
  induction a as [|c a IH]; [reflexivity|].
  rewrite cons_app_string. cbn [String.length]. rewrite IH. reflexivity.
Qed.

Lemma by_length (P : string -> Prop) :
  (forall s, (forall t, (String.length t < String.length s)%nat -> P t) -> P s) ->
  forall s, P s.
Proof.
  intros H s. remember (String.length s) as n eqn:Hn. revert s Hn.
  induction n as [n IH] using lt_wf_ind. intros s ->.
  apply H. intros t Ht. exact (IH _ Ht t eq_refl).
Qed.

Lemma trimLeft_unfold (s : string) :
  trimLeft s = match afterSpace s with
               | Some rest => trimLeft rest
               | None => s
               end.
Proof.
  destruct s as [|c [|d [|e s3]]]; cbn [trimLeft afterSpace]; try reflexivity.
  - destruct (isSpace c); reflexivity.
  - destruct (isSpace c); [reflexivity|]. destruct (isSpace2 c d); reflexivity.
  - destruct (isSpace c); [reflexivity|]. destruct (isSpace2 c d); [reflexivity|].
    destruct (isSpace3 c d e); reflexivity.
Qed.

Lemma isSpace_whiteSpace (c : ascii) :
  isSpace c = existsb (String.eqb (String c "")) whiteSpace.
Proof. destruct c as [[] [] [] [] [] [] [] []]; reflexivity. Qed.

(** A text starts with a white-space character when it starts with one of
    the encodings. *)
Lemma afterSpace_Some (s rest : string) :
  afterSpace s = Some rest <-> exists w, In w whiteSpace /\ s = w +:+ rest.
Proof.
  split.
  - assert (forall w, existsb (String.eqb w) whiteSpace = true -> In w whiteSpace)
      as Hin.
    { intros w H. apply existsb_exists in H as (x & Hx & E).
      apply String.eqb_eq in E. subst x. exact Hx. }
    destruct s as [|c s1]; [discriminate|]. cbn [afterSpace].
    destruct (isSpace c) eqn:H1.
    { intros [= ->]. exists (String c ""). split; [|reflexivity].
      apply Hin. rewrite <- isSpace_whiteSpace. exact H1. }
    destruct s1 as [|d s2]; [discriminate|].
    destruct (isSpace2 c d) eqn:H2.
    { intros [= ->]. exists (String c (String d "")). split; [|reflexivity].
      apply Hin, H2. }
    destruct s2 as [|e s3]; [discriminate|].
    destruct (isSpace3 c d e) eqn:H3; [|discriminate].
    intros [= ->]. exists (String c (String d (String e ""))).
    split; [apply Hin, H3 | reflexivity].
  - intros (w & Hw & ->). unfold whiteSpace in Hw. cbn in Hw.
    repeat (destruct Hw as [<-|Hw]; [reflexivity|]). contradiction.
Qed.

Lemma afterSpace_length (s rest : string) :
  afterSpace s = Some rest -> (String.length rest < String.length s)%nat.
Proof.
  destruct s as [|c [|d [|e s3]]]; cbn [afterSpace String.length];
    try discriminate.
  - destruct (isSpace c); [intros [= <-]; cbn; lia | discriminate].
  - destruct (isSpace c); [intros [= <-]; cbn; lia|].
    destruct (isSpace2 c d); [intros [= <-]; cbn; lia | discriminate].
  - destruct (isSpace c); [intros [= <-]; cbn; lia|].
    destruct (isSpace2 c d); [intros [= <-]; cbn; lia|].
    destruct (isSpace3 c d e); [intros [= <-]; cbn; lia | discriminate].
Qed.

(** What [trimLeft] returns does not start with a white-space character. *)
Lemma trimLeft_trimmed (s : string) : afterSpace (trimLeft s) = None.
Proof.
  induction s as [s IH] using by_length. rewrite trimLeft_unfold.
  destruct (afterSpace s) as [rest|] eqn:H; [|exact H].
  apply IH, afterSpace_length, H.
Qed.

Lemma trimLeft_fixed (s : string) : afterSpace s = None -> trimLeft s = s.
Proof. intros H. rewrite trimLeft_unfold, H. reflexivity. Qed.

Lemma afterSpace_head (c : ascii) (t : string) :
  afterSpace (String c t) = None -> isSpace c = false.
Proof. cbn [afterSpace]. destruct (isSpace c); [discriminate | reflexivity]. Qed.

Lemma trimLeft_firstNonSpace (s : string) :
  match Spec.firstNonSpace s with
  | None => trimLeft s = ""
  | Some c => exists t, trimLeft s = String c t /\ isSpace c = false /\
                        afterSpace (String c t) = None
  end.
Proof.
  unfold Spec.firstNonSpace. pose proof (trimLeft_trimmed s) as H.
  destruct (trimLeft s) as [|c t]; [reflexivity|].
  exists t. split; [reflexivity|]. split; [exact (afterSpace_head _ _ H) | exact H].
Qed.

Lemma trimRight_keeps_head (c : ascii) (t : string) :
  afterSpace (String c t) = None ->
  trimRight (String c t) = String c (trimRight t).
Proof.
  intros H. cbn [trimRight]. unfold blank. rewrite (trimLeft_fixed _ H).
  reflexivity.
Qed.

(** A white-space character at the start is removed. *)
Lemma trimLeft_strips (w s : string) :
  In w whiteSpace -> trimLeft (w +:+ s) = trimLeft s.
Proof.
  intros Hw. rewrite trimLeft_unfold.
  rewrite (proj2 (afterSpace_Some (w +:+ s) s)); [reflexivity | eauto].
Qed.

(** What [trimLeft] removes is white space. *)
Lemma trimLeft_split (s : string) :
  exists a, s = a +:+ trimLeft s /\ Spec.Blank a.
Proof.
  induction s as [s IH] using by_length. rewrite trimLeft_unfold.
  destruct (afterSpace s) as [rest|] eqn:H.
  - pose proof (afterSpace_length _ _ H) as Hlen.
    apply afterSpace_Some in H as (w & Hw & ->).
    destruct (IH rest Hlen) as (a & Ha & HB).
    exists (w +:+ a). split; [|constructor; assumption].
    rewrite app_assoc_string, <- Ha. reflexivity.
  - exists "". split; [reflexivity | constructor].
Qed.

(** The texts the loop of [trimLeft] consumes entirely are the sequences of
    white-space characters. *)
Lemma blank_Blank (s : string) : blank s = true <-> Spec.Blank s.
Proof.
  unfold blank. rewrite String.eqb_eq. split.
  - intros H. destruct (trimLeft_split s) as (a & Ha & HB).
    rewrite H, app_nil_string in Ha. rewrite Ha. exact HB.
  - induction 1 as [|w t Hw _ IH]; [reflexivity|].
    rewrite trimLeft_strips by exact Hw. exact IH.
Qed.


(** The first byte of a white-space character continues no character, and
    its other bytes do. *)
Lemma whiteSpace_bytes (w : string) :
  In w whiteSpace ->
  match w with
  | String c t =>
      continuation c = false /\
      match t with
      | String d u =>
          continuation d = true /\
          match u with
          | String e _ => continuation e = true
          | EmptyString => True
          end
      | EmptyString => True
      end
  | EmptyString => False
  end.
Proof.
  intros Hw. unfold whiteSpace in Hw. cbn in Hw.
  repeat (destruct Hw as [<-|Hw]; [cbn; auto|]). contradiction.
Qed.

Lemma isSpace2_continuation (c d : ascii) :
  isSpace2 c d = true -> continuation d = true.
Proof.
  intros H. apply existsb_exists in H as (w & Hw & E).
  apply String.eqb_eq in E. subst w.
  exact (proj1 (proj2 (whiteSpace_bytes _ Hw))).
Qed.

Lemma isSpace3_continuation (c d e : ascii) :
  isSpace3 c d e = true -> continuation d = true /\ continuation e = true.
Proof.
  intros H. apply existsb_exists in H as (w & Hw & E).
  apply String.eqb_eq in E. subst w.
  destruct (whiteSpace_bytes _ Hw) as (_ & Hd & He). auto.
Qed.

Lemma afterSpace_first (c : ascii) (t rest : string) :
  afterSpace (String c t) = Some rest -> continuation c = false.
Proof.
  intros H. apply afterSpace_Some in H as (w & Hw & E).
  pose proof (whiteSpace_bytes _ Hw) as Hb.
  destruct w as [|x w]; [contradiction|]. injection E as -> _. tauto.
Qed.

(** A blank text that is not empty starts with the first byte of a
    white-space character. *)
Lemma blank_first (c : ascii) (t : string) :
  blank (String c t) = true -> continuation c = false.
Proof.
  unfold blank. rewrite trimLeft_unfold.
  destruct (afterSpace (String c t)) as [rest|] eqn:H;
    [intros _; exact (afterSpace_first _ _ _ H) | discriminate].
Qed.

(** White space that follows a text does not change how the text starts:
    no white-space character begins in the text and ends in what
    follows. *)
Lemma afterSpace_app (x b : string) :
  blank b = true -> x <> "" ->
  afterSpace (x +:+ b) = match afterSpace x with
                         | Some rest => Some (rest +:+ b)
                         | None => None
                         end.
Proof.
  intros Hb Hx. destruct x as [|c x1]; [contradiction|].
  change (String c x1 +:+ b) with (String c (x1 +:+ b)). cbn [afterSpace].
  destruct (isSpace c); [reflexivity|].
  destruct x1 as [|d x2].
  - change ("" +:+ b) with b. cbn beta iota.
    destruct b as [|d b2]; [reflexivity|].
    pose proof (blank_first _ _ Hb) as Hd.
    destruct (isSpace2 c d) eqn:H2;
      [apply isSpace2_continuation in H2; congruence|].
    destruct b2 as [|e b3]; [reflexivity|].
    destruct (isSpace3 c d e) eqn:H3; [|reflexivity].
    apply isSpace3_continuation in H3 as [H3 _]. congruence.
  - change (String d x2 +:+ b) with (String d (x2 +:+ b)). cbn beta iota.
    destruct (isSpace2 c d); [reflexivity|].
    destruct x2 as [|e x3].
    + change ("" +:+ b) with b. cbn beta iota.
      destruct b as [|e b3]; [reflexivity|].
      pose proof (blank_first _ _ Hb) as He.
      destruct (isSpace3 c d e) eqn:H3; [|reflexivity].
      apply isSpace3_continuation in H3 as [_ H3]. congruence.
    + change (String e x3 +:+ b) with (String e (x3 +:+ b)). cbn beta iota.
      destruct (isSpace3 c d e); reflexivity.
Qed.

Lemma blank_app (x b : string) : blank b = true -> blank (x +:+ b) = blank x.
Proof.
  intros Hb. induction x as [x IH] using by_length.
  destruct x as [|c x1]; [exact Hb|].
  unfold blank in *. rewrite (trimLeft_unfold (String c x1 +:+ b)).
  rewrite (trimLeft_unfold (String c x1)).
  rewrite afterSpace_app by (exact Hb || discriminate).
  destruct (afterSpace (String c x1)) as [rest|] eqn:H.
  - apply IH, afterSpace_length, H.
  - reflexivity.
Qed.

(** White space at the end is removed. *)
Lemma trimRight_app (a b : string) :
  blank b = true -> trimRight (a +:+ b) = trimRight a.
Proof.
  intros Hb. induction a as [|c a IH].
  - change ("" +:+ b) with b. destruct b as [|c b]; [reflexivity|].
    cbn [trimRight]. rewrite Hb. reflexivity.
  - change (String c a +:+ b) with (String c (a +:+ b)). cbn [trimRight].
    change (String c (a +:+ b)) with (String c a +:+ b).
    rewrite (blank_app _ _ Hb), IH. reflexivity.
Qed.

Lemma trimRight_strips (s w : string) :
  In w whiteSpace -> trimRight (s +:+ w) = trimRight s.
Proof.
  intros Hw. apply trimRight_app, blank_Blank.
  rewrite <- (app_nil_string w). constructor; [exact Hw | constructor].
Qed.

(** What [trimRight] removes is white space. *)
Lemma trimRight_split (s : string) :
  exists b, s = trimRight s +:+ b /\ blank b = true.
Proof.
  induction s as [|c s (b & Hs & Hb)]; [exists ""; auto|].
  cbn [trimRight]. destruct (blank (String c s)) eqn:H.
  - exists (String c s). auto.
  - exists b. split; [|exact Hb]. rewrite cons_app_string, <- Hs. reflexivity.
Qed.

(** What [trimRight] returns does not end with a white-space character. *)
Lemma trimRight_trimmed (s p w : string) :
  In w whiteSpace -> trimRight s <> p +:+ w.
Proof.
  intros Hw E. destruct (trimRight_split s) as (b & Hs & Hb).
  assert (blank (w +:+ b) = true) as Hwb.
  { unfold blank in *. rewrite trimLeft_strips by exact Hw. exact Hb. }
  assert (trimRight s = trimRight p) as E'.
  { rewrite Hs at 1. rewrite E, app_assoc_string. apply trimRight_app, Hwb. }
  destruct (trimRight_split p) as (b' & Hp & _).
  apply (f_equal String.length) in Hp. rewrite length_app in Hp.
  rewrite <- E', E, length_app in Hp.
  pose proof (whiteSpace_bytes _ Hw) as Hne.
  destruct w; [contradiction|]. cbn [String.length] in Hp. lia.
Qed.

(** [TrimSpace] removes white space at both ends, and all of it: what it
    returns neither starts nor ends with a white-space character. *)
Lemma TrimSpace_spec (s : string) :
  (exists a b, s = a +:+ TrimSpace s +:+ b /\ Spec.Blank a /\ Spec.Blank b) /\
  afterSpace (TrimSpace s) = None /\
  forall p w, In w whiteSpace -> TrimSpace s <> p +:+ w.
Proof.
  unfold TrimSpace. split; [|split].
  - destruct (trimLeft_split s) as (a & Ha & HA).
    destruct (trimRight_split (trimLeft s)) as (b & Hb & HB).
    exists a, b. rewrite <- Hb. split; [exact Ha|]. split; [exact HA|].
    apply blank_Blank, HB.
  - pose proof (trimLeft_trimmed s) as H.
    destruct (trimRight_split (trimLeft s)) as (b & Hb & _).
    destruct (afterSpace (trimRight (trimLeft s))) as [rest|] eqn:E;
      [|reflexivity].
    apply afterSpace_Some in E as (w & Hw & E). rewrite E in Hb.
    rewrite app_assoc_string in Hb.
    rewrite (proj2 (afterSpace_Some _ (rest +:+ b))) in H by eauto.
    discriminate H.
  - intros p w. apply trimRight_trimmed.
Qed.

(** The test [text == "" || text[0] == '#'] on the trimmed line says that
    the line is blank or that its first non-white-space character is [#]. *)
Lemma skipText_TrimSpace (raw : string) :
  Parser.skipText (TrimSpace raw) = Spec.skippedLine raw.
Proof.
  unfold TrimSpace, Spec.skippedLine.
  pose proof (trimLeft_firstNonSpace raw) as H.
  destruct (Spec.firstNonSpace raw) as [c|].
  - destruct H as (t & -> & _ & Ha).
    rewrite trimRight_keeps_head by exact Ha. reflexivity.
  - rewrite H. reflexivity.
Qed.

Lemma trimLeft_Blank (a s : string) :
  Spec.Blank a -> trimLeft (a +:+ s) = trimLeft s.
Proof.
  induction 1 as [|w t Hw _ IH]; [reflexivity|].
  rewrite app_assoc_string, trimLeft_strips by exact Hw. exact IH.
Qed.

(** The lines the loop of [Parse] skips: white space, in the sense of
    [unicode.IsSpace], followed by nothing or by a text that starts with
    [#]. *)
Lemma skippedLine_spec (raw : string) :
  Spec.skippedLine raw = true <->
  exists a rest,
    raw = a +:+ rest /\ Spec.Blank a /\
    (rest = "" \/ exists t, rest = String "#" t).
Proof.
  unfold Spec.skippedLine, Spec.firstNonSpace. split.
  - intros H. destruct (trimLeft_split raw) as (a & Ha & HB).
    exists a, (trimLeft raw). split; [exact Ha|]. split; [exact HB|].
    destruct (trimLeft raw) as [|c t]; [left; reflexivity|].
    apply Ascii.eqb_eq in H. subst c. right. eauto.
  - intros (a & rest & -> & HB & [->|(t & ->)]); rewrite (trimLeft_Blank _ _ HB).
    + reflexivity.
    + destruct t as [|d [|e t]]; reflexivity.
Qed.

End StrFacts.

(** ** Paths *)
Module PathFacts.
Import Str Filepath.
#[local] Open Scope list_scope.

Lemma splitOn_not_nil (sep : ascii) (s : string) : splitOn sep s <> [].
Proof.
  induction s as [|c s IH]; cbn [splitOn]; [discriminate|].
  destruct (Ascii.eqb c sep); [discriminate|].
  destruct (splitOn sep s); discriminate.
Qed.

Lemma splitOn_noSeparator (e : string) :
  Spec.noSeparator e = true -> splitOn Separator e = [e].
Proof.
  induction e as [|c e IH]; cbn [splitOn Spec.noSeparator]; [reflexivity|].
  intros H. apply andb_prop in H as [Hc He].
  destruct (Ascii.eqb c Separator); [discriminate Hc|].
  rewrite (IH He). reflexivity.
Qed.

Lemma append_cons (c : ascii) (a b : string) :
  String c a +:+ b = String c (a +:+ b).
Proof. reflexivity. Qed.

Lemma splitOn_app (sep : ascii) (a b : string) :
  splitOn sep (a +:+ String sep b) = splitOn sep a ++ splitOn sep b.
Proof.
  induction a as [|c a IH].
  - change ("" +:+ String sep b) with (String sep b). cbn [splitOn].
    rewrite Ascii.eqb_refl. reflexivity.
  - rewrite append_cons. cbn [splitOn].
    destruct (Ascii.eqb c sep); rewrite IH; [reflexivity|].
    destruct (splitOn sep a) eqn:Ha; [|reflexivity].
    exfalso. exact (splitOn_not_nil _ _ Ha).
Qed.

Lemma splitOn_all_noSeparator (s : string) :
  Forall (fun e => Spec.noSeparator e = true) (splitOn Separator s).
Proof.
  induction s as [|c s IH]; cbn [splitOn]; [repeat constructor|].
  destruct (Ascii.eqb c Separator) eqn:Hc; [constructor; [reflexivity|exact IH]|].
  destruct (splitOn Separator s) as [|h t]; [repeat constructor; cbn; rewrite Hc; reflexivity|].
  inversion_clear IH as [|? ? Hh Ht].
  constructor; [cbn; rewrite Hc, Hh; reflexivity | exact Ht].
Qed.

Lemma splitOn_concat (l : list string) :
  l <> [] ->
  Forall (fun e => Spec.noSeparator e = true) l ->
  splitOn Separator (String.concat "/" l) = l.
Proof.
  induction l as [|x l IH]; intros Hne Hall; [contradiction|].
  inversion_clear Hall as [|? ? Hx Hl].
  destruct l as [|y l].
  - apply splitOn_noSeparator, Hx.
  - change (String.concat "/" (x :: y :: l))
      with (x +:+ String Separator (String.concat "/" (y :: l))).
    rewrite splitOn_app, (splitOn_noSeparator x Hx), IH; [reflexivity|discriminate|exact Hl].
Qed.

Lemma proper_not_dots (e : string) : Spec.isProper e -> (e =? "..")%string = false.
Proof.
  unfold Spec.isProper, Spec.properElement. intros H.
  destruct (e =? "..")%string; [|reflexivity].
  rewrite !orb_true_r in H. discriminate H.
Qed.

Lemma proper_cases (e : string) :
  ((e =? "")%string || (e =? ".")%string = true) \/ e = ".." \/ Spec.isProper e.
Proof.
  unfold Spec.isProper, Spec.properElement.
  destruct (e =? "")%string; [left; reflexivity|].
  destruct (e =? ".")%string; [left; reflexivity|].
  destruct (String.eqb_spec e ".."); [right; left; assumption | right; right; reflexivity].
Qed.

(** A proper element at the end of the input ends the output. *)
Lemma cleanElems_snoc (rooted : bool) (e : string) (es : list string) :
  Spec.isProper e ->
  forall out, cleanElems rooted (es ++ [e]) out = cleanElems rooted es out ++ [e].
Proof.
  intros He. pose proof He as He'. unfold Spec.isProper, Spec.properElement in He'.
  induction es as [|x es IH]; intros out.
  - cbn [app cleanElems].
    destruct (e =? "")%string; [discriminate He'|].
    destruct (e =? ".")%string; [discriminate He'|].
    destruct (e =? "..")%string; [discriminate He'|]. reflexivity.
  - cbn [app cleanElems].
    destruct ((x =? "")%string || (x =? ".")%string); [apply IH|].
    destruct (x =? "..")%string; [|apply IH].
    destruct out as [|top out]; [destruct rooted; apply IH|].
    destruct (top =? "..")%string; apply IH.
Qed.

(** Proper elements go through the rooted pass unchanged. *)
Lemma cleanElems_proper (l : list string) :
  Forall Spec.isProper l ->
  forall out, cleanElems true l out = rev out ++ l.
Proof.
  induction 1 as [|e l He _ IH]; intros out; cbn [cleanElems].
  - rewrite app_nil_r. reflexivity.
  - pose proof He as He'. unfold Spec.isProper, Spec.properElement in He'.
    destruct (e =? "")%string; [discriminate He'|].
    destruct (e =? ".")%string; [discriminate He'|].
    destruct (e =? "..")%string; [discriminate He'|].
    cbn [orb]. rewrite IH. cbn [rev]. rewrite <- app_assoc. reflexivity.
Qed.

Lemma cleanElems_rooted_proper (es : list string) :
  forall out, Forall Spec.isProper out -> Forall Spec.isProper (cleanElems true es out).
Proof.
  induction es as [|e es IH]; intros out Hout; cbn [cleanElems].
  - apply Forall_rev, Hout.
  - destruct (proper_cases e) as [H|[->|H]].
    + rewrite H. apply IH, Hout.
    + cbn. destruct out as [|top out]; [apply IH, Hout|].
      inversion_clear Hout as [|? ? Ht Ho].
      rewrite (proper_not_dots _ Ht). apply IH, Ho.
    + pose proof H as H'. unfold Spec.isProper, Spec.properElement in H'.
      destruct (e =? "")%string; [discriminate H'|].
      destruct (e =? ".")%string; [discriminate H'|].
      destruct (e =? "..")%string; [discriminate H'|].
      cbn [orb]. apply IH. constructor; assumption.
Qed.

(** Leading [..] elements are dropped by the rooted pass. *)
Lemma cleanElems_rooted_dots (ds l : list string) :
  Forall Spec.isDots ds -> cleanElems true (ds ++ l) [] = cleanElems true l [].
Proof.
  induction 1 as [|d ds Hd _ IH]; [reflexivity|].
  unfold Spec.isDots in Hd. subst d. cbn. exact IH.
Qed.

(** The pass of a path that is not rooted gives what the rooted pass gives,
    after the [..] elements it could not resolve. *)
Lemma cleanElems_modes (es : list string) :
  forall ps ds,
    Forall Spec.isProper ps -> Forall Spec.isDots ds ->
    exists ds', Forall Spec.isDots ds' /\
                cleanElems false es (ps ++ ds) = ds' ++ cleanElems true es ps.
Proof.
  induction es as [|e es IH]; intros ps ds Hps Hds.
  - exists (rev ds). split; [apply Forall_rev, Hds|].
    cbn [cleanElems]. apply rev_app_distr.
  - cbn [cleanElems].
    destruct (proper_cases e) as [H|[->|H]].
    + rewrite H. apply IH; assumption.
    + cbn. destruct ps as [|p ps].
      * cbn [app]. destruct ds as [|d ds].
        -- apply (IH [] [".."]); repeat constructor.
        -- inversion Hds as [|? ? Hd Hds']. subst. unfold Spec.isDots in Hd. subst d.
           cbn. apply (IH [] (".." :: ".." :: ds)); [constructor|].
           constructor; [reflexivity|exact Hds].
      * inversion_clear Hps as [|? ? Hp Hps'].
        cbn [app]. rewrite (proper_not_dots _ Hp). apply IH; assumption.
    + pose proof H as H'. unfold Spec.isProper, Spec.properElement in H'.
      destruct (e =? "")%string; [discriminate H'|].
      destruct (e =? ".")%string; [discriminate H'|].
      destruct (e =? "..")%string; [discriminate H'|].
      cbn [orb]. apply (IH (e :: ps) ds); [constructor; assumption | assumption].
Qed.

Lemma cleanElems_noSeparator (rooted : bool) (es : list string) :
  forall out,
    Forall (fun e => Spec.noSeparator e = true) es ->
    Forall (fun e => Spec.noSeparator e = true) out ->
    Forall (fun e => Spec.noSeparator e = true) (cleanElems rooted es out).
Proof.
  induction es as [|e es IH]; intros out Hes Hout; cbn [cleanElems].
  - apply Forall_rev, Hout.
  - inversion_clear Hes as [|? ? He Hes'].
    destruct ((e =? "")%string || (e =? ".")%string); [apply IH; assumption|].
    destruct (e =? "..")%string.
    + destruct out as [|top out].
      * destruct rooted; apply IH; try assumption. repeat constructor. exact He.
      * inversion_clear Hout as [|? ? Ht Ho].
        destruct (top =? "..")%string; apply IH; try assumption.
        repeat (constructor; try assumption).
    + apply IH; [assumption|]. constructor; assumption.
Qed.

(** A cleaned path names the same place. *)
Lemma resolve_Clean (path : string) : FS.resolve (Clean path) = FS.resolve path.
Proof.
  unfold FS.resolve, Clean.
  pose proof (splitOn_all_noSeparator path) as Hsep.
  destruct (isRooted path) eqn:Hr.
  - set (T := cleanElems true (splitOn Separator path) []).
    assert (Forall Spec.isProper T) as HT by (apply cleanElems_rooted_proper; constructor).
    assert (Forall (fun e => Spec.noSeparator e = true) T) as HS
        by (apply cleanElems_noSeparator; [exact Hsep | constructor]).
    cbn [splitOn]. rewrite Ascii.eqb_refl. cbn [cleanElems String.eqb orb].
    destruct T as [|t T'] eqn:ET; [reflexivity|].
    rewrite splitOn_concat; [|discriminate|exact HS].
    rewrite (cleanElems_proper _ HT). reflexivity.
  - destruct (cleanElems_modes (splitOn Separator path) [] []) as (ds & Hds & E);
      [constructor | constructor |].
    cbn [app] in E. rewrite E.
    set (T := cleanElems true (splitOn Separator path) []) in *.
    assert (Forall Spec.isProper T) as HT by (apply cleanElems_rooted_proper; constructor).
    assert (Forall (fun e => Spec.noSeparator e = true) (ds ++ T)) as HS.
    { rewrite <- E. apply cleanElems_noSeparator; [exact Hsep | constructor]. }
    destruct (ds ++ T) as [|x l] eqn:EL.
    + apply app_eq_nil in EL as [_ ->]. reflexivity.
    + rewrite splitOn_concat; [|discriminate|exact HS].
      rewrite <- EL, (cleanElems_rooted_dots _ _ Hds), (cleanElems_proper _ HT).
      reflexivity.
Qed.

(** A file name joined to a directory is an entry of that directory. *)
Lemma resolve_Join (dir name : string) :
  Spec.fileName name = true ->
  FS.resolve (Join dir name) = FS.resolve dir ++ [name].
Proof.
  unfold Spec.fileName. intros H. apply andb_prop in H as [Hsep Hproper].
  unfold Join. destruct (String.eqb_spec dir "") as [->|Hdir]; cbn [negb].
  - assert ((name =? "")%string = false) as ->.
    { unfold Spec.properElement in Hproper.
      destruct (name =? "")%string; [discriminate Hproper | reflexivity]. }
    cbn [negb]. rewrite resolve_Clean. unfold FS.resolve.
    rewrite (splitOn_noSeparator _ Hsep).
    rewrite (cleanElems_proper [name]); [reflexivity|].
    repeat constructor. exact Hproper.
  - rewrite resolve_Clean. unfold FS.resolve.
    change (dir +:+ "/" +:+ name) with (dir +:+ String Separator name).
    rewrite splitOn_app, (splitOn_noSeparator _ Hsep).
    apply cleanElems_snoc. exact Hproper.
Qed.

End PathFacts.

(** ** The guard of COPY on rooted paths *)
Module GuardFacts.
Import Str Filepath.
#[local] Open Scope list_scope.

Lemma stripPrefix_Some (pre l rest : list string) :
  Spec.stripPrefix pre l = Some rest -> l = pre ++ rest.
Proof.
  revert l. induction pre as [|a pre IH]; intros l; cbn [Spec.stripPrefix].
  - intros [= <-]. reflexivity.
  - destruct l as [|b l]; [discriminate|].
    destruct (String.eqb_spec a b) as [->|_]; [|discriminate].
    intros H. rewrite (IH _ H). reflexivity.
Qed.

Lemma stripPrefix_app (pre rest : list string) :
  Spec.stripPrefix pre (pre ++ rest) = Some rest.
Proof.
  induction pre as [|a pre IH]; cbn [Spec.stripPrefix app]; [reflexivity|].
  rewrite String.eqb_refl. exact IH.
Qed.

Lemma relSkip_app (pre rest : list string) :
  relSkip pre (pre ++ rest) = ([], rest, "").
Proof.
  induction pre as [|a pre IH]; cbn [relSkip app]; [reflexivity|].
  rewrite String.eqb_refl. exact IH.
Qed.

(** When the target does not extend the base, base elements are left. *)
Lemma relSkip_None (base targ : list string) :
  Spec.stripPrefix base targ = None ->
  fst (fst (relSkip base targ)) <> [].
Proof.
  revert targ. induction base as [|b base IH]; intros targ; cbn [Spec.stripPrefix].
  - discriminate.
  - destruct targ as [|t targ]; [intros _; cbn; discriminate|].
    cbn [relSkip]. rewrite (String.eqb_sym t b).
    destruct (b =? t)%string; [apply IH | intros _; cbn; discriminate].
Qed.

Lemma relSkip_left (base targ : list string) :
  Forall Spec.isProper base ->
  snd (relSkip base targ) = "" \/ Spec.isProper (snd (relSkip base targ)).
Proof.
  intros H. revert targ. induction H as [|b base Hb _ IH]; intros targ.
  - left. reflexivity.
  - destruct targ as [|t targ]; [left; reflexivity|]. cbn [relSkip].
    destruct (t =? b)%string; [apply IH | right; exact Hb].
Qed.

Lemma elements_proper (path : string) :
  isRooted path = true -> Forall Spec.isProper (Spec.elements path).
Proof.
  intros H. unfold Spec.elements. rewrite H.
  apply PathFacts.cleanElems_rooted_proper. constructor.
Qed.

Lemma elements_noSeparator (path : string) :
  Forall (fun e => Spec.noSeparator e = true) (Spec.elements path).
Proof.
  apply PathFacts.cleanElems_noSeparator;
    [apply PathFacts.splitOn_all_noSeparator | constructor].
Qed.

Lemma Clean_rooted (path : string) :
  isRooted path = true ->
  Clean path = String Separator (String.concat "/" (Spec.elements path)).
Proof. intros H. unfold Clean, Spec.elements. rewrite H. reflexivity. Qed.

Lemma proper_not_empty (e : string) : Spec.isProper e -> e <> "".
Proof. intros H ->. discriminate H. Qed.

Lemma concat_not_empty (e : string) (l : list string) :
  e <> "" -> String.concat "/" (e :: l) <> "".
Proof.
  intros He. destruct l as [|y l]; [exact He|].
  change (String.concat "/" (e :: y :: l))
    with (e +:+ String Separator (String.concat "/" (y :: l))).
  destruct e as [|c e]; [contradiction|]. discriminate.
Qed.

(** The elements [Rel] steps through in a cleaned rooted path. *)
Lemma relElems_Clean (path : string) :
  isRooted path = true ->
  relElems (Clean path) = "" :: Spec.elements path.
Proof.
  intros H. rewrite (Clean_rooted _ H).
  pose proof (elements_proper _ H) as HP.
  pose proof (elements_noSeparator path) as HS.
  destruct (Spec.elements path) as [|e l] eqn:E; [reflexivity|].
  unfold relElems.
  assert (String.concat "/" (e :: l) <> "") as Hne.
  { apply concat_not_empty, proper_not_empty. inversion HP; assumption. }
  assert ((String Separator (String.concat "/" (e :: l)) =? "/")%string = false)
    as Hroot.
  { apply String.eqb_neq. intros [= F]. contradiction. }
  rewrite Hroot.
  change ((String Separator (String.concat "/" (e :: l)) =? "")%string) with false.
  cbn [splitOn]. rewrite Ascii.eqb_refl.
  rewrite PathFacts.splitOn_concat; [reflexivity | discriminate | exact HS].
Qed.

Lemma prefix_empty (s : string) : String.prefix "" s = true.
Proof. destruct s; reflexivity. Qed.

(** Appending to a name does not change whether it starts with two dots,
    when what is appended starts with a separator and the name is proper. *)
Lemma prefix_dots_concat (e : string) (l : list string) :
  Spec.isProper e ->
  String.prefix ".." (String.concat "/" (e :: l)) = String.prefix ".." e.
Proof.
  intros He. destruct l as [|y l]; [reflexivity|].
  change (String.concat "/" (e :: y :: l))
    with (e +:+ String Separator (String.concat "/" (y :: l))).
  destruct e as [|c1 [|c2 e]]; [discriminate He| |].
  - change (String c1 "" +:+ String Separator (String.concat "/" (y :: l)))
      with (String c1 (String Separator (String.concat "/" (y :: l)))).
    cbn [String.prefix]. destruct (ascii_dec "." c1); reflexivity.
  - change (String c1 (String c2 e) +:+ String Separator (String.concat "/" (y :: l)))
      with (String c1 (String c2 (e +:+ String Separator (String.concat "/" (y :: l))))).
    cbn [String.prefix].
    destruct (ascii_dec "." c1); [|reflexivity].
    destruct (ascii_dec "." c2); [|reflexivity].
    rewrite !prefix_empty. reflexivity.
Qed.

(** What the guard of COPY decides for rooted paths: a path is rejected
    when it is the working directory, or when it lies below it and the
    first element below does not start with two dots; it is walked
    otherwise. *)
Lemma guard_on_rooted_paths (workdir path : string) :
  isRooted workdir = true ->
  isRooted path = true ->
  Exec.relativeToWorkdir workdir path =
  match Spec.stripPrefix (Spec.elements workdir) (Spec.elements path) with
  | Some [] => true
  | Some (e :: _) => negb (HasPrefix e "..")
  | None => false
  end.
Proof.
  intros Hw Hp. unfold Exec.relativeToWorkdir, Rel. cbv zeta.
  pose proof (relElems_Clean _ Hw) as EW. pose proof (relElems_Clean _ Hp) as EP.
  assert ((Clean workdir =? ".")%string = false) as Hdot
      by (rewrite (Clean_rooted _ Hw); reflexivity).
  assert (isRooted (Clean workdir) = true) as HrW
      by (rewrite (Clean_rooted _ Hw); reflexivity).
  assert (isRooted (Clean path) = true) as HrP
      by (rewrite (Clean_rooted _ Hp); reflexivity).
  destruct (String.eqb_spec (Clean path) (Clean workdir)) as [Heq|Hne].
  - rewrite Heq in EP. rewrite EW in EP. injection EP as EP. rewrite <- EP.
    rewrite <- (app_nil_r (Spec.elements workdir)) at 2.
    rewrite stripPrefix_app. reflexivity.
  - rewrite Hdot, HrW, HrP. cbn [Bool.eqb negb].
    rewrite EW, EP. cbn [relSkip]. rewrite String.eqb_refl.
    destruct (Spec.stripPrefix (Spec.elements workdir) (Spec.elements path))
      as [rest|] eqn:ES.
    + apply stripPrefix_Some in ES. rewrite ES, relSkip_app.
      cbn [String.eqb].
      destruct rest as [|e rest].
      * exfalso. apply Hne. rewrite app_nil_r in ES.
        rewrite (Clean_rooted _ Hw), (Clean_rooted _ Hp), ES. reflexivity.
      * unfold HasPrefix. rewrite prefix_dots_concat; [reflexivity|].
        pose proof (elements_proper _ Hp) as HP. rewrite ES in HP.
        apply Forall_app in HP as [_ HP]. inversion HP; assumption.
    + pose proof (relSkip_None _ _ ES) as Hb.
      pose proof (relSkip_left _ (Spec.elements path) (elements_proper _ Hw)) as Hc.
      destruct (relSkip (Spec.elements workdir) (Spec.elements path))
        as [[brest trest] bcur].
      cbn [fst snd] in Hb, Hc.
      destruct (bcur =? "..")%string; [reflexivity|].
      destruct brest as [|b brest]; [contradiction|].
      cbn [map app]. unfold HasPrefix.
      destruct (map (fun _ : string => "..") brest ++ trest) as [|y l];
        reflexivity.
Qed.

(** On rooted paths the guard rejects exactly the paths that are the
    working directory or lie inside it, except those whose first element
    below it starts with two dots. *)
Lemma guard_and_inside (workdir path : string) :
  isRooted workdir = true ->
  isRooted path = true ->
  Exec.relativeToWorkdir workdir path =
  Spec.inside workdir path && negb (Spec.dottedBelow workdir path).
Proof.
  intros Hw Hp. rewrite (guard_on_rooted_paths _ _ Hw Hp).
  unfold Spec.inside, Spec.dottedBelow. rewrite Hw, Hp. cbn [Bool.eqb andb].
  destruct (Spec.stripPrefix (Spec.elements workdir) (Spec.elements path))
    as [[|e rest]|] eqn:ES; try reflexivity.
  apply stripPrefix_Some in ES.
  pose proof (elements_proper _ Hp) as HP. rewrite ES in HP.
  apply Forall_app in HP as [_ HP]. inversion_clear HP as [|? ? He _].
  rewrite (PathFacts.proper_not_dots _ He). reflexivity.
Qed.

End GuardFacts.

(** ** The parser *)
Module ParserFacts.
Import Script Parser.
#[local] Open Scope list_scope.

Section WithPackage.
Variable P : Package.

(** The loop body of [Parse], by cases: a skipped line, an unsupported
    directive, a constructor that fails, and a command that is placed. *)
Lemma parseLine_cases (scr : Script) (line : Z) (raw : string) :
  parseLine P scr line raw =
  if Spec.skippedLine raw then Skipped
  else if negb (supported P (Spec.directiveOf raw))
       then Failed ("line " +:+ Str.fmtInt line +:+ ": " +:+
                    Spec.directiveOf raw +:+ " unsupported")
       else match Spec.constructorOf (Spec.directiveOf raw)
                                     (Spec.constructors P) with
            | Some mk =>
                match mk line (Spec.argumentsOf raw) with
                | inl c => Parsed (Spec.place (Spec.directiveOf raw) c scr)
                | inr err => Failed err
                end
            | None => Failed (Spec.directiveOf raw +:+ " not supported")
            end.
Proof.
  unfold parseLine. rewrite StrFacts.skipText_TrimSpace.
  destruct (Spec.skippedLine raw); [reflexivity|].
  unfold Spec.directiveOf, Spec.argumentsOf.
  destruct (Str.splitFirstSpace (Str.TrimSpace raw)) as [cmdName tail].
  cbn [fst snd].
  destruct (supported P cmdName); cbn [negb]; [|reflexivity].
  unfold Spec.constructors, Spec.constructorOf, Spec.lift.
  repeat match goal with
         | |- context [(cmdName =? ?k)%string] =>
             destruct (String.eqb_spec cmdName k) as [->|_];
             [ match goal with
               | |- context [match ?mk line ?a with _ => _ end] =>
                   destruct (mk line a); reflexivity
               end | ]
         end.
  reflexivity.
Qed.


Lemma constructorOf_known (d : string) mk :
  Spec.constructorOf d (Spec.constructors P) = Some mk -> Spec.known d = true.
Proof.
  unfold Spec.constructors, Spec.constructorOf.
  repeat match goal with
         | |- context [(d =? ?k)%string] =>
             destruct (String.eqb_spec d k) as [->|_]; [reflexivity|]
         end.
  discriminate.
Qed.

(** The last branch of the switch of [Parse], whose error has no line
    number, is not taken when the table marks as supported only the
    directives the switch has a case for. *)
Lemma switch_covers_table (d : string) :
  (forall k, supported P k = true -> Spec.known k = true) ->
  supported P d = true ->
  Spec.constructorOf d (Spec.constructors P) <> None.
Proof.
  intros Htable Hd. specialize (Htable d Hd). revert Htable.
  unfold Spec.known, Spec.isSingleValued, Spec.isAction, singleValued,
    actionNames, Spec.constructors, Spec.constructorOf.
  cbn [existsb].
  repeat match goal with
         | |- context [(d =? ?k)%string] =>
             destruct (String.eqb_spec d k) as [->|_]; [discriminate|]
         end.
  discriminate.
Qed.

Lemma lineCommand_known (line : Z) (raw d : string) (c : Command) :
  Spec.lineCommand P line raw = Some (d, c) -> Spec.known d = true.
Proof.
  unfold Spec.lineCommand.
  destruct (Spec.skippedLine raw); [discriminate|].
  destruct (negb _); [discriminate|].
  destruct (Spec.constructorOf _ _) as [mk|] eqn:Hmk; [|discriminate].
  destruct (mk line _); [|discriminate].
  intros [= <- _]. exact (constructorOf_known _ _ Hmk).
Qed.

Lemma constructorOf_typed (d : string) mk (line : Z) (rawArgs : string)
      (c : Command) :
  Spec.constructorOf d (Spec.constructors P) = Some mk ->
  mk line rawArgs = inl c ->
  Spec.wellTyped d c = true.
Proof.
  unfold Spec.constructors, Spec.constructorOf, Spec.lift.
  repeat match goal with
         | |- context [(d =? ?k)%string] =>
             destruct (String.eqb_spec d k) as [->|_];
             [ intros [= <-];
               match goal with
               | |- context [match ?f line rawArgs with _ => _ end] =>
                   destruct (f line rawArgs); [|discriminate]
               end;
               intros [= <-]; reflexivity | ]
         end.
  discriminate.
Qed.

Lemma lineCommand_typed (line : Z) (raw d : string) (c : Command) :
  Spec.lineCommand P line raw = Some (d, c) -> Spec.wellTyped d c = true.
Proof.
  unfold Spec.lineCommand.
  destruct (Spec.skippedLine raw); [discriminate|].
  destruct (negb _); [discriminate|].
  destruct (Spec.constructorOf _ _) as [mk|] eqn:Hmk; [|discriminate].
  destruct (mk line _) as [c'|] eqn:Hc; [|discriminate].
  intros [= <- <-]. exact (constructorOf_typed _ _ _ _ _ Hmk Hc).
Qed.

Lemma commandsFrom_typed (lines : list string) :
  forall line,
    Forall (fun dc => Spec.wellTyped (fst dc) (snd dc) = true)
           (Spec.commandsFrom P line lines).
Proof.
  induction lines as [|raw rest IH]; intros line; simpl; [constructor|].
  destruct (Spec.lineCommand P line raw) as [[d c]|] eqn:Hl; [|apply IH].
  constructor; [exact (lineCommand_typed _ _ _ _ Hl) | apply IH].
Qed.

Lemma commandsFrom_known (lines : list string) :
  forall line,
    Forall (fun dc => Spec.known (fst dc) = true)
           (Spec.commandsFrom P line lines).
Proof.
  induction lines as [|raw rest IH]; intros line; simpl; [constructor|].
  destruct (Spec.lineCommand P line raw) as [[d c]|] eqn:Hl; [|apply IH].
  constructor; [exact (lineCommand_known _ _ _ _ Hl) | apply IH].
Qed.

(** A run of the loop that meets no error places the commands of the
    lines one after the other. *)
Lemma parseLines_placeAll (lines : list string) :
  forall scr0 line scr,
    parseLines P lines scr0 line = inl scr ->
    scr = Spec.placeAll (Spec.commandsFrom P line lines) scr0.
Proof.
  induction lines as [|raw rest IH]; intros scr0 line scr; simpl.
  - intros [= <-]. reflexivity.
  - rewrite parseLine_cases. unfold Spec.lineCommand.
    destruct (Spec.skippedLine raw); [apply IH|].
    destruct (negb _); [discriminate|].
    destruct (Spec.constructorOf _ _) as [mk|]; [|discriminate].
    destruct (mk line _) as [c|err]; [|discriminate].
    intros H. apply IH in H. exact H.
Qed.


End WithPackage.

Lemma single_not_action (d : string) :
  Spec.isSingleValued d = true -> Spec.isAction d = false.
Proof.
  unfold Spec.isSingleValued, singleValued. cbn [existsb].
  repeat match goal with
         | |- context [(d =? ?k)%string] =>
             destruct (String.eqb_spec d k) as [->|_]; [reflexivity|]
         end.
  discriminate.
Qed.

Lemma valuesOf_snoc (d d' : string) (c : Command) cmds :
  Spec.valuesOf d' (cmds ++ [(d, c)]) =
  Spec.valuesOf d' cmds ++ (if (d =? d')%string then [c] else []).
Proof.
  unfold Spec.valuesOf. rewrite List.filter_app, map_app.
  cbn [List.filter fst]. destruct (d =? d')%string; reflexivity.
Qed.

Lemma valuesOf_typed (d : string) cmds :
  Forall (fun dc => Spec.wellTyped (fst dc) (snd dc) = true) cmds ->
  Forall (fun c => Spec.wellTyped d c = true) (Spec.valuesOf d cmds).
Proof.
  unfold Spec.valuesOf. induction 1 as [|[d' c] cmds Hc _ IH]; [constructor|].
  cbn [List.filter fst]. destruct (String.eqb_spec d' d) as [->|_]; [|exact IH].
  constructor; [exact Hc | exact IH].
Qed.

Lemma actionsOf_snoc (d : string) (c : Command) cmds :
  Spec.actionsOf (cmds ++ [(d, c)]) =
  Spec.actionsOf cmds ++ (if Spec.isAction d then [c] else []).
Proof.
  unfold Spec.actionsOf. rewrite List.filter_app, map_app.
  cbn [List.filter fst]. destruct (Spec.isAction d); reflexivity.
Qed.

Lemma preamble_setPreamble (k k' : string) v scr :
  preamble k' (setPreamble k v scr) = if decide (k = k') then v else preamble k' scr.
Proof.
  unfold preamble, setPreamble. cbn. rewrite lookup_insert.
  destruct (decide (k = k')); reflexivity.
Qed.

Lemma completes_one (d : string) (c : Command) (scr : Script) :
  Preambles scr !! d = None ->
  Spec.wellTyped d c = true ->
  Spec.completes [d] scr (setPreamble d [c] scr).
Proof.
  intros Hnone Ht. split; [reflexivity|]. split.
  - intros k Hk. cbn. rewrite lookup_insert_ne; [reflexivity|].
    intros ->. apply Hk. left. reflexivity.
  - intros d' [<-|[]]. rewrite Hnone. exists c.
    split; [cbn; apply lookup_insert_eq | exact Ht].
Qed.

Lemma completes_same (d : string) (scr : Script) :
  is_Some (Preambles scr !! d) -> Spec.completes [d] scr scr.
Proof.
  intros [v Hv]. split; [reflexivity|]. split; [reflexivity|].
  intros d' [<-|[]]. rewrite Hv. reflexivity.
Qed.

Lemma completes_step (ds : list string) (d : string) (scr s1 s2 : Script) :
  ~ In d ds ->
  Spec.completes ds scr s1 -> Spec.completes [d] s1 s2 ->
  Spec.completes (d :: ds) scr s2.
Proof.
  intros Hd (HA1 & HK1 & HD1) (HA2 & HK2 & HD2).
  split; [congruence|]. split.
  - intros k Hk. rewrite HK2, HK1; [reflexivity| |]; intros Hin; apply Hk.
    + right. exact Hin.
    + destruct Hin as [<-|[]]. left. reflexivity.
  - intros d' [<-|Hin].
    + specialize (HD2 d (or_introl eq_refl)). rewrite (HK1 d Hd) in HD2. exact HD2.
    + assert (d' <> d) as Hne by (intros ->; contradiction).
      specialize (HD1 d' Hin).
      rewrite (HK2 d') by (intros [E|[]]; congruence). exact HD1.
Qed.

Lemma completes_nil (scr : Script) : Spec.completes [] scr scr.
Proof. split; [reflexivity|]. split; [reflexivity|]. intros d []. Qed.

Lemma completes_perm (ds ds' : list string) (scr scr' : Script) :
  (forall k, In k ds <-> In k ds') ->
  Spec.completes ds scr scr' -> Spec.completes ds' scr scr'.
Proof.
  intros Hiff (HA & HK & HD). split; [exact HA|]. split.
  - intros k Hk. apply HK. rewrite Hiff. exact Hk.
  - intros d Hd. apply HD. rewrite Hiff. exact Hd.
Qed.

Section Defaults.
Variable P : Package.

Ltac default_step :=
  intros scr scr' H;
  match type of H with
  | ?f P scr = _ => unfold f in H
  end;
  match type of H with
  | context [Preambles scr !! ?d] =>
      destruct (Preambles scr !! d) eqn:Hd;
      [ injection H as <-; apply completes_same; rewrite Hd; eauto
      | match type of H with
        | context [match ?mk with _ => _ end] =>
            destruct mk; [injection H as <-; apply completes_one; [exact Hd | reflexivity]
                         | discriminate H]
        end ]
  end.

Lemma defaultAs_completes :
  forall scr scr', defaultAs P scr = inl scr' -> Spec.completes [CmdAs] scr scr'.
Proof. default_step. Qed.

Lemma defaultFrom_completes :
  forall scr scr', defaultFrom P scr = inl scr' -> Spec.completes [CmdFrom] scr scr'.
Proof. default_step. Qed.

Lemma defaultAuthConfig_completes :
  forall scr scr',
    defaultAuthConfig P scr = inl scr' -> Spec.completes [CmdAuthConfig] scr scr'.
Proof. default_step. Qed.

Lemma defaultWorkDir_completes :
  forall scr scr',
    defaultWorkDir P scr = inl scr' -> Spec.completes [CmdWorkDir] scr scr'.
Proof. default_step. Qed.

Lemma defaultOutput_completes :
  forall scr scr',
    defaultOutput P scr = inl scr' -> Spec.completes [CmdOutput] scr scr'.
Proof. default_step. Qed.

Lemma defaultKubeConfig_completes :
  forall scr scr',
    defaultKubeConfig P scr = inl scr' -> Spec.completes [CmdKubeConfig] scr scr'.
Proof. default_step. Qed.

(** When [enforceDefaults] returns no error it returns a script, and that
    script is the one received with a default added for every
    single-valued directive that was absent. *)
Lemma enforceDefaults_completes (scr : Script) :
  snd (enforceDefaults P scr) = None ->
  exists scr', enforceDefaults P scr = (Some scr', None) /\
               Spec.completes singleValued scr scr'.
Proof.
  unfold enforceDefaults, andThen.
  destruct (defaultAs P scr) as [s1|[? ?]] eqn:H1; [|discriminate].
  destruct (defaultFrom P s1) as [s2|[? ?]] eqn:H2; [|discriminate].
  destruct (defaultAuthConfig P s2) as [s3|[? ?]] eqn:H3; [|discriminate].
  destruct (defaultWorkDir P s3) as [s4|[? ?]] eqn:H4; [|discriminate].
  destruct (defaultOutput P s4) as [s5|[? ?]] eqn:H5; [|discriminate].
  destruct (defaultKubeConfig P s5) as [s6|[? ?]] eqn:H6; [|discriminate].
  intros _. exists s6. split; [reflexivity|].
  apply defaultAs_completes in H1. apply defaultFrom_completes in H2.
  apply defaultAuthConfig_completes in H3. apply defaultWorkDir_completes in H4.
  apply defaultOutput_completes in H5. apply defaultKubeConfig_completes in H6.
  pose proof (completes_step [] _ _ _ _ (fun F => F) (completes_nil scr) H1) as C1.
  assert (forall d ds, forallb (fun k => negb (k =? d)%string) ds = true ->
                       ~ In d ds) as Hnotin.
  { intros d ds Hall Hin. rewrite forallb_forall in Hall.
    specialize (Hall d Hin). rewrite String.eqb_refl in Hall. discriminate. }
  assert (Spec.completes [CmdFrom; CmdAs] scr s2) as C2
    by (eapply completes_step; [apply Hnotin; reflexivity | exact C1 | exact H2]).
  assert (Spec.completes [CmdAuthConfig; CmdFrom; CmdAs] scr s3) as C3
    by (eapply completes_step; [apply Hnotin; reflexivity | exact C2 | exact H3]).
  assert (Spec.completes [CmdWorkDir; CmdAuthConfig; CmdFrom; CmdAs] scr s4) as C4
    by (eapply completes_step; [apply Hnotin; reflexivity | exact C3 | exact H4]).
  assert (Spec.completes [CmdOutput; CmdWorkDir; CmdAuthConfig; CmdFrom; CmdAs]
                         scr s5) as C5
    by (eapply completes_step; [apply Hnotin; reflexivity | exact C4 | exact H5]).
  assert (Spec.completes [CmdKubeConfig; CmdOutput; CmdWorkDir; CmdAuthConfig;
                          CmdFrom; CmdAs] scr s6) as C6
    by (eapply completes_step; [apply Hnotin; reflexivity | exact C5 | exact H6]).
  eapply completes_perm; [|exact C6].
  intros k. unfold singleValued. cbn [In]. tauto.
Qed.

End Defaults.

(** What the script holds once a list of commands is placed: the actions in
    order, every ENV command in order, and for a single-valued directive
    the command of its last occurrence alone. *)
Lemma placeAll_spec cmds :
  Forall (fun dc => Spec.known (fst dc) = true) cmds ->
  forall scr0,
    Actions (Spec.placeAll cmds scr0) = Actions scr0 ++ Spec.actionsOf cmds /\
    preamble CmdEnv (Spec.placeAll cmds scr0) =
      preamble CmdEnv scr0 ++ Spec.valuesOf CmdEnv cmds /\
    forall d, Spec.isSingleValued d = true ->
      Preambles (Spec.placeAll cmds scr0) !! d =
      match last (Spec.valuesOf d cmds) with
      | Some c => Some [c]
      | None => Preambles scr0 !! d
      end.
Proof.
  induction cmds as [|[d c] cmds IH] using rev_ind; intros Hk scr0.
  - cbn. rewrite !app_nil_r. auto.
  - apply Forall_app in Hk as [Hk Hd]. inversion_clear Hd as [|? ? Hd' _].
    cbn [fst] in Hd'.
    destruct (IH Hk scr0) as (HA & HE & HS). clear IH.
    unfold Spec.placeAll in *. rewrite foldl_app. cbn [foldl fst snd].
    set (s := foldl _ scr0 cmds) in *.
    rewrite actionsOf_snoc, valuesOf_snoc.
    unfold Spec.place.
    destruct (Spec.isSingleValued d) eqn:Hsv.
    + rewrite (single_not_action _ Hsv), app_nil_r.
      destruct (String.eqb_spec d CmdEnv) as [->|Hne]; [discriminate Hsv|].
      rewrite app_nil_r, preamble_setPreamble.
      destruct (decide (d = CmdEnv)); [contradiction|].
      split; [exact HA | split; [exact HE|]].
      intros d' Hd'sv. rewrite valuesOf_snoc. cbn [setPreamble Preambles].
      rewrite lookup_insert.
      destruct (String.eqb_spec d d') as [->|Hdd].
      * rewrite last_snoc. destruct (decide (d' = d')); [reflexivity|contradiction].
      * rewrite app_nil_r. destruct (decide (d = d')); [contradiction|].
        apply HS, Hd'sv.
    + destruct (String.eqb_spec d CmdEnv) as [->|Hne].
      * change (Spec.isAction CmdEnv) with false.
        rewrite preamble_setPreamble.
        destruct (decide (CmdEnv = CmdEnv)); [|contradiction].
        rewrite HE, app_nil_r, <- app_assoc.
        split; [exact HA | split; [reflexivity|]].
        intros d' Hd'sv. rewrite valuesOf_snoc. cbn [setPreamble Preambles].
        rewrite lookup_insert.
        destruct (String.eqb_spec CmdEnv d') as [<-|Hdd]; [discriminate Hd'sv|].
        destruct (decide (CmdEnv = d')); [contradiction|].
        rewrite app_nil_r. apply HS, Hd'sv.
      * assert (Spec.isAction d = true) as ->.
        { unfold Spec.known in Hd'. rewrite Hsv in Hd'.
          destruct (String.eqb_spec d CmdEnv); [contradiction|]. exact Hd'. }
        cbn [addAction Actions Preambles]. rewrite HA, <- app_assoc, app_nil_r.
        split; [reflexivity | split; [exact HE|]].
        intros d' Hd'sv. rewrite valuesOf_snoc.
        destruct (String.eqb_spec d d') as [->|Hdd]; [congruence|].
        rewrite app_nil_r. apply HS, Hd'sv.
Qed.


Lemma In_singleValued (d : string) :
  In d singleValued -> Spec.isSingleValued d = true.
Proof.
  intros H. unfold Spec.isSingleValued. apply existsb_exists.
  exists d. split; [exact H | apply String.eqb_refl].
Qed.

Section Claims.
Variable P : Package.

(** The script the scanning loop leaves, when it meets no error. *)
Lemma parseLines_spec (lines : list string) (scr0 : Script) :
  parseLines P lines emptyScript 1 = inl scr0 ->
  Actions scr0 = Spec.actionsOf (Spec.commandsFrom P 1 lines) /\
  preamble CmdEnv scr0 = Spec.valuesOf CmdEnv (Spec.commandsFrom P 1 lines) /\
  forall d, In d singleValued ->
    Preambles scr0 !! d =
    match last (Spec.valuesOf d (Spec.commandsFrom P 1 lines)) with
    | Some c => Some [c]
    | None => None
    end.
Proof.
  intros H. apply parseLines_placeAll in H. subst scr0.
  destruct (placeAll_spec _ (commandsFrom_known P lines 1) emptyScript)
    as (HA & HE & HS).
  split; [exact HA|]. split; [exact HE|].
  intros d Hd. rewrite (HS d (In_singleValued d Hd)).
  destruct (last _); reflexivity.
Qed.

(** The script [Parse] returns holds exactly one command, of the type of
    the directive, for each single-valued directive, and ENV commands only
    under ENV. *)
Lemma Parse_wellTyped (lines : list string) :
  snd (Parse P lines) = None ->
  exists scr,
    Parse P lines = (Some scr, None) /\
    (forall d, In d singleValued ->
       exists c, Preambles scr !! d = Some [c] /\ Spec.wellTyped d c = true) /\
    Forall (fun c => Spec.wellTyped CmdEnv c = true) (preamble CmdEnv scr).
Proof.
  unfold Parse.
  destruct (parseLines P lines emptyScript 1) as [scr0|err] eqn:HL;
    [|discriminate].
  intros H.
  destruct (enforceDefaults_completes P scr0 H) as (scr & E & _ & HK & HD).
  exists scr. split; [exact E|].
  destruct (parseLines_spec _ _ HL) as (_ & HE & HS).
  pose proof (commandsFrom_typed P lines 1) as Ht.
  split.
  - intros d Hd. specialize (HD d Hd). rewrite (HS d Hd) in HD.
    destruct (last _) as [c|] eqn:Hlast; [|exact HD].
    exists c. split; [exact HD|].
    apply last_Some in Hlast as [l' Hl'].
    pose proof (valuesOf_typed d _ Ht) as Hv. rewrite Hl' in Hv.
    apply Forall_app in Hv as [_ Hv]. inversion Hv; assumption.
  - unfold preamble in *. rewrite HK.
    + rewrite HE. apply valuesOf_typed, Ht.
    + unfold singleValued. cbn [In].
      intros [F|[F|[F|[F|[F|[F|[]]]]]]]; discriminate F.
Qed.

(** C2. After default resolution the Preambles mapping has an entry for
    each of the six configuration directives AS, FROM, AUTHCONFIG,
    OUTPUT, WORKDIR and KUBECONFIG: whenever [enforceDefaults] returns no
    error it returns a script in which each of them is bound, a directive
    that was absent being bound to exactly one command and a directive
    that was present keeping what it had; in the script [Parse] returns
    each of the six is bound to exactly one command, of the type of the
    directive. *)
Theorem defaults_fill_every_directive :
  (forall scr,
     snd (enforceDefaults P scr) = None ->
     exists scr',
       enforceDefaults P scr = (Some scr', None) /\
       forall d, In d singleValued ->
         exists cmds,
           Preambles scr' !! d = Some cmds /\
           (Preambles scr !! d = None -> exists c, cmds = [c]) /\
           (forall v, Preambles scr !! d = Some v -> cmds = v)) /\
  (forall lines,
     snd (Parse P lines) = None ->
     exists scr',
       Parse P lines = (Some scr', None) /\
       forall d, In d singleValued ->
         exists c, Preambles scr' !! d = Some [c] /\
                   Spec.wellTyped d c = true).
Proof.
  split.
  - intros scr H.
    destruct (enforceDefaults_completes P scr H) as (scr' & E & _ & _ & HD).
    exists scr'. split; [exact E|]. intros d Hd. specialize (HD d Hd).
    destruct (Preambles scr !! d) as [v|].
    + exists v. split; [exact HD|]. split; [discriminate|]. congruence.
    + destruct HD as (c & Hc & _). exists [c]. split; [exact Hc|].
      split; [eauto | discriminate].
  - intros lines H.
    destruct (Parse_wellTyped lines H) as (scr' & E & HS & _).
    exists scr'. split; [exact E | exact HS].
Qed.



End Claims.

Lemma defaults_fill_every_directive_witness :
  snd (enforceDefaults Sample.package emptyScript) = None /\
  snd (Parse Sample.package ["CAPTURE /bin/echo 'HELLO WORLD'"]) = None /\
  (exists scr',
      enforceDefaults Sample.package emptyScript = (Some scr', None) /\
      forall d, In d singleValued ->
        exists cmds,
          Preambles scr' !! d = Some cmds /\
          (Preambles emptyScript !! d = None -> exists c, cmds = [c]) /\
          (forall v, Preambles emptyScript !! d = Some v -> cmds = v)) /\
  (exists scr',
      Parse Sample.package ["CAPTURE /bin/echo 'HELLO WORLD'"] = (Some scr', None) /\
      forall d, In d singleValued ->
      exists c, Preambles scr' !! d = Some [c] /\ Spec.wellTyped d c = true).
Proof.
  split; [reflexivity|]. split; [reflexivity|]. split.
  - apply (proj1 (defaults_fill_every_directive Sample.package)). reflexivity.
  - apply (proj2 (defaults_fill_every_directive Sample.package)). reflexivity.
Defined.




End ParserFacts.

(** ** The file system *)
Module FSFacts.
Import FS.
#[local] Open Scope list_scope.

Lemma compare_refl (s : string) : String.compare s s = Eq.
Proof.
  pose proof (String.compare_antisym s s) as H.
  destruct (String.compare s s); [reflexivity | discriminate H | discriminate H].
Qed.

(** An entry that is put is found, and no other binding changes. *)
Lemma find_put (k name : string) (c : Node) (es : list (string * Node)) :
  find k (put name c es) = if (name =? k)%string then Some c else find k es.
Proof.
  induction es as [|[n x] es IH]; cbn [put find].
  - destruct (name =? k)%string; reflexivity.
  - destruct (String.compare name n) eqn:Hcmp; cbn [find].
    + apply String.compare_eq_iff in Hcmp. subst n.
      destruct (name =? k)%string; reflexivity.
    + destruct (name =? k)%string; reflexivity.
    + rewrite IH.
      destruct (String.eqb_spec n k) as [->|Hnk]; [|reflexivity].
      destruct (String.eqb_spec name k) as [->|_]; [|reflexivity].
      rewrite compare_refl in Hcmp. discriminate.
Qed.

Lemma put_put (name : string) (c1 c2 : Node) (es : list (string * Node)) :
  put name c2 (put name c1 es) = put name c2 es.
Proof.
  induction es as [|[n x] es IH]; cbn [put].
  - rewrite compare_refl. reflexivity.
  - destruct (String.compare name n) eqn:Hcmp; cbn [put].
    + rewrite compare_refl. reflexivity.
    + rewrite compare_refl. reflexivity.
    + rewrite Hcmp, IH. reflexivity.
Qed.

Lemma store_last (e : string) (data : list byte) (es : list (string * Node)) :
  store [e] data (Dir es) =
  match find e es with
  | Some (Dir _) | Some Other => None
  | _ => Some (Dir (put e (File (Z.of_nat (length data)) data) es))
  end.
Proof. reflexivity. Qed.

Lemma store_inner (e e' : string) (p : list string) (data : list byte)
      (es : list (string * Node)) :
  store (e :: e' :: p) data (Dir es) =
  match find e es with
  | Some c => match store (e' :: p) data c with
              | Some c' => Some (Dir (put e c' es))
              | None => None
              end
  | None => None
  end.
Proof. reflexivity. Qed.

(** The ways a store succeeds: in the directory itself, over nothing or
    over a regular file, or further down in an entry. *)
Lemma store_Some (e : string) (p : list string) (data : list byte) (n n' : Node) :
  store (e :: p) data n = Some n' ->
  exists es, n = Dir es /\
    ((p = [] /\
      n' = Dir (put e (File (Z.of_nat (length data)) data) es) /\
      (forall m, find e es = Some m -> exists s d, m = File s d)) \/
     (exists e' p' c c',
         p = e' :: p' /\ find e es = Some c /\
         store p data c = Some c' /\ n' = Dir (put e c' es))).
Proof.
  intros H. destruct n as [| es |]; try (destruct p; discriminate H).
  exists es. split; [reflexivity|]. destruct p as [|e' p'].
  - left. rewrite store_last in H. split; [reflexivity|].
    destruct (find e es) as [[| |]|]; try discriminate H;
      (split; [congruence|]); intros m [= <-]; eauto.
  - right. rewrite store_inner in H.
    destruct (find e es) as [c|]; [|discriminate H].
    destruct (store (e' :: p') data c) as [c'|] eqn:Hc; [|discriminate H].
    exists e', p', c, c'. repeat split; congruence.
Qed.

(** A file that is stored is there, with the size of its content. *)
Lemma lookup_store (p : list string) (data : list byte) :
  forall n n',
    store p data n = Some n' ->
    lookup p n' = Some (File (Z.of_nat (length data)) data).
Proof.
  induction p as [|e p IH]; intros n n' H; [destruct n; discriminate H|].
  destruct (store_Some _ _ _ _ _ H)
    as (es & -> & [(-> & -> & _) | (e' & p' & c & c' & -> & Hf & Hc & ->)]);
    cbn [lookup]; rewrite find_put, String.eqb_refl; [reflexivity|].
  exact (IH _ _ Hc).
Qed.

(** Storing a file twice at the same place is storing the second content. *)
Lemma store_store (p : list string) (d1 d2 : list byte) :
  forall n n1, store p d1 n = Some n1 -> store p d2 n1 = store p d2 n.
Proof.
  induction p as [|e p IH]; intros n n1 H; [destruct n; discriminate H|].
  destruct (store_Some _ _ _ _ _ H)
    as (es & -> & [(-> & -> & Hfile) | (e' & p' & c & c' & -> & Hf & Hc & ->)]).
  - rewrite !store_last, find_put, String.eqb_refl, put_put.
    destruct (find e es) as [m|] eqn:Hm; [|reflexivity].
    destruct (Hfile m eq_refl) as (s & d & ->). reflexivity.
  - rewrite !store_inner, find_put, String.eqb_refl, Hf, (IH _ _ Hc).
    destruct (store (e' :: p') d2 c); [rewrite put_put|]; reflexivity.
Qed.

(** Storing a file changes no other regular file. *)
Lemma fileAt_store (p : list string) (data : list byte) :
  forall n n' q,
    store p data n = Some n' -> q <> p ->
    Spec.fileAt q n' = Spec.fileAt q n.
Proof.
  unfold Spec.fileAt.
  induction p as [|e p IH]; intros n n' q H Hq; [destruct n; discriminate H|].
  destruct (store_Some _ _ _ _ _ H)
    as (es & -> & [(-> & -> & Hfile) | (e' & p' & c & c' & -> & Hf & Hc & ->)]);
    (destruct q as [|k q]; [reflexivity|]);
    cbn [lookup]; rewrite find_put;
    (destruct (String.eqb_spec e k) as [->|Hne]; [|reflexivity]).
  - destruct q as [|k' q]; [contradiction|]. cbn [lookup].
    destruct (find k es) as [m|] eqn:Hm; [|reflexivity].
    destruct (Hfile m eq_refl) as (s & d & ->). reflexivity.
  - rewrite Hf. apply (IH _ _ _ Hc). congruence.
Qed.

End FSFacts.

(** ** The executor *)
Module ExecFacts.
Import Script Exec.
#[local] Open Scope list_scope.

(** A call of [writeFile] that returns no error has stored the bytes at the
    path, and has done nothing else. *)
Lemma writeFile_ok (source : list byte) (filePath : string) (w w' : World) :
  writeFile source filePath w = (w', None) ->
  FS.store (FS.resolve filePath) source (fs w) = Some (fs w') /\
  logged w' = logged w /\ invoked w' = invoked w.
Proof.
  unfold writeFile, FS.Create, FS.Fill.
  destruct (FS.store (FS.resolve filePath) [] (fs w)) as [fs1|] eqn:H1;
    [|discriminate].
  rewrite (FSFacts.store_store _ _ source _ _ H1).
  destruct (FS.store (FS.resolve filePath) source (fs w)) as [fs2|];
    [|discriminate].
  intros [= <-]. auto.
Qed.

Section WithRuntime.
Variable R : Runtime.

Lemma runActions_app (workdir : string) (uid gid : Z) (env : list string)
      (pre post : list Command) :
  forall w,
    runActions R workdir uid gid env (pre ++ post) w =
    match runActions R workdir uid gid env pre w with
    | (w1, None) => runActions R workdir uid gid env post w1
    | (w1, Some err) => (w1, Some err)
    end.
Proof.
  induction pre as [|a pre IH]; intros w; [reflexivity|].
  destruct a; cbn [app runActions]; try apply IH.
  destruct (capture R workdir uid gid env c w) as [w1 [err|]];
    [reflexivity | apply IH].
Qed.

Lemma runSources_app (workdir : string) (uid gid : Z) (env : list string)
      (actions : list Command) (before after : list string) :
  forall w,
    runSources R workdir uid gid env actions (before ++ after) w =
    match runSources R workdir uid gid env actions before w with
    | (w1, None) => runSources R workdir uid gid env actions after w1
    | (w1, Some err) => (w1, Some err)
    end.
Proof.
  induction before as [|s before IH]; intros w; [reflexivity|].
  cbn [app runSources].
  destruct (runActions R workdir uid gid env actions w) as [w1 [err|]];
    [reflexivity | apply IH].
Qed.

Lemma copyPaths_app (workdir : string) (before after : list string) :
  forall w,
    copyPaths R workdir (before ++ after) w =
    copyPaths R workdir after (copyPaths R workdir before w).
Proof.
  induction before as [|p before IH]; intros w; [reflexivity|].
  cbn [app copyPaths]. apply IH.
Qed.

(** Once the preambles are fetched, the identity resolved and the working
    directory made, [Execute] returns what the loop over the sources
    returns. *)
Lemma Execute_runs (scr : Script) (w : World)
      (fromCmd : FromCommand) (asCmd : AsCommand) (workdir : WorkdirCommand)
      (uid gid : Z) (fs1 : FS.Node) (envPairs : list string) :
  fetchFrom scr = Found fromCmd ->
  fetchAs scr = Found asCmd ->
  GetCredentials R asCmd = inl (uid, gid) ->
  fetchWorkdir scr = Found workdir ->
  FS.MkdirAll (Dir workdir) (fs w) = inl fs1 ->
  collectEnv (preamble CmdEnv scr) [] = Some envPairs ->
  Execute R scr w =
  (fst (runSources R (Dir workdir) uid gid envPairs (Actions scr)
                   (Sources fromCmd) (withFs w fs1)),
   Returned (snd (runSources R (Dir workdir) uid gid envPairs (Actions scr)
                             (Sources fromCmd) (withFs w fs1)))).
Proof.
  intros HF HA HC HW HM HE. unfold Execute.
  rewrite HF, HA, HC, HW, HM, HE.
  destruct (runSources _ _ _ _ _ _ _ _) as [w' err]. reflexivity.
Qed.

(** C1. A script with the single action CAPTURE and no ENV, whose FROM
    has at least one source (the default FROM has exactly one): when
    [Execute] returns nil, the subprocess has run for each source and the
    output of the last run is a regular file at the path made of the
    working directory and the flattened command line followed by [.txt];
    when the flattened command line is a file name this path is an entry of
    the working directory itself; the file system is the one the subprocess
    left with that one file stored, and every other regular file is as the
    subprocess left it. *)
Theorem single_capture_writes_one_file
        (scr : Script) (w w' : World) (fromCmd : FromCommand)
        (before : list string) (node : string)
        (asCmd : AsCommand) (workdir : WorkdirCommand) (cmd : CaptureCommand) :
  Preambles scr !! CmdFrom = Some [IsFrom fromCmd] ->
  Sources fromCmd = before ++ [node] ->
  Preambles scr !! CmdAs = Some [IsAs asCmd] ->
  Preambles scr !! CmdWorkDir = Some [IsWorkdir workdir] ->
  Preambles scr !! CmdEnv = None ->
  Actions scr = [IsCapture cmd] ->
  Execute R scr w = (w', Returned None) ->
  exists uid gid fs1 w0 fs2 output,
    GetCredentials R asCmd = inl (uid, gid) /\
    FS.MkdirAll (Dir workdir) (fs w) = inl fs1 /\
    runSources R (Dir workdir) uid gid [] [IsCapture cmd] before (withFs w fs1)
      = (w0, None) /\
    CliRun R (uint32 uid) (uint32 gid) [] (fst (GetParsedCli cmd))
           (snd (GetParsedCli cmd)) (fs w0) = (fs2, inl output) /\
    let fileName := flatCmd R (GetCliString cmd) +:+ ".txt" in
    let filePath := Filepath.Join (Dir workdir) fileName in
    FS.store (FS.resolve filePath) output fs2 = Some (fs w') /\
    Spec.fileAt (FS.resolve filePath) (fs w')
      = Some (Z.of_nat (length output), output) /\
    FS.exists_ filePath (fs w') = true /\
    (Spec.fileName fileName = true ->
     FS.resolve filePath = FS.resolve (Dir workdir) ++ [fileName]) /\
    (forall q, q <> FS.resolve filePath ->
               Spec.fileAt q (fs w') = Spec.fileAt q fs2) /\
    logged w' = logged w0 /\
    invoked w' = invoked w0 ++
                 [{| inv_uid := uint32 uid; inv_gid := uint32 gid;
                     inv_env := []; inv_cmd := fst (GetParsedCli cmd);
                     inv_args := snd (GetParsedCli cmd) |}].
Proof.
  intros HF HS HA HW HE HAct. unfold Execute, fetchFrom, fetchAs, fetchWorkdir.
  rewrite HF, HA.
  destruct (GetCredentials R asCmd) as [[uid gid]|err]; [|discriminate].
  rewrite HW.
  destruct (FS.MkdirAll (Dir workdir) (fs w)) as [fs1|err]; [|discriminate].
  unfold preamble. rewrite HE, HS, HAct. cbn [default collectEnv].
  rewrite runSources_app.
  destruct (runSources R (Dir workdir) uid gid [] [IsCapture cmd] before
                       (withFs w fs1)) as [w0 [err|]] eqn:Hbefore;
    [discriminate|].
  cbn [runSources runActions]. unfold capture.
  destruct (GetParsedCli cmd) as [cliCmd cliArgs]. cbn [fst snd].
  destruct (CliRun R (uint32 uid) (uint32 gid) [] cliCmd cliArgs (fs w0))
    as [fs2 [output|err]] eqn:HRun; [|discriminate].
  destruct (writeFile _ _ _) as [w1 [err|]] eqn:HWr; [discriminate|].
  intros [= <-].
  apply writeFile_ok in HWr. cbn [recordRun fs logged invoked withFs] in HWr.
  destruct HWr as (Hst & Hlog & Hinv).
  exists uid, gid, fs1, w0, fs2, output.
  split; [reflexivity|]. split; [reflexivity|]. split; [exact Hbefore|].
  split; [exact HRun|].
  cbn zeta. split; [exact Hst|].
  pose proof (FSFacts.lookup_store _ _ _ _ Hst) as Hlk.
  split; [unfold Spec.fileAt; rewrite Hlk; reflexivity|].
  split; [unfold FS.exists_; rewrite Hlk; reflexivity|].
  split; [apply PathFacts.resolve_Join|].
  split; [intros q Hq; exact (FSFacts.fileAt_store _ _ _ _ _ Hst Hq)|].
  split; [exact Hlog | exact Hinv].
Qed.

Lemma collectEnv_typed (envCmds : list Command) :
  Forall (fun c => Spec.wellTyped CmdEnv c = true) envCmds ->
  forall envPairs, exists all, collectEnv envCmds envPairs = Some all.
Proof.
  induction 1 as [|c envCmds Hc _ IH]; intros envPairs; [eexists; reflexivity|].
  destruct c; try discriminate Hc. cbn [collectEnv]. apply IH.
Qed.

(** On a script that [Parse] returns the checks of [Execute] pass: FROM, AS
    and WORKDIR hold one command of their type, and the ENV preamble holds
    ENV commands. *)
Lemma Parse_is_executable (P : Parser.Package) (lines : list string)
      (scr : Script) :
  Parser.Parse P lines = (Some scr, None) ->
  exists fromCmd asCmd workdir envPairs,
    Preambles scr !! CmdFrom = Some [IsFrom fromCmd] /\
    Preambles scr !! CmdAs = Some [IsAs asCmd] /\
    Preambles scr !! CmdWorkDir = Some [IsWorkdir workdir] /\
    collectEnv (preamble CmdEnv scr) [] = Some envPairs.
Proof.
  intros HP.
  destruct (ParserFacts.Parse_wellTyped P lines) as (scr' & E & HS & HEnv).
  { rewrite HP. reflexivity. }
  assert (scr' = scr) as -> by congruence.
  destruct (HS CmdFrom) as (cf & Hf & Tf); [cbn; tauto|].
  destruct (HS CmdAs) as (ca & Ha & Ta); [cbn; tauto|].
  destruct (HS CmdWorkDir) as (cw & Hw & Tw); [cbn; tauto|].
  destruct cf; try discriminate Tf.
  destruct ca; try discriminate Ta.
  destruct cw; try discriminate Tw.
  destruct (collectEnv_typed _ HEnv []) as [envPairs He].
  eauto 10.
Qed.

(** C4. When the identity of the AS directive does not resolve, [Execute]
    never returns nil and leaves everything as it was: no directory is
    made, nothing is logged, no subprocess is started and no file is
    copied. What it returns is the error of the resolution when FROM is
    present, on every script that [Parse] returns in particular, and the
    error of the check of FROM when FROM is absent. *)
Theorem unresolved_identity_aborts
        (scr : Script) (w : World) (asCmd : AsCommand) (ases : list Command)
        (err : error) :
  Preambles scr !! CmdAs = Some (IsAs asCmd :: ases) ->
  GetCredentials R asCmd = inr err ->
  fst (Execute R scr w) = w /\
  snd (Execute R scr w) <> Returned None /\
  (forall fromCmd froms,
      Preambles scr !! CmdFrom = Some (IsFrom fromCmd :: froms) ->
      Execute R scr w = (w, Returned (Some err))) /\
  (Preambles scr !! CmdFrom = None ->
   Execute R scr w = (w, Returned (Some "Script missing valid FROM"))) /\
  (forall P lines,
      Parser.Parse P lines = (Some scr, None) ->
      Execute R scr w = (w, Returned (Some err))).
Proof.
  intros HA HC.
  assert (forall fromCmd froms,
             Preambles scr !! CmdFrom = Some (IsFrom fromCmd :: froms) ->
             Execute R scr w = (w, Returned (Some err))) as Hfrom.
  { intros fromCmd froms HF. unfold Execute, fetchFrom, fetchAs.
    rewrite HF, HA, HC. reflexivity. }
  assert (fst (Execute R scr w) = w /\ snd (Execute R scr w) <> Returned None)
    as [Hw Hnil].
  { unfold Execute, fetchFrom, fetchAs. rewrite HA, HC.
    destruct (Preambles scr !! CmdFrom) as [[|[] ?]|]; split;
      (reflexivity || discriminate). }
  split; [exact Hw|]. split; [exact Hnil|].
  split; [exact Hfrom|]. split.
  - intros HF. unfold Execute, fetchFrom. rewrite HF. reflexivity.
  - intros P lines HP.
    destruct (Parse_is_executable P lines scr HP) as (f & _ & _ & _ & HF & _).
    exact (Hfrom f [] HF).
Qed.


(** The two ways a CAPTURE fails: the subprocess cannot be started or
    ends with an error, or its output cannot be written. *)
Lemma capture_fails (workdir : string) (uid gid : Z) (env : list string)
      (cmd : CaptureCommand) (w w' : World) (err : error) :
  let run := {| inv_uid := uint32 uid; inv_gid := uint32 gid; inv_env := env;
                inv_cmd := fst (GetParsedCli cmd);
                inv_args := snd (GetParsedCli cmd) |} in
  (exists fs1,
      CliRun R (uint32 uid) (uint32 gid) env (fst (GetParsedCli cmd))
             (snd (GetParsedCli cmd)) (fs w) = (fs1, inr err) /\
      w' = recordRun run fs1 w) \/
  (exists fs1 output,
      CliRun R (uint32 uid) (uint32 gid) env (fst (GetParsedCli cmd))
             (snd (GetParsedCli cmd)) (fs w) = (fs1, inl output) /\
      writeFile output
                (Filepath.Join workdir (flatCmd R (GetCliString cmd) +:+ ".txt"))
                (recordRun run fs1 w) = (w', Some err)) ->
  capture R workdir uid gid env cmd w = (w', Some err).
Proof.
  intros run H. unfold capture. subst run.
  destruct (GetParsedCli cmd) as [cliCmd cliArgs]. cbn [fst snd] in H.
  destruct H as [(fs1 & HRun & ->) | (fs1 & output & HRun & HWr)];
    rewrite HRun; [reflexivity | exact HWr].
Qed.

(** C7. A CAPTURE whose subprocess cannot be started or fails, or whose
    output cannot be written, makes [Execute] return that error at once:
    the world [Execute] leaves is the one of the failed step, so that no
    later action and no later source is processed. *)
Theorem capture_failure_aborts
        (scr : Script) (w w0 w1 w2 : World)
        (fromCmd : FromCommand) (asCmd : AsCommand) (workdir : WorkdirCommand)
        (uid gid : Z) (fs1 : FS.Node) (envPairs : list string)
        (before after : list string) (source : string)
        (pre post : list Command) (cmd : CaptureCommand) (err : error) :
  fetchFrom scr = Found fromCmd ->
  fetchAs scr = Found asCmd ->
  GetCredentials R asCmd = inl (uid, gid) ->
  fetchWorkdir scr = Found workdir ->
  FS.MkdirAll (Dir workdir) (fs w) = inl fs1 ->
  collectEnv (preamble CmdEnv scr) [] = Some envPairs ->
  Sources fromCmd = before ++ source :: after ->
  Actions scr = pre ++ IsCapture cmd :: post ->
  runSources R (Dir workdir) uid gid envPairs (Actions scr) before
             (withFs w fs1) = (w0, None) ->
  runActions R (Dir workdir) uid gid envPairs pre w0 = (w1, None) ->
  ((exists fs2,
       CliRun R (uint32 uid) (uint32 gid) envPairs (fst (GetParsedCli cmd))
              (snd (GetParsedCli cmd)) (fs w1) = (fs2, inr err) /\
       w2 = recordRun {| inv_uid := uint32 uid; inv_gid := uint32 gid;
                         inv_env := envPairs;
                         inv_cmd := fst (GetParsedCli cmd);
                         inv_args := snd (GetParsedCli cmd) |} fs2 w1) \/
   (exists fs2 output,
       CliRun R (uint32 uid) (uint32 gid) envPairs (fst (GetParsedCli cmd))
              (snd (GetParsedCli cmd)) (fs w1) = (fs2, inl output) /\
       writeFile output
                 (Filepath.Join (Dir workdir)
                                (flatCmd R (GetCliString cmd) +:+ ".txt"))
                 (recordRun {| inv_uid := uint32 uid; inv_gid := uint32 gid;
                               inv_env := envPairs;
                               inv_cmd := fst (GetParsedCli cmd);
                               inv_args := snd (GetParsedCli cmd) |} fs2 w1)
       = (w2, Some err))) ->
  Execute R scr w = (w2, Returned (Some err)).
Proof.
  intros HF HA HC HW HM HE HS HAct Hbefore Hpre Hfail.
  rewrite (Execute_runs _ _ _ _ _ _ _ _ _ HF HA HC HW HM HE).
  apply capture_fails in Hfail.
  rewrite HS, runSources_app, Hbefore. cbn [runSources].
  rewrite HAct, runActions_app, Hpre. cbn [runActions].
  rewrite Hfail. reflexivity.
Qed.

(** Only a CAPTURE makes the loop over the actions return an error. *)
Lemma runActions_without_capture (workdir : string) (uid gid : Z)
      (env : list string) (actions : list Command) :
  Forall (fun a => forall c, a <> IsCapture c) actions ->
  forall w, snd (runActions R workdir uid gid env actions w) = None.
Proof.
  induction 1 as [|a actions Ha _ IH]; intros w; [reflexivity|].
  destruct a; cbn [runActions]; try apply IH.
  exfalso. exact (Ha c eq_refl).
Qed.

Lemma runSources_without_capture (workdir : string) (uid gid : Z)
      (env : list string) (actions : list Command) (sources : list string) :
  Forall (fun a => forall c, a <> IsCapture c) actions ->
  forall w, snd (runSources R workdir uid gid env actions sources w) = None.
Proof.
  intros Hall. induction sources as [|s sources IH]; intros w; [reflexivity|].
  cbn [runSources].
  pose proof (runActions_without_capture workdir uid gid env actions Hall w) as H.
  destruct (runActions R workdir uid gid env actions w) as [w1 [err|]];
    [discriminate H | apply IH].
Qed.

(** A path the guard of COPY rejects is logged and nothing else is done
    for it. *)
Lemma rejected_path_is_only_logged (workdir path : string) (w : World) :
  relativeToWorkdir workdir path = true ->
  copyPath R workdir path w =
  logError (CmdCopy +:+ " path " +:+ path +:+
            " cannot be relative to workdir " +:+ workdir) w.
Proof. intros H. unfold copyPath. rewrite H. reflexivity. Qed.

(** The log only grows: each step keeps what was logged before it. *)
Lemma copyPath_log (workdir path : string) (w : World) :
  exists new, logged (copyPath R workdir path w) = logged w ++ new.
Proof.
  unfold copyPath. destruct (relativeToWorkdir workdir path).
  - eexists. reflexivity.
  - destruct (Walk R workdir path (fs w)) as [fs1 [err|]].
    + eexists. reflexivity.
    + exists []. cbn [withFs logged]. rewrite app_nil_r. reflexivity.
Qed.

Lemma copyPaths_log (workdir : string) (paths : list string) :
  forall w, exists new, logged (copyPaths R workdir paths w) = logged w ++ new.
Proof.
  induction paths as [|p paths IH]; intros w.
  - exists []. rewrite app_nil_r. reflexivity.
  - cbn [copyPaths]. destruct (IH (copyPath R workdir p w)) as (n2 & ->).
    destruct (copyPath_log workdir p w) as (n1 & ->).
    exists (n1 ++ n2). rewrite app_assoc. reflexivity.
Qed.

Lemma capture_log (workdir : string) (uid gid : Z) (env : list string)
      (cmd : CaptureCommand) (w : World) :
  logged (fst (capture R workdir uid gid env cmd w)) = logged w.
Proof.
  unfold capture. destruct (GetParsedCli cmd) as [cliCmd cliArgs].
  destruct (CliRun R _ _ _ _ _ _) as [fs1 [output|err]]; [|reflexivity].
  unfold writeFile. cbn [fs recordRun].
  destruct (FS.Create _ fs1) as [fs2|e]; [|reflexivity].
  destruct (FS.Fill _ output fs2); reflexivity.
Qed.

Lemma runActions_log (workdir : string) (uid gid : Z) (env : list string)
      (actions : list Command) :
  forall w, exists new,
    logged (fst (runActions R workdir uid gid env actions w)) = logged w ++ new.
Proof.
  induction actions as [|a actions IH]; intros w.
  - exists []. rewrite app_nil_r. reflexivity.
  - destruct a; cbn [runActions]; try apply IH.
    + pose proof (capture_log workdir uid gid env c w) as HC.
      destruct (capture R workdir uid gid env c w) as [w1 [err|]];
        cbn [fst] in *.
      * exists []. rewrite app_nil_r. exact HC.
      * destruct (IH w1) as (new & ->). rewrite HC. eauto.
    + destruct (IH (copyPaths R workdir (Args c) w)) as (n2 & ->).
      destruct (copyPaths_log workdir (Args c) w) as (n1 & ->).
      exists (n1 ++ n2). rewrite app_assoc. reflexivity.
Qed.

(** C8. An error met while walking one argument of a COPY is logged, and
    nothing more: the message is appended to the error log as that
    argument is left, and is still in the log, after what was logged
    before, when the loop over the actions ends; the arguments after it
    are processed, then the actions after the COPY, and what the loop
    returns is what those actions return; with COPY actions only, the loops
    over the sources and the actions, whose result is what [Execute]
    returns, end without error whatever the walks meet. *)
Theorem copy_walk_error_is_logged
        (workdir : string) (uid gid : Z) (env : list string)
        (cmd : CopyCommand) (before after : list string) (path : string)
        (rest : list Command) (w : World) (fs1 : FS.Node) (err : error) :
  Args cmd = before ++ path :: after ->
  relativeToWorkdir workdir path = false ->
  Walk R workdir path (fs (copyPaths R workdir before w)) = (fs1, Some err) ->
  runActions R workdir uid gid env (IsCopy cmd :: rest) w =
    runActions R workdir uid gid env rest
      (copyPaths R workdir after
         (logError err (withFs (copyPaths R workdir before w) fs1))) /\
  (logged (copyPaths R workdir (before ++ [path]) w) =
     logged (copyPaths R workdir before w) ++ [err] /\
   fs (copyPaths R workdir (before ++ [path]) w) = fs1 /\
   invoked (copyPaths R workdir (before ++ [path]) w) =
     invoked (copyPaths R workdir before w)) /\
  (exists earlier later,
      logged (fst (runActions R workdir uid gid env (IsCopy cmd :: rest) w)) =
        logged w ++ earlier ++ err :: later) /\
  (forall copies sources,
      snd (runSources R workdir uid gid env (map IsCopy (cmd :: copies))
                      sources w) = None).
Proof.
  intros HArgs HRel HWalk.
  assert (runActions R workdir uid gid env (IsCopy cmd :: rest) w =
          runActions R workdir uid gid env rest
            (copyPaths R workdir after
               (logError err (withFs (copyPaths R workdir before w) fs1)))) as E.
  { cbn [runActions]. rewrite HArgs, copyPaths_app. cbn [copyPaths].
    unfold copyPath. rewrite HRel, HWalk. reflexivity. }
  split; [exact E|]. split; [|split].
  - rewrite copyPaths_app. cbn [copyPaths]. unfold copyPath.
    rewrite HRel, HWalk. cbn [logError withFs logged fs invoked]. auto.
  - rewrite E.
    destruct (runActions_log workdir uid gid env rest
                (copyPaths R workdir after
                   (logError err (withFs (copyPaths R workdir before w) fs1))))
      as (n3 & ->).
    destruct (copyPaths_log workdir after
                (logError err (withFs (copyPaths R workdir before w) fs1)))
      as (n2 & ->).
    cbn [logError withFs logged].
    destruct (copyPaths_log workdir before w) as (n1 & ->).
    exists n1, (n2 ++ n3). rewrite <- !app_assoc. reflexivity.
  - intros copies sources. apply runSources_without_capture.
    apply Forall_map, Forall_forall. intros c _ c'. discriminate.
Qed.

(** C10 (amended). The checks of [Execute] on FROM, AS and WORKDIR are made
    in that order and look only at the presence of the key: a missing key
    gives the error [Script missing valid ...]; when the directives checked
    before are present and well formed (and, for WORKDIR, the identity
    resolves), a key bound to an empty list, or to a list whose first
    command has another concrete type, makes [Execute] panic. Nothing has
    been done to the world at that point. *)
Theorem presence_is_all_that_is_checked (scr : Script) (w : World) :
  (Preambles scr !! CmdFrom = None ->
   Execute R scr w = (w, Returned (Some "Script missing valid FROM"))) /\
  (Preambles scr !! CmdFrom = Some [] ->
   Execute R scr w = (w, Panicked indexPanic)) /\
  (forall c cs,
      Preambles scr !! CmdFrom = Some (c :: cs) ->
      (forall f, c <> IsFrom f) ->
      Execute R scr w = (w, Panicked conversionPanic)) /\
  (forall f cs,
      Preambles scr !! CmdFrom = Some (IsFrom f :: cs) ->
      (Preambles scr !! CmdAs = None ->
       Execute R scr w = (w, Returned (Some "Script missing valid AS"))) /\
      (Preambles scr !! CmdAs = Some [] ->
       Execute R scr w = (w, Panicked indexPanic)) /\
      (forall c cs',
          Preambles scr !! CmdAs = Some (c :: cs') ->
          (forall a, c <> IsAs a) ->
          Execute R scr w = (w, Panicked conversionPanic)) /\
      (forall a cs' uid gid,
          Preambles scr !! CmdAs = Some (IsAs a :: cs') ->
          GetCredentials R a = inl (uid, gid) ->
          (Preambles scr !! CmdWorkDir = None ->
           Execute R scr w =
             (w, Returned (Some "Script missing valid WORKDIR"))) /\
          (Preambles scr !! CmdWorkDir = Some [] ->
           Execute R scr w = (w, Panicked indexPanic)) /\
          (forall c cs'',
              Preambles scr !! CmdWorkDir = Some (c :: cs'') ->
              (forall d, c <> IsWorkdir d) ->
              Execute R scr w = (w, Panicked conversionPanic)))).
Proof.
  unfold Execute, fetchFrom, fetchAs, fetchWorkdir.
  split; [intros ->; reflexivity|].
  split; [intros ->; reflexivity|].
  split.
  { intros c cs -> Hc. destruct c; try reflexivity. exfalso. exact (Hc _ eq_refl). }
  intros f cs ->.
  split; [intros ->; reflexivity|].
  split; [intros ->; reflexivity|].
  split.
  { intros c cs' -> Hc. destruct c; try reflexivity. exfalso. exact (Hc _ eq_refl). }
  intros a cs' uid gid -> ->.
  split; [intros ->; reflexivity|].
  split; [intros ->; reflexivity|].
  intros c cs'' -> Hc. destruct c; try reflexivity. exfalso. exact (Hc _ eq_refl).
Qed.

End WithRuntime.

(** C5. The guard of COPY compares the first two characters of the
    relative path with [..]: the directory [/tmp/flareout/..cache] lies
    inside the working directory [/tmp/flareout], its relative path
    [..cache] starts with two dots, and so the COPY of it is not skipped:
    [Execute] returns nil, nothing is logged, and the file it holds is
    copied into the working directory. *)
Theorem copy_of_dotted_name_is_not_skipped :
  Spec.inside "/tmp/flareout" "/tmp/flareout/..cache" = true /\
  Filepath.Rel "/tmp/flareout" "/tmp/flareout/..cache" = inl "..cache" /\
  relativeToWorkdir "/tmp/flareout" "/tmp/flareout/..cache" = false /\
  Spec.fileAt ["tmp"; "flareout"; "f"] Sample.cacheDisk = None /\
  snd (Execute Sample.runtime (Sample.scriptOf [IsCopy Sample.copyCache])
               (Sample.worldOf Sample.cacheDisk)) = Returned None /\
  logged (fst (Execute Sample.runtime (Sample.scriptOf [IsCopy Sample.copyCache])
                       (Sample.worldOf Sample.cacheDisk))) = [] /\
  Spec.fileAt ["tmp"; "flareout"; "f"]
              (fs (fst (Execute Sample.runtime
                                (Sample.scriptOf [IsCopy Sample.copyCache])
                                (Sample.worldOf Sample.cacheDisk))))
    = Some (3, Sample.bytes "abc").
Proof. repeat split; reflexivity. Qed.

(** C6. The destination of a copied file is the working directory joined
    with the last element of its path: with [/src/a/x] of 1 byte and
    [/src/b/x] of 2 bytes, [COPY /src] ends without error and without a
    logged message, and the working directory then holds the single
    regular file [x], of 2 bytes; no file of 1 byte is there, and the
    directories [a], [b] and [src] stand side by side. *)
Theorem copy_flattens_the_tree :
  snd (Execute Sample.runtime (Sample.scriptOf [IsCopy Sample.copySrc]) Sample.world)
    = Returned None /\
  logged (fst (Execute Sample.runtime (Sample.scriptOf [IsCopy Sample.copySrc])
                       Sample.world)) = [] /\
  Spec.filesBelow "/src" Sample.disk =
    [(["a"; "x"], Sample.bytes "1"); (["b"; "x"], Sample.bytes "22")] /\
  Spec.filesBelow "/tmp/flareout"
    (fs (fst (Execute Sample.runtime (Sample.scriptOf [IsCopy Sample.copySrc])
                      Sample.world)))
    = [(["x"], Sample.bytes "22")] /\
  FS.lookup ["tmp"; "flareout"]
    (fs (fst (Execute Sample.runtime (Sample.scriptOf [IsCopy Sample.copySrc])
                      Sample.world)))
    = Some (FS.Dir [("a", FS.Dir []); ("b", FS.Dir []); ("src", FS.Dir []);
                    ("x", FS.File 2 (Sample.bytes "22"))]).
Proof. repeat split; reflexivity. Qed.

Lemma single_capture_writes_one_file_witness :
  (Preambles (Sample.parsed Sample.echoLines) !! CmdFrom
     = Some [IsFrom Sample.defaultFrom] /\
   Sources Sample.defaultFrom = [] ++ ["local"] /\
   Preambles (Sample.parsed Sample.echoLines) !! CmdAs
     = Some [IsAs Sample.defaultAs] /\
   Preambles (Sample.parsed Sample.echoLines) !! CmdWorkDir
     = Some [IsWorkdir Sample.defaultWorkdir] /\
   Preambles (Sample.parsed Sample.echoLines) !! CmdEnv = None /\
   Actions (Sample.parsed Sample.echoLines) = [IsCapture Sample.echoCommand] /\
   Execute Sample.runtime (Sample.parsed Sample.echoLines) Sample.world
     = (Sample.afterEcho, Returned None)) /\
  exists uid gid fs1 w0 fs2 output,
    GetCredentials Sample.runtime Sample.defaultAs = inl (uid, gid) /\
    FS.MkdirAll (Dir Sample.defaultWorkdir) (fs Sample.world) = inl fs1 /\
    runSources Sample.runtime (Dir Sample.defaultWorkdir) uid gid []
               [IsCapture Sample.echoCommand] [] (withFs Sample.world fs1)
      = (w0, None) /\
    CliRun Sample.runtime (uint32 uid) (uint32 gid) []
           (fst (GetParsedCli Sample.echoCommand))
           (snd (GetParsedCli Sample.echoCommand)) (fs w0) = (fs2, inl output) /\
    let fileName :=
      flatCmd Sample.runtime (GetCliString Sample.echoCommand) +:+ ".txt" in
    let filePath := Filepath.Join (Dir Sample.defaultWorkdir) fileName in
    FS.store (FS.resolve filePath) output fs2 = Some (fs Sample.afterEcho) /\
    Spec.fileAt (FS.resolve filePath) (fs Sample.afterEcho)
      = Some (Z.of_nat (length output), output) /\
    FS.exists_ filePath (fs Sample.afterEcho) = true /\
    (Spec.fileName fileName = true ->
     FS.resolve filePath = FS.resolve (Dir Sample.defaultWorkdir) ++ [fileName]) /\
    (forall q, q <> FS.resolve filePath ->
               Spec.fileAt q (fs Sample.afterEcho) = Spec.fileAt q fs2) /\
    logged Sample.afterEcho = logged w0 /\
    invoked Sample.afterEcho = invoked w0 ++
                 [{| inv_uid := uint32 uid; inv_gid := uint32 gid;
                     inv_env := []; inv_cmd := fst (GetParsedCli Sample.echoCommand);
                     inv_args := snd (GetParsedCli Sample.echoCommand) |}].
Proof.
  split; [repeat split; reflexivity|].
  apply (single_capture_writes_one_file Sample.runtime
           (Sample.parsed Sample.echoLines) Sample.world Sample.afterEcho
           Sample.defaultFrom [] "local" Sample.defaultAs Sample.defaultWorkdir
           Sample.echoCommand); reflexivity.
Defined.

Lemma unresolved_identity_aborts_witness :
  (Preambles (Sample.parsed Sample.unknownUserLines) !! CmdAs
     = Some [IsAs Sample.unknownUser] /\
   GetCredentials Sample.runtime Sample.unknownUser
     = inr "user: unknown user foo:bar" /\
   Preambles (Sample.parsed Sample.unknownUserLines) !! CmdFrom
     = Some [IsFrom Sample.defaultFrom] /\
   Parser.Parse Sample.package Sample.unknownUserLines
     = (Some (Sample.parsed Sample.unknownUserLines), None)) /\
  Execute Sample.runtime (Sample.parsed Sample.unknownUserLines) Sample.world
    = (Sample.world, Returned (Some "user: unknown user foo:bar")).
Proof.
  split; [repeat split; reflexivity|].
  destruct (unresolved_identity_aborts Sample.runtime
              (Sample.parsed Sample.unknownUserLines) Sample.world
              Sample.unknownUser [] "user: unknown user foo:bar"
              eq_refl eq_refl) as (_ & _ & _ & _ & H).
  apply (H Sample.package Sample.unknownUserLines). reflexivity.
Defined.

Lemma capture_failure_aborts_witness :
  (fetchFrom (Sample.parsed Sample.failingLines) = Found Sample.twoSources /\
   fetchAs (Sample.parsed Sample.failingLines) = Found Sample.defaultAs /\
   GetCredentials Sample.runtime Sample.defaultAs = inl (1000, 1000) /\
   fetchWorkdir (Sample.parsed Sample.failingLines) = Found Sample.defaultWorkdir /\
   FS.MkdirAll (Dir Sample.defaultWorkdir) (fs Sample.world)
     = inl Sample.diskWithWorkdir /\
   collectEnv (preamble CmdEnv (Sample.parsed Sample.failingLines)) [] = Some [] /\
   Sources Sample.twoSources = [] ++ "a" :: ["b"] /\
   Actions (Sample.parsed Sample.failingLines)
     = [IsCopy Sample.copySrc] ++ IsCapture Sample.lsCommand
         :: [IsCapture Sample.echoA]) /\
  Execute Sample.runtime (Sample.parsed Sample.failingLines) Sample.world
    = (recordRun {| inv_uid := 1000; inv_gid := 1000; inv_env := [];
                    inv_cmd := "ls"; inv_args := [] |}
                 (fs (copyPaths Sample.runtime "/tmp/flareout" ["/src"]
                                (Sample.worldOf Sample.diskWithWorkdir)))
                 (copyPaths Sample.runtime "/tmp/flareout" ["/src"]
                            (Sample.worldOf Sample.diskWithWorkdir)),
       Returned (Some "exec: ls: file not found")).
Proof.
  split; [repeat split; reflexivity|].
  apply (capture_failure_aborts Sample.runtime
           (Sample.parsed Sample.failingLines) Sample.world
           (Sample.worldOf Sample.diskWithWorkdir)
           (copyPaths Sample.runtime "/tmp/flareout" ["/src"]
                      (Sample.worldOf Sample.diskWithWorkdir))
           _ Sample.twoSources Sample.defaultAs Sample.defaultWorkdir
           1000 1000 Sample.diskWithWorkdir [] [] ["b"] "a"
           [IsCopy Sample.copySrc] [IsCapture Sample.echoA] Sample.lsCommand
           "exec: ls: file not found"); try reflexivity.
  left. eexists. split; reflexivity.
Defined.

Lemma copy_walk_error_is_logged_witness :
  (Args Sample.copyThree = ["/src/a"] ++ "/dev/null" :: ["/src/b"] /\
   relativeToWorkdir "/tmp/flareout" "/dev/null" = false /\
   Walk Sample.runtime "/tmp/flareout" "/dev/null"
        (fs (copyPaths Sample.runtime "/tmp/flareout" ["/src/a"]
                       (Sample.worldOf Sample.diskWithWorkdir)))
     = (fs (copyPaths Sample.runtime "/tmp/flareout" ["/src/a"]
                      (Sample.worldOf Sample.diskWithWorkdir)),
        Some "%!s(func() string) unknown file type for /dev/null")) /\
  runActions Sample.runtime "/tmp/flareout" 1000 1000 []
             (IsCopy Sample.copyThree :: [IsCapture Sample.echoA])
             (Sample.worldOf Sample.diskWithWorkdir)
    = runActions Sample.runtime "/tmp/flareout" 1000 1000 []
                 [IsCapture Sample.echoA]
                 (copyPaths Sample.runtime "/tmp/flareout" ["/src/b"]
                    (logError "%!s(func() string) unknown file type for /dev/null"
                       (withFs (copyPaths Sample.runtime "/tmp/flareout" ["/src/a"]
                                          (Sample.worldOf Sample.diskWithWorkdir))
                               (fs (copyPaths Sample.runtime "/tmp/flareout"
                                              ["/src/a"]
                                              (Sample.worldOf
                                                 Sample.diskWithWorkdir)))))) /\
  logged (copyPaths Sample.runtime "/tmp/flareout" (["/src/a"] ++ ["/dev/null"])
                    (Sample.worldOf Sample.diskWithWorkdir))
    = logged (copyPaths Sample.runtime "/tmp/flareout" ["/src/a"]
                        (Sample.worldOf Sample.diskWithWorkdir))
      ++ ["%!s(func() string) unknown file type for /dev/null"] /\
  (exists earlier later,
      logged (fst (runActions Sample.runtime "/tmp/flareout" 1000 1000 []
                              (IsCopy Sample.copyThree :: [IsCapture Sample.echoA])
                              (Sample.worldOf Sample.diskWithWorkdir)))
      = logged (Sample.worldOf Sample.diskWithWorkdir) ++ earlier ++
        "%!s(func() string) unknown file type for /dev/null" :: later) /\
  (forall copies sources,
      snd (runSources Sample.runtime "/tmp/flareout" 1000 1000 []
                      (map IsCopy (Sample.copyThree :: copies)) sources
                      (Sample.worldOf Sample.diskWithWorkdir)) = None).
Proof.
  split; [repeat split; reflexivity|].
  destruct (copy_walk_error_is_logged Sample.runtime "/tmp/flareout" 1000 1000 []
              Sample.copyThree ["/src/a"] ["/src/b"] "/dev/null"
              [IsCapture Sample.echoA] (Sample.worldOf Sample.diskWithWorkdir)
              (fs (copyPaths Sample.runtime "/tmp/flareout" ["/src/a"]
                             (Sample.worldOf Sample.diskWithWorkdir)))
              "%!s(func() string) unknown file type for /dev/null"
              eq_refl eq_refl eq_refl) as (H1 & (H2 & _) & H3 & H4).
  exact (conj H1 (conj H2 (conj H3 H4))).
Defined.

(** C10 as stated fails: a script whose AS is bound to the empty list and
    whose FROM is absent does not make [Execute] panic; the check of FROM
    comes first and returns its error. *)
Lemma empty_list_does_not_always_panic :
  ~ (forall (R : Runtime) (scr : Script) (w : World) (d : string),
        In d [CmdFrom; CmdAs; CmdWorkDir] ->
        (Preambles scr !! d = Some [] \/
         exists c cs, Preambles scr !! d = Some (c :: cs) /\
                      Spec.wellTyped d c = false) ->
        exists msg, snd (Execute R scr w) = Panicked msg).
Proof.
  intros H.
  destruct (H Sample.runtime (Sample.preamblesOnly [(CmdAs, [])]) Sample.world
              CmdAs) as [msg Hmsg].
  - right. left. reflexivity.
  - left. reflexivity.
  - discriminate Hmsg.
Qed.

Lemma presence_is_all_that_is_checked_witness :
  Execute Sample.runtime (Sample.preamblesOnly []) Sample.world
    = (Sample.world, Returned (Some "Script missing valid FROM")) /\
  Execute Sample.runtime (Sample.preamblesOnly [(CmdFrom, [])]) Sample.world
    = (Sample.world, Panicked indexPanic) /\
  Execute Sample.runtime
          (Sample.preamblesOnly [(CmdFrom, [IsAs Sample.defaultAs])]) Sample.world
    = (Sample.world, Panicked conversionPanic) /\
  Execute Sample.runtime (Sample.preamblesOnly Sample.fromOnly) Sample.world
    = (Sample.world, Returned (Some "Script missing valid AS")) /\
  Execute Sample.runtime
          (Sample.preamblesOnly (Sample.fromOnly ++ [(CmdAs, [])])) Sample.world
    = (Sample.world, Panicked indexPanic) /\
  Execute Sample.runtime
          (Sample.preamblesOnly
             (Sample.fromOnly ++ [(CmdAs, [IsFrom Sample.defaultFrom])]))
          Sample.world
    = (Sample.world, Panicked conversionPanic) /\
  Execute Sample.runtime (Sample.preamblesOnly Sample.fromAndAs) Sample.world
    = (Sample.world, Returned (Some "Script missing valid WORKDIR")) /\
  Execute Sample.runtime
          (Sample.preamblesOnly (Sample.fromAndAs ++ [(CmdWorkDir, [])]))
          Sample.world
    = (Sample.world, Panicked indexPanic) /\
  Execute Sample.runtime
          (Sample.preamblesOnly
             (Sample.fromAndAs ++ [(CmdWorkDir, [IsAs Sample.defaultAs])]))
          Sample.world
    = (Sample.world, Panicked conversionPanic).
Proof.
  refine (conj _ (conj _ (conj _ (conj _ (conj _ (conj _ (conj _ (conj _ _)))))))).
  - apply (presence_is_all_that_is_checked Sample.runtime). reflexivity.
  - apply (presence_is_all_that_is_checked Sample.runtime). reflexivity.
  - destruct (presence_is_all_that_is_checked Sample.runtime
                (Sample.preamblesOnly [(CmdFrom, [IsAs Sample.defaultAs])])
                Sample.world) as (_ & _ & H & _).
    apply (H (IsAs Sample.defaultAs) []); [reflexivity | discriminate].
  - destruct (presence_is_all_that_is_checked Sample.runtime
                (Sample.preamblesOnly Sample.fromOnly) Sample.world)
      as (_ & _ & _ & H).
    apply (H Sample.defaultFrom []); reflexivity.
  - destruct (presence_is_all_that_is_checked Sample.runtime
                (Sample.preamblesOnly (Sample.fromOnly ++ [(CmdAs, [])]))
                Sample.world) as (_ & _ & _ & H).
    apply (H Sample.defaultFrom []); reflexivity.
  - destruct (presence_is_all_that_is_checked Sample.runtime
                (Sample.preamblesOnly
                   (Sample.fromOnly ++ [(CmdAs, [IsFrom Sample.defaultFrom])]))
                Sample.world) as (_ & _ & _ & H).
    destruct (H Sample.defaultFrom [] eq_refl) as (_ & _ & H' & _).
    apply (H' (IsFrom Sample.defaultFrom) []); [reflexivity | discriminate].
  - destruct (presence_is_all_that_is_checked Sample.runtime
                (Sample.preamblesOnly Sample.fromAndAs) Sample.world)
      as (_ & _ & _ & H).
    destruct (H Sample.defaultFrom [] eq_refl) as (_ & _ & _ & H').
    apply (H' Sample.defaultAs [] 1000 1000); reflexivity.
  - destruct (presence_is_all_that_is_checked Sample.runtime
                (Sample.preamblesOnly (Sample.fromAndAs ++ [(CmdWorkDir, [])]))
                Sample.world) as (_ & _ & _ & H).
    destruct (H Sample.defaultFrom [] eq_refl) as (_ & _ & _ & H').
    apply (H' Sample.defaultAs [] 1000 1000); reflexivity.
  - destruct (presence_is_all_that_is_checked Sample.runtime
                (Sample.preamblesOnly
                   (Sample.fromAndAs ++ [(CmdWorkDir, [IsAs Sample.defaultAs])]))
                Sample.world) as (_ & _ & _ & H).
    destruct (H Sample.defaultFrom [] eq_refl) as (_ & _ & _ & H').
    destruct (H' Sample.defaultAs [] 1000 1000 eq_refl eq_refl) as (_ & _ & H'').
    apply (H'' (IsAs Sample.defaultAs) []); [reflexivity | discriminate].
Defined.

End ExecFacts.

(** ** Regular expressions *)
Module RegexpFacts.
Import Regexp.

Lemma append_nil_l (s : string) : "" +:+ s = s.
Proof. reflexivity. Qed.

Lemma append_nil_r (s : string) : s +:+ "" = s.
Proof.
  induction s as [|c s IH]; [reflexivity|].
  rewrite PathFacts.append_cons, IH. reflexivity.
Qed.

Lemma append_assoc (a b c : string) : (a +:+ b) +:+ c = a +:+ (b +:+ c).
Proof.
  induction a as [|x a IH]; [reflexivity|].
  rewrite !PathFacts.append_cons, IH. reflexivity.
Qed.

Lemma append_empty (a b : string) : a +:+ b = "" -> a = "" /\ b = "".
Proof.
  destruct a as [|x a]; [rewrite append_nil_l; auto|].
  rewrite PathFacts.append_cons. discriminate.
Qed.

Lemma append_eq_cons (a b : string) (c : ascii) (s : string) :
  a +:+ b = String c s ->
  (a = "" /\ b = String c s) \/ (exists a', a = String c a' /\ s = a' +:+ b).
Proof.
  destruct a as [|x a]; [rewrite append_nil_l; auto|].
  rewrite PathFacts.append_cons. intros [= -> <-]. right. eauto.
Qed.

Lemma lang_eps_inv (s : string) : lang Eps s -> s = "".
Proof. intros H. inversion H. reflexivity. Qed.

Lemma lang_class_inv (p : ascii -> bool) (s : string) :
  lang (Class p) s -> exists c, s = String c "" /\ p c = true.
Proof. intros H. inversion H. eauto. Qed.

Lemma lang_cat_inv (r1 r2 : re) (s : string) :
  lang (Cat r1 r2) s ->
  exists s1 s2, s = s1 +:+ s2 /\ lang r1 s1 /\ lang r2 s2.
Proof. intros H. inversion H. eauto. Qed.

Lemma lang_alt_inv (r1 r2 : re) (s : string) :
  lang (Alt r1 r2) s -> lang r1 s \/ lang r2 s.
Proof. intros H. inversion H; auto. Qed.

Lemma nullable_lang (r : re) : nullable r = true <-> lang r "".
Proof.
  split.
  - induction r as [| |p|r1 IH1 r2 IH2|r1 IH1 r2 IH2|r IH]; cbn [nullable];
      intros H; try discriminate H.
    + constructor.
    + apply andb_prop in H as [H1 H2].
      change "" with ("" +:+ ""). constructor; auto.
    + apply orb_prop in H as [H|H]; [apply lang_alt_l | apply lang_alt_r]; auto.
    + constructor.
  - intros H. remember "" as s eqn:Hs.
    induction H as [|p c Hc|r1 r2 s1 s2 _ IH1 _ IH2|r1 r2 s _ IH|r1 r2 s _ IH
                   |r|r s1 s2 _ _ _ _]; cbn [nullable]; try reflexivity.
    + discriminate Hs.
    + apply append_empty in Hs as [-> ->].
      rewrite IH1, IH2; reflexivity.
    + rewrite IH; [reflexivity | exact Hs].
    + rewrite IH; [apply orb_true_r | exact Hs].
Qed.

(** A non-empty text of a repetition starts with a non-empty text of the
    pattern repeated. *)
Lemma star_cons (r : re) (c : ascii) (s : string) :
  lang (Star r) (String c s) ->
  exists s1 s2, s = s1 +:+ s2 /\ lang r (String c s1) /\ lang (Star r) s2.
Proof.
  intros H. remember (Star r) as r' eqn:Hr. remember (String c s) as t eqn:Ht.
  revert Hr Ht.
  induction H as [|p x Hx|r1 r2 s1 s2 _ _ _ _|r1 r2 t _ _|r1 r2 t _ _
                 |r0|r0 s1 s2 H1 _ H2 IH2]; intros Hr Ht; try discriminate Hr.
  - discriminate Ht.
  - injection Hr as ->.
    apply append_eq_cons in Ht as [[-> ->]|(a' & -> & ->)].
    + apply IH2; reflexivity.
    + eauto.
Qed.

Lemma deriv_lang (r : re) :
  forall (c : ascii) (s : string), lang (deriv c r) s <-> lang r (String c s).
Proof.
  induction r as [| |p|r1 IH1 r2 IH2|r1 IH1 r2 IH2|r IH]; intros c s;
    cbn [deriv].
  - split; intros H; inversion H.
  - split; intros H; inversion H.
  - destruct (p c) eqn:Hp; split; intros H.
    + apply lang_eps_inv in H as ->. constructor. exact Hp.
    + apply lang_class_inv in H as (x & [= -> ->] & _). constructor.
    + inversion H.
    + apply lang_class_inv in H as (x & [= -> ->] & Hx). congruence.
  - assert (lang (Cat (deriv c r1) r2) s -> lang (Cat r1 r2) (String c s)) as HC.
    { intros H. apply lang_cat_inv in H as (s1 & s2 & -> & Ha & Hb).
      rewrite <- PathFacts.append_cons. constructor; [apply IH1|]; assumption. }
    split.
    + intros H. destruct (nullable r1) eqn:Hn; [|exact (HC H)].
      apply lang_alt_inv in H as [H|H]; [exact (HC H)|].
      rewrite <- (append_nil_l (String c s)).
      constructor; [apply nullable_lang, Hn | apply IH2, H].
    + intros H. apply lang_cat_inv in H as (s1 & s2 & Heq & Ha & Hb).
      symmetry in Heq.
      apply append_eq_cons in Heq as [[-> ->]|(a' & -> & ->)].
      * apply nullable_lang in Ha. rewrite Ha.
        apply lang_alt_r, IH2, Hb.
      * assert (lang (Cat (deriv c r1) r2) (a' +:+ s2)) as H
            by (constructor; [apply IH1|]; assumption).
        destruct (nullable r1); [apply lang_alt_l|]; exact H.
  - split; intros H; apply lang_alt_inv in H as [H|H];
      (apply lang_alt_l, IH1, H || apply lang_alt_r, IH2, H).
  - split.
    + intros H. apply lang_cat_inv in H as (s1 & s2 & -> & Ha & Hb).
      rewrite <- PathFacts.append_cons. constructor; [apply IH|]; assumption.
    + intros H. apply star_cons in H as (s1 & s2 & -> & Ha & Hb).
      constructor; [apply IH|]; assumption.
Qed.

(** The matcher decides the language of the pattern. *)
Lemma matches_lang (s : string) :
  forall r, matches r s = true <-> lang r s.
Proof.
  induction s as [|c s IH]; intros r; cbn [matches].
  - apply nullable_lang.
  - rewrite IH. apply deriv_lang.
Qed.

End RegexpFacts.


(** ** The argument helpers of the parser *)
Module ArgsFacts.
Import Script Parser Regexp ParserArgs RegexpFacts Notions.
#[local] Open Scope list_scope.

Lemma allChars_app (p : ascii -> bool) (a b : string) :
  Notions.allChars p (a +:+ b) = Notions.allChars p a && Notions.allChars p b.
Proof.
  induction a as [|c a IH]; [reflexivity|].
  rewrite PathFacts.append_cons. cbn [Notions.allChars].
  rewrite IH. apply andb_assoc.
Qed.

Lemma allChars_weaken (p q : ascii -> bool) (s : string) :
  (forall c, p c = true -> q c = true) ->
  Notions.allChars p s = true -> Notions.allChars q s = true.
Proof.
  intros Hpq. induction s as [|c s IH]; [reflexivity|]. cbn [Notions.allChars].
  intros H. apply andb_prop in H as [Hc Hs]. rewrite (Hpq _ Hc), (IH Hs).
  reflexivity.
Qed.

Lemma lang_star_class (p : ascii -> bool) (s : string) :
  lang (Star (Class p)) s <-> Notions.allChars p s = true.
Proof.
  split.
  - revert p. induction s as [|c s IH]; intros p H; [reflexivity|].
    apply star_cons in H as (s1 & s2 & -> & Ha & Hb).
    apply lang_class_inv in Ha as (x & [= -> ->] & Hx).
    cbn [Notions.allChars]. rewrite Hx. apply IH. exact Hb.
  - induction s as [|c s IH]; [constructor|]. cbn [Notions.allChars].
    intros H. apply andb_prop in H as [Hc Hs].
    change (String c s) with (String c "" +:+ s).
    constructor; [constructor; exact Hc | apply IH, Hs].
Qed.

Lemma lang_plus_class (p : ascii -> bool) (s : string) :
  lang (Plus (Class p)) s <-> s <> "" /\ Notions.allChars p s = true.
Proof.
  unfold Plus. split.
  - intros H. apply lang_cat_inv in H as (s1 & s2 & -> & Ha & Hb).
    apply lang_class_inv in Ha as (c & -> & Hc).
    apply lang_star_class in Hb.
    rewrite PathFacts.append_cons. split; [discriminate|].
    cbn [Notions.allChars]. rewrite Hc. exact Hb.
  - intros [Hne H]. destruct s as [|c s]; [contradiction|].
    cbn [Notions.allChars] in H. apply andb_prop in H as [Hc Hs].
    change (String c s) with (String c "" +:+ s).
    constructor; [constructor; exact Hc | apply lang_star_class, Hs].
Qed.

Lemma lang_opt_class (p : ascii -> bool) (s : string) :
  lang (Opt (Class p)) s -> Notions.allChars p s = true.
Proof.
  intros H. apply lang_alt_inv in H as [H|H].
  - apply lang_eps_inv in H as ->. reflexivity.
  - apply lang_class_inv in H as (c & -> & Hc). cbn. rewrite Hc. reflexivity.
Qed.

Lemma quote_is_any (c : ascii) : quoteChar c = true -> anyChar c = true.
Proof.
  unfold quoteChar, anyChar. intros H.
  apply orb_prop in H as [H|H]; apply Ascii.eqb_eq in H; subst c; reflexivity.
Qed.

(** The strings made of a name, a colon and a value. *)
Lemma named_param_lang (str : string) :
  lang namedParamRegx str <->
  exists name value,
    str = name +:+ ":" +:+ value /\
    name <> "" /\ Notions.allChars nameChar name = true /\
    value <> "" /\ Notions.allChars anyChar value = true.
Proof.
  unfold namedParamRegx. split.
  - intros H.
    apply lang_cat_inv in H as (name & t1 & -> & Hname & H).
    apply lang_cat_inv in H as (colon & t2 & -> & Hcolon & H).
    apply lang_cat_inv in H as (q1 & t3 & -> & Hq1 & H).
    apply lang_cat_inv in H as (body & q2 & -> & Hbody & Hq2).
    apply lang_plus_class in Hname as [Hne Hname].
    apply lang_class_inv in Hcolon as (c & -> & Hc).
    apply Ascii.eqb_eq in Hc. subst c.
    apply lang_plus_class in Hbody as [Hbne Hbody].
    apply lang_opt_class in Hq1, Hq2.
    exists name, (q1 +:+ body +:+ q2).
    split; [reflexivity|]. split; [exact Hne|]. split; [exact Hname|]. split.
    + intros E. apply append_empty in E as [_ E].
      apply append_empty in E as [E _]. contradiction.
    + rewrite !allChars_app, Hbody,
        (allChars_weaken _ _ _ quote_is_any Hq1),
        (allChars_weaken _ _ _ quote_is_any Hq2). reflexivity.
  - intros (name & value & -> & Hne & Hname & Hvne & Hvalue).
    constructor; [apply lang_plus_class; auto|].
    change (":" +:+ value) with (String ":" "" +:+ value).
    constructor; [constructor; reflexivity|].
    rewrite <- (append_nil_l value). constructor; [apply lang_alt_l; constructor|].
    rewrite <- (append_nil_r value).
    constructor; [apply lang_plus_class; auto | apply lang_alt_l; constructor].
Qed.


(** X1. [isNamedParam] accepts exactly the strings made of a name, a colon
    and a value, where the name is a non-empty sequence of the characters
    [a-z0-9_-] and the value any non-empty text without line feed: the
    quotes of the pattern add nothing, a value may hold quotes anywhere,
    balanced or not, and colons. *)
Theorem named_param_is_name_colon_value (str : string) :
  isNamedParam str = true <->
  exists name value,
    str = name +:+ ":" +:+ value /\
    name <> "" /\ Notions.allChars nameChar name = true /\
    value <> "" /\ Notions.allChars anyChar value = true.
Proof. unfold isNamedParam. rewrite matches_lang. apply named_param_lang. Qed.


Section Validation.
Variable P : Package.

(** The condition under which the count check lets [n] arguments pass. *)
Lemma validateCmdArgs_window (cmdName : string) (cmd : CommandMeta)
      (args : gmap string string) :
  Cmds P !! cmdName = Some cmd ->
  (validateCmdArgs P cmdName args = None <->
   MinArgs cmd <= Z.of_nat (size args) /\
   (MaxArgs cmd < 0 \/ Z.of_nat (size args) <= MaxArgs cmd)).
Proof.
  intros Hcmd. unfold validateCmdArgs. rewrite Hcmd. cbv zeta.
  destruct (Z.ltb_spec (Z.of_nat (size args)) (MinArgs cmd));
    [split; [discriminate | lia]|].
  destruct (Z.ltb_spec (-1) (MaxArgs cmd)); cbn [andb];
    [|split; [lia | reflexivity]].
  destruct (Z.ltb_spec (MaxArgs cmd) (Z.of_nat (size args)));
    split; (discriminate || lia || reflexivity).
Qed.

(** X3. The check of the raw arguments is the count check at zero: on empty
    raw arguments [validateRawArgs] returns what [validateCmdArgs] returns
    on the empty map, the same error text included, and it accepts any
    raw arguments that are not empty for a directive of the table. *)
Theorem raw_check_is_count_check_at_zero (cmdName rawArgs : string) :
  validateRawArgs P cmdName rawArgs =
  if (rawArgs =? "")%string then validateCmdArgs P cmdName ∅
  else match Cmds P !! cmdName with
       | Some _ => None
       | None => Some (cmdName +:+ " is unknown")
       end.
Proof.
  unfold validateRawArgs, validateCmdArgs.
  destruct (Cmds P !! cmdName) as [cmd|]; [|destruct (rawArgs =? "")%string; reflexivity].
  destruct rawArgs as [|c t]; [|reflexivity].
  cbn [String.length Nat.eqb andb String.eqb]. rewrite map_size_empty.
  change (Z.of_nat 0) with 0.
  destruct (Z.ltb_spec 0 (MinArgs cmd)); [reflexivity|].
  destruct (Z.ltb_spec (-1) (MaxArgs cmd)); [|reflexivity].
  destruct (Z.ltb_spec (MaxArgs cmd) 0); [lia | reflexivity].
Qed.

End Validation.

Section Mapping.
Variable commandSplit : string -> list string + error.
Variable namedParamSplit : string -> (string * string) + error.

(** The loop of [mapArgs] binds the pairs one after the other, until a
    parameter does not split. *)
Lemma mapParams_ok (params : list string) :
  forall pairs argMap,
    Forall2 (fun p nv => namedParamSplit p = inl nv) params pairs ->
    mapParams namedParamSplit params argMap = inl (foldl bind argMap pairs).
Proof.
  induction params as [|p params IH]; intros pairs argMap H;
    inversion H as [|? nv ? pairs' Hp Hrest]; subst; [reflexivity|].
  cbn [mapParams foldl]. rewrite Hp. destruct nv as [n v]. apply IH, Hrest.
Qed.

Lemma mapParams_cases (params : list string) :
  forall argMap,
    (exists pairs,
        Forall2 (fun p nv => namedParamSplit p = inl nv) params pairs /\
        mapParams namedParamSplit params argMap = inl (foldl bind argMap pairs)) \/
    (exists before p after err,
        params = before ++ p :: after /\
        Forall (fun q => exists nv, namedParamSplit q = inl nv) before /\
        namedParamSplit p = inr err /\
        mapParams namedParamSplit params argMap = inr ("map args: " +:+ err)).
Proof.
  induction params as [|p params IH]; intros argMap.
  - left. exists []. split; [constructor | reflexivity].
  - cbn [mapParams]. destruct (namedParamSplit p) as [[n v]|err] eqn:Hp.
    + destruct (IH (<[n := v]> argMap))
        as [(pairs & HF & HM) | (before & q & after & err & -> & HB & Hq & HM)].
      * left. exists ((n, v) :: pairs). split; [constructor; assumption | exact HM].
      * right. exists (p :: before), q, after, err.
        split; [reflexivity|]. split; [constructor; eauto|]. split; assumption.
    + right. exists [], p, params, err.
      split; [reflexivity|]. split; [constructor|]. split; [exact Hp | reflexivity].
Qed.

Lemma lookup_foldl_bind (k : string) (pairs : list (string * string)) :
  forall argMap,
    foldl bind argMap pairs !! k =
    match Notions.lastValue k pairs with
    | Some v => Some v
    | None => argMap !! k
    end.
Proof.
  unfold Notions.lastValue.
  induction pairs as [|[n v] pairs IH] using rev_ind; intros argMap;
    [reflexivity|].
  rewrite foldl_app, List.filter_app. cbn [List.filter fst snd].
  change (foldl bind (foldl bind argMap pairs) [(n, v)])
    with (<[n := v]> (foldl bind argMap pairs)).
  rewrite lookup_insert.
  destruct (String.eqb_spec n k) as [->|Hne].
  - rewrite last_snoc. destruct (decide (k = k)); [reflexivity | contradiction].
  - rewrite app_nil_r. destruct (decide (n = k)); [contradiction | apply IH].
Qed.

Lemma dom_foldl_bind (pairs : list (string * string)) :
  forall argMap : gmap string string,
    dom (foldl bind argMap pairs) = dom argMap ∪ list_to_set (map fst pairs).
Proof.
  induction pairs as [|[n v] pairs IH]; intros argMap; cbn [foldl map fst].
  - rewrite list_to_set_nil, (right_id_L ∅ (∪)). reflexivity.
  - rewrite IH. unfold bind. cbn [fst snd].
    rewrite dom_insert_L, list_to_set_cons, (assoc_L (∪)), (comm_L (∪) {[n]}).
    reflexivity.
Qed.

Lemma size_foldl_bind (pairs : list (string * string)) :
  size (foldl bind (∅ : gmap string string) pairs) = Notions.distinctNames pairs.
Proof.
  unfold Notions.distinctNames.
  rewrite <- size_dom, dom_foldl_bind, dom_empty_L, (left_id_L ∅ (∪)).
  rewrite <- (size_list_to_set (C := gset string) (remove_dups (map fst pairs)))
    by apply NoDup_remove_dups.
  f_equal. apply set_eq. intros x.
  rewrite !elem_of_list_to_set, elem_of_remove_dups. reflexivity.
Qed.

(** X4. In the map [mapArgs] returns, a name is bound to the value of the
    last parameter of that name, and a name no parameter has is not bound:
    a parameter given twice is not an error, the later value replaces the
    earlier one. *)
Theorem mapArgs_binds_last_value (rawArgs : string) (args : gmap string string) :
  mapArgs commandSplit namedParamSplit rawArgs = inl args ->
  exists params pairs,
    commandSplit rawArgs = inl params /\
    Forall2 (fun p nv => namedParamSplit p = inl nv) params pairs /\
    forall k, args !! k = Notions.lastValue k pairs.
Proof.
  unfold mapArgs. destruct (commandSplit rawArgs) as [params|err]; [|discriminate].
  destruct (mapParams_cases params ∅)
    as [(pairs & HF & HM) | (before & p & after & err & _ & _ & _ & HM)];
    rewrite HM; [|discriminate].
  intros [= <-]. exists params, pairs. split; [reflexivity|]. split; [exact HF|].
  intros k. rewrite lookup_foldl_bind, lookup_empty.
  destruct (Notions.lastValue k pairs); reflexivity.
Qed.

(** X5. The map [mapArgs] returns has as many entries as there are different
    names among the parameters, so that [validateCmdArgs] compares the
    number of different names, not the number of parameters, with the
    bounds of the directive: a negative upper bound is no bound, and
    parameters that repeat a name are not counted again. *)
Theorem repeated_names_count_once
        (P : Package) (rawArgs : string) (args : gmap string string) :
  mapArgs commandSplit namedParamSplit rawArgs = inl args ->
  exists params pairs,
    commandSplit rawArgs = inl params /\
    Forall2 (fun p nv => namedParamSplit p = inl nv) params pairs /\
    size args = Notions.distinctNames pairs /\
    (Notions.distinctNames pairs <= length params)%nat /\
    forall cmdName cmd,
      Cmds P !! cmdName = Some cmd ->
      (validateCmdArgs P cmdName args = None <->
       MinArgs cmd <= Z.of_nat (Notions.distinctNames pairs) /\
       (MaxArgs cmd < 0 \/
        Z.of_nat (Notions.distinctNames pairs) <= MaxArgs cmd)).
Proof.
  unfold mapArgs. destruct (commandSplit rawArgs) as [params|err]; [|discriminate].
  destruct (mapParams_cases params ∅)
    as [(pairs & HF & HM) | (before & p & after & err & _ & _ & _ & HM)];
    rewrite HM; [|discriminate].
  intros [= <-]. exists params, pairs. split; [reflexivity|]. split; [exact HF|].
  split; [apply size_foldl_bind|]. split.
  - rewrite (Forall2_length _ _ _ HF). unfold Notions.distinctNames.
    rewrite <- (length_map fst pairs).
    apply NoDup_incl_length; [apply NoDup_ListNoDup, NoDup_remove_dups|].
    intros x Hx. apply list_elem_of_In. apply list_elem_of_In in Hx.
    exact (proj1 (elem_of_remove_dups _ _) Hx).
  - intros cmdName cmd Hcmd. rewrite <- size_foldl_bind.
    apply validateCmdArgs_window, Hcmd.
Qed.

(** X6. [mapArgs] fails in two ways only: with the error of [commandSplit]
    as it is, or, at the first parameter that does not split into a name
    and a value, with the error of [namedParamSplit] behind the text
    [map args: ]; the parameters after that one are not looked at, and no
    map is returned. *)
Theorem mapArgs_fails_at_first_bad_parameter (rawArgs : string) (e : error) :
  mapArgs commandSplit namedParamSplit rawArgs = inr e <->
  commandSplit rawArgs = inr e \/
  exists before p after err,
    commandSplit rawArgs = inl (before ++ p :: after) /\
    Forall (fun q => exists nv, namedParamSplit q = inl nv) before /\
    namedParamSplit p = inr err /\
    e = "map args: " +:+ err.
Proof.
  unfold mapArgs. split.
  - destruct (commandSplit rawArgs) as [params|err]; [|intros [= ->]; auto].
    destruct (mapParams_cases params ∅)
      as [(pairs & HF & HM) | (before & p & after & err & -> & HB & Hp & HM)];
      rewrite HM; [discriminate|].
    intros [= <-]. right. exists before, p, after, err. auto.
  - intros [-> | (before & p & after & err & -> & HB & Hp & ->)]; [reflexivity|].
    generalize (∅ : gmap string string).
    induction HB as [|q before [[n v] Hq] _ IH]; intros argMap;
      cbn [app mapParams].
    + rewrite Hp. reflexivity.
    + rewrite Hq. apply IH.
Qed.

End Mapping.

Lemma mapArgs_binds_last_value_witness :
  mapArgs SampleArgs.commandSplit SampleArgs.namedParamSplit
          "name:a path:/x name:b"
    = inl (list_to_map [("name", "b"); ("path", "/x")]) /\
  exists params pairs,
    SampleArgs.commandSplit "name:a path:/x name:b" = inl params /\
    Forall2 (fun p nv => SampleArgs.namedParamSplit p = inl nv) params pairs /\
    forall k, (list_to_map [("name", "b"); ("path", "/x")] : gmap string string) !! k
              = Notions.lastValue k pairs.
Proof.
  split; [vm_compute; reflexivity|].
  apply (mapArgs_binds_last_value SampleArgs.commandSplit
           SampleArgs.namedParamSplit "name:a path:/x name:b").
  vm_compute. reflexivity.
Defined.

Lemma repeated_names_count_once_witness :
  mapArgs SampleArgs.commandSplit SampleArgs.namedParamSplit
          "path:/a path:/b path:/c"
    = inl (list_to_map [("path", "/c")]) /\
  exists params pairs,
    SampleArgs.commandSplit "path:/a path:/b path:/c" = inl params /\
    Forall2 (fun p nv => SampleArgs.namedParamSplit p = inl nv) params pairs /\
    size (list_to_map [("path", "/c")] : gmap string string)
      = Notions.distinctNames pairs /\
    (Notions.distinctNames pairs <= length params)%nat /\
    forall cmdName cmd,
      Cmds Sample.package !! cmdName = Some cmd ->
      (validateCmdArgs Sample.package cmdName (list_to_map [("path", "/c")]) = None <->
       MinArgs cmd <= Z.of_nat (Notions.distinctNames pairs) /\
       (MaxArgs cmd < 0 \/
        Z.of_nat (Notions.distinctNames pairs) <= MaxArgs cmd)).
Proof.
  split; [vm_compute; reflexivity|].
  apply (repeated_names_count_once SampleArgs.commandSplit
           SampleArgs.namedParamSplit Sample.package "path:/a path:/b path:/c").
  vm_compute. reflexivity.
Defined.

End ArgsFacts.

(** ** The shape of what the parser returns *)
Module ParserShape.
Import Script Parser.
#[local] Open Scope list_scope.

Lemma reSpace_isSpace (c : ascii) : Str.reSpace c = true -> Str.isSpace c = true.
Proof.
  unfold Str.reSpace, Str.isSpace. generalize (N_of_ascii c). intros n H.
  repeat (apply orb_prop in H as [H|H]); apply N.eqb_eq in H; subst n;
    reflexivity.
Qed.

(** The two pieces [spaceSep.Split(text, 2)] yields put the text together
    again around the first character of the class [\s]. *)
Lemma splitFirstSpace_spec (s : string) :
  Notions.allChars Notions.noSpace (fst (Str.splitFirstSpace s)) = true /\
  match snd (Str.splitFirstSpace s) with
  | None => s = fst (Str.splitFirstSpace s)
  | Some t => exists c, Str.reSpace c = true /\
                        s = fst (Str.splitFirstSpace s) +:+ String c t
  end.
Proof.
  induction s as [|c s [IH1 IH2]]; cbn [Str.splitFirstSpace];
    [split; reflexivity|].
  destruct (Str.reSpace c) eqn:Hc; cbn [fst snd].
  - split; [reflexivity|]. exists c. auto.
  - destruct (Str.splitFirstSpace s) as [a b]. cbn [fst snd] in *.
    split.
    + cbn [Notions.allChars]. unfold Notions.noSpace at 1. rewrite Hc. exact IH1.
    + destruct b as [t|].
      * destruct IH2 as (x & Hx & ->). exists x. auto.
      * rewrite IH2 at 1. reflexivity.
Qed.

(** X7. A line that is not skipped is cut at the first character of the
    class [\s] of its trimmed text: the directive is the text before it,
    is not empty and holds no character of that class, and the raw
    arguments are all that follows that one character, further white space
    included; without such a character the directive is the whole trimmed
    text and the raw arguments are empty. *)
Theorem directive_is_first_word (raw : string) :
  Spec.skippedLine raw = false ->
  Spec.directiveOf raw <> "" /\
  Notions.allChars Notions.noSpace (Spec.directiveOf raw) = true /\
  ((Str.TrimSpace raw = Spec.directiveOf raw /\ Spec.argumentsOf raw = "") \/
   exists c, Str.reSpace c = true /\
             Str.TrimSpace raw =
             Spec.directiveOf raw +:+ String c (Spec.argumentsOf raw)).
Proof.
  intros Hskip. unfold Spec.directiveOf, Spec.argumentsOf.
  destruct (splitFirstSpace_spec (Str.TrimSpace raw)) as [Hno Hcut].
  split; [|split; [exact Hno|]].
  - unfold Spec.skippedLine in Hskip. unfold Str.TrimSpace.
    pose proof (StrFacts.trimLeft_firstNonSpace raw) as H.
    destruct (Spec.firstNonSpace raw) as [c|]; [|discriminate Hskip].
    destruct H as (t & -> & Hc & Ha).
    rewrite StrFacts.trimRight_keeps_head by exact Ha.
    cbn [Str.splitFirstSpace].
    destruct (Str.reSpace c) eqn:Hre;
      [apply reSpace_isSpace in Hre; congruence|].
    destruct (Str.splitFirstSpace (Str.trimRight t)). discriminate.
  - destruct (snd (Str.splitFirstSpace (Str.TrimSpace raw))) as [t|].
    + right. exact Hcut.
    + left. auto.
Qed.

Lemma directive_is_first_word_witness :
  Spec.skippedLine Sample.spacedCopy = false /\
  Spec.directiveOf Sample.spacedCopy <> "" /\
  Notions.allChars Notions.noSpace (Spec.directiveOf Sample.spacedCopy) = true /\
  ((Str.TrimSpace Sample.spacedCopy = Spec.directiveOf Sample.spacedCopy /\
    Spec.argumentsOf Sample.spacedCopy = "") \/
   exists c, Str.reSpace c = true /\
             Str.TrimSpace Sample.spacedCopy =
             Spec.directiveOf Sample.spacedCopy
               +:+ String c (Spec.argumentsOf Sample.spacedCopy)).
Proof.
  split; [reflexivity|].
  apply (directive_is_first_word Sample.spacedCopy). reflexivity.
Defined.

Section WithPackage.
Variable P : Package.

(** [enforceDefaults] returns a script beside an error for the identity
    only. *)
Lemma enforceDefaults_cases (scr : Script) :
  match enforceDefaults P scr with
  | (None, None) => False
  | (Some scr', Some err) =>
      scr' = scr /\ Preambles scr !! CmdAs = None /\
      NewAsCommand P 0 (Notions.defaultIdentity P) = inr err
  | _ => True
  end.
Proof.
  unfold enforceDefaults, andThen.
  destruct (defaultAs P scr) as [s1|[o e]] eqn:H1.
  - destruct (defaultFrom P s1) as [s2|[o e]] eqn:H2.
    + destruct (defaultAuthConfig P s2) as [s3|[o e]] eqn:H3.
      * destruct (defaultWorkDir P s3) as [s4|[o e]] eqn:H4.
        -- destruct (defaultOutput P s4) as [s5|[o e]] eqn:H5.
           ++ destruct (defaultKubeConfig P s5) as [s6|[o e]] eqn:H6; [exact I|].
              unfold defaultKubeConfig in H6.
              destruct (Preambles s5 !! CmdKubeConfig); [discriminate|].
              destruct (NewKubeConfigCommand P 0 _); [discriminate|].
              injection H6 as <- <-. exact I.
           ++ unfold defaultOutput in H5.
              destruct (Preambles s4 !! CmdOutput); [discriminate|].
              destruct (NewOutputCommand P 0 _); [discriminate|].
              injection H5 as <- <-. exact I.
        -- unfold defaultWorkDir in H4.
           destruct (Preambles s3 !! CmdWorkDir); [discriminate|].
           destruct (NewWorkdirCommand P 0 _); [discriminate|].
           injection H4 as <- <-. exact I.
      * unfold defaultAuthConfig in H3.
        destruct (Preambles s2 !! CmdAuthConfig); [discriminate|].
        destruct (NewAuthConfigCommand P 0 _); [discriminate|].
        injection H3 as <- <-. exact I.
    + unfold defaultFrom in H2.
      destruct (Preambles s1 !! CmdFrom); [discriminate|].
      destruct (NewFromCommand P 0 _); [discriminate|].
      injection H2 as <- <-. exact I.
  - unfold defaultAs in H1.
    destruct (Preambles scr !! CmdAs); [discriminate|].
    fold (Notions.defaultIdentity P) in H1.
    destruct (NewAsCommand P 0 (Notions.defaultIdentity P)) as [c|err]; [discriminate|].
    injection H1 as <- <-. auto.
Qed.

(** X8. [Parse] never returns nil for both the script and the error, and it
    returns a script beside an error in one case only: every line was
    accepted, the script has no AS, and the constructor of the default
    identity failed; the script is then the one the lines gave, without
    any default, and the error is the one of the constructor. In every
    other failure the script is nil. *)
Theorem parse_returns_script_or_error (lines : list string) :
  Parse P lines <> (None, None) /\
  forall scr err,
    Parse P lines = (Some scr, Some err) <->
    parseLines P lines emptyScript 1 = inl scr /\
    Preambles scr !! CmdAs = None /\
    NewAsCommand P 0 (Notions.defaultIdentity P) = inr err.
Proof.
  unfold Parse.
  destruct (parseLines P lines emptyScript 1) as [scr0|e]; split;
    try discriminate.
  - pose proof (enforceDefaults_cases scr0) as H.
    destruct (enforceDefaults P scr0) as [[?|] [?|]]; try discriminate.
    contradiction.
  - intros scr err. split.
    + intros H. pose proof (enforceDefaults_cases scr0) as HC. rewrite H in HC.
      destruct HC as (-> & HA & HN). auto.
    + intros ([= ->] & HA & HN). unfold enforceDefaults, andThen, defaultAs.
      rewrite HA. fold (Notions.defaultIdentity P). rewrite HN. reflexivity.
  - intros scr err. split; [discriminate | intros [[=] _]].
Qed.

(** A script that holds the six single-valued directives goes through
    [enforceDefaults] untouched. *)
Lemma enforceDefaults_complete (scr : Script) :
  (forall d, In d singleValued -> Preambles scr !! d <> None) ->
  enforceDefaults P scr = (Some scr, None).
Proof.
  intros H. unfold enforceDefaults, andThen.
  unfold defaultAs. pose proof (H CmdAs) as HA.
  destruct (Preambles scr !! CmdAs); [|exfalso; apply HA; cbn; tauto].
  unfold defaultFrom. pose proof (H CmdFrom) as HF.
  destruct (Preambles scr !! CmdFrom); [|exfalso; apply HF; cbn; tauto].
  unfold defaultAuthConfig. pose proof (H CmdAuthConfig) as HU.
  destruct (Preambles scr !! CmdAuthConfig); [|exfalso; apply HU; cbn; tauto].
  unfold defaultWorkDir. pose proof (H CmdWorkDir) as HW.
  destruct (Preambles scr !! CmdWorkDir); [|exfalso; apply HW; cbn; tauto].
  unfold defaultOutput. pose proof (H CmdOutput) as HO.
  destruct (Preambles scr !! CmdOutput); [|exfalso; apply HO; cbn; tauto].
  unfold defaultKubeConfig. pose proof (H CmdKubeConfig) as HK.
  destruct (Preambles scr !! CmdKubeConfig); [|exfalso; apply HK; cbn; tauto].
  reflexivity.
Qed.

(** X9. A script in which AS, FROM, AUTHCONFIG, OUTPUT, WORKDIR and
    KUBECONFIG are all present is returned by [enforceDefaults] as it is
    and without error, whatever the constructors of the defaults would
    return: none of them is called. *)
Theorem complete_script_is_kept (scr : Script) :
  (forall d, In d singleValued -> Preambles scr !! d <> None) ->
  enforceDefaults P scr = (Some scr, None) /\
  Parser.defaultAs P scr = inl scr /\ Parser.defaultFrom P scr = inl scr /\
  Parser.defaultAuthConfig P scr = inl scr /\
  Parser.defaultWorkDir P scr = inl scr /\
  Parser.defaultOutput P scr = inl scr /\
  Parser.defaultKubeConfig P scr = inl scr.
Proof.
  intros H. split; [apply enforceDefaults_complete, H|].
  unfold defaultAs, defaultFrom, defaultAuthConfig, defaultWorkDir,
    defaultOutput, defaultKubeConfig.
  pose proof (H CmdAs) as HA. pose proof (H CmdFrom) as HF.
  pose proof (H CmdAuthConfig) as HU. pose proof (H CmdWorkDir) as HW.
  pose proof (H CmdOutput) as HO. pose proof (H CmdKubeConfig) as HK.
  destruct (Preambles scr !! CmdAs); [|exfalso; apply HA; cbn; tauto].
  destruct (Preambles scr !! CmdFrom); [|exfalso; apply HF; cbn; tauto].
  destruct (Preambles scr !! CmdAuthConfig); [|exfalso; apply HU; cbn; tauto].
  destruct (Preambles scr !! CmdWorkDir); [|exfalso; apply HW; cbn; tauto].
  destruct (Preambles scr !! CmdOutput); [|exfalso; apply HO; cbn; tauto].
  destruct (Preambles scr !! CmdKubeConfig); [|exfalso; apply HK; cbn; tauto].
  auto 10.
Qed.

(** X10. [enforceDefaults] is idempotent: applied to a script it has
    returned without error, it returns that script again, and adds
    nothing. *)
Theorem enforceDefaults_is_idempotent (scr scr' : Script) :
  enforceDefaults P scr = (Some scr', None) ->
  enforceDefaults P scr' = (Some scr', None).
Proof.
  intros H.
  destruct (ParserFacts.enforceDefaults_completes P scr)
    as (s & E & _ & _ & HD); [rewrite H; reflexivity|].
  assert (s = scr') as -> by congruence.
  apply enforceDefaults_complete. intros d Hd. specialize (HD d Hd).
  destruct (Preambles scr !! d); [congruence|].
  destruct HD as (c & -> & _). discriminate.
Qed.

Lemma isSingleValued_In (d : string) :
  Spec.isSingleValued d = true -> In d singleValued.
Proof.
  unfold Spec.isSingleValued. intros H.
  apply existsb_exists in H as (k & Hk & E).
  apply String.eqb_eq in E. subst k. exact Hk.
Qed.

(** Placing a command touches no key but those of the seven preamble
    directives. *)
Lemma placeAll_other_keys (k : string) (cmds : list (string * Command)) :
  ~ In k (CmdEnv :: singleValued) ->
  forall scr, Preambles (Spec.placeAll cmds scr) !! k = Preambles scr !! k.
Proof.
  intros Hk. unfold Spec.placeAll.
  induction cmds as [|[d c] cmds IH]; intros scr; [reflexivity|].
  cbn [foldl fst snd]. rewrite IH. unfold Spec.place.
  destruct (Spec.isSingleValued d) eqn:Hsv.
  - cbn [setPreamble Preambles]. apply lookup_insert_ne.
    intros ->. apply Hk. right. apply isSingleValued_In, Hsv.
  - destruct (String.eqb_spec d CmdEnv) as [->|Hne]; [|reflexivity].
    cbn [setPreamble Preambles]. apply lookup_insert_ne.
    intros <-. apply Hk. left. reflexivity.
Qed.

Lemma actionsOf_are_actions (cmds : list (string * Command)) :
  Forall (fun dc => Spec.wellTyped (fst dc) (snd dc) = true) cmds ->
  Forall (fun c => Notions.isActionCommand c = true) (Spec.actionsOf cmds).
Proof.
  unfold Spec.actionsOf.
  induction 1 as [|[d c] cmds Hdc _ IH]; [constructor|].
  cbn [List.filter fst]. destruct (Spec.isAction d) eqn:Hd; [|exact IH].
  cbn [map snd]. constructor; [|exact IH].
  cbn [fst snd] in Hdc. revert Hd.
  destruct c; cbn [Spec.wellTyped] in Hdc; apply String.eqb_eq in Hdc;
    subst d; (reflexivity || discriminate).
Qed.

(** X11. A script [Parse] returns holds preambles under the names of the
    seven preamble directives only, and its actions are commands of the
    four action directives only: no command is ever stored under the name
    of an action or under a name the parser does not know, and no preamble
    command is found among the actions. *)
Theorem parsed_script_holds_only_directives (lines : list string) (scr : Script) :
  Parse P lines = (Some scr, None) ->
  (forall k, ~ In k (CmdEnv :: singleValued) -> Preambles scr !! k = None) /\
  Forall (fun c => Notions.isActionCommand c = true) (Actions scr).
Proof.
  unfold Parse.
  destruct (parseLines P lines emptyScript 1) as [scr0|e] eqn:HL; [|discriminate].
  intros H.
  destruct (ParserFacts.enforceDefaults_completes P scr0)
    as (s & E & HA & HK & _); [rewrite H; reflexivity|].
  assert (s = scr) as -> by congruence.
  pose proof (ParserFacts.parseLines_placeAll P _ _ _ _ HL) as ->.
  split.
  - intros k Hk. rewrite HK by (intros F; apply Hk; right; exact F).
    rewrite (placeAll_other_keys k _ Hk). reflexivity.
  - rewrite HA.
    destruct (ParserFacts.placeAll_spec _ (ParserFacts.commandsFrom_known P lines 1)
                                        emptyScript) as (-> & _).
    apply actionsOf_are_actions, ParserFacts.commandsFrom_typed.
Qed.

End WithPackage.

Lemma complete_script_is_kept_witness :
  (forall d, In d singleValued ->
             Preambles (Sample.parsed Sample.echoLines) !! d <> None) /\
  enforceDefaults Sample.package (Sample.parsed Sample.echoLines)
    = (Some (Sample.parsed Sample.echoLines), None).
Proof.
  assert (forall d, In d singleValued ->
                    Preambles (Sample.parsed Sample.echoLines) !! d <> None) as H.
  { intros d Hd. cbn in Hd.
    destruct Hd as [<-|[<-|[<-|[<-|[<-|[<-|[]]]]]]]; vm_compute; discriminate. }
  split; [exact H|].
  exact (proj1 (complete_script_is_kept Sample.package _ H)).
Defined.

Lemma enforceDefaults_is_idempotent_witness :
  enforceDefaults Sample.package emptyScript = (Some (Sample.parsed []), None) /\
  enforceDefaults Sample.package (Sample.parsed []) = (Some (Sample.parsed []), None).
Proof.
  split; [reflexivity|].
  apply (enforceDefaults_is_idempotent Sample.package emptyScript). reflexivity.
Defined.

Lemma parsed_script_holds_only_directives_witness :
  Parse Sample.package Sample.mixedLines
    = (Some (Sample.parsed Sample.mixedLines), None) /\
  (forall k, ~ In k (CmdEnv :: singleValued) ->
             Preambles (Sample.parsed Sample.mixedLines) !! k = None) /\
  Forall (fun c => Notions.isActionCommand c = true)
         (Actions (Sample.parsed Sample.mixedLines)).
Proof.
  split; [reflexivity|].
  apply (parsed_script_holds_only_directives Sample.package Sample.mixedLines).
  reflexivity.
Defined.

End ParserShape.

(** ** What the executor does and does not do *)
Module ExecLaws.
Import Script Exec.
#[local] Open Scope list_scope.

(** [writeFile] starts no subprocess and logs nothing. *)
Lemma writeFile_quiet (source : list byte) (filePath : string) (w : World) :
  logged (fst (writeFile source filePath w)) = logged w /\
  invoked (fst (writeFile source filePath w)) = invoked w.
Proof.
  unfold writeFile. destruct (FS.Create filePath (fs w)) as [fs1|e]; [|auto].
  destruct (FS.Fill filePath source fs1); auto.
Qed.

(** Whether a file can be stored at a path does not depend on the bytes. *)
Lemma store_any (p : list string) (d d' : list byte) :
  forall n n', FS.store p d n = Some n' -> exists n'', FS.store p d' n = Some n''.
Proof.
  induction p as [|e p IH]; intros n n' H; [destruct n; discriminate H|].
  destruct (FSFacts.store_Some _ _ _ _ _ H)
    as (es & -> & [(-> & -> & Hfile) | (e' & p' & c & c' & -> & Hf & Hc & ->)]).
  - rewrite FSFacts.store_last. destruct (FS.find e es) as [m|] eqn:Hm; [|eauto].
    destruct (Hfile m eq_refl) as (s & x & ->). eauto.
  - rewrite FSFacts.store_inner, Hf.
    destruct (IH _ _ Hc) as (c'' & ->). eauto.
Qed.

(** X12. A second [writeFile] to the same path replaces what the first one
    wrote: the first write having succeeded, the second one succeeds, leaves
    the file system it would have left alone, and the file holds the
    second content. *)
Theorem second_write_replaces_first
        (d1 d2 : list byte) (filePath : string) (w w1 : World) :
  writeFile d1 filePath w = (w1, None) ->
  snd (writeFile d2 filePath w1) = None /\
  fs (fst (writeFile d2 filePath w1)) = fs (fst (writeFile d2 filePath w)) /\
  Spec.fileAt (FS.resolve filePath) (fs (fst (writeFile d2 filePath w1)))
    = Some (Z.of_nat (length d2), d2).
Proof.
  intros H1. apply ExecFacts.writeFile_ok in H1 as (Hst & _ & _).
  destruct (store_any _ _ [] _ _ Hst) as (fs0 & H0).
  destruct (store_any _ _ d2 _ _ Hst) as (fs2 & H2).
  unfold writeFile, FS.Create, FS.Fill.
  rewrite (FSFacts.store_store _ _ [] _ _ Hst), H0.
  rewrite (FSFacts.store_store _ _ d2 _ _ H0), H2.
  cbn [fst snd fs withFs]. split; [reflexivity|]. split; [reflexivity|].
  unfold Spec.fileAt. rewrite (FSFacts.lookup_store _ _ _ _ H2). reflexivity.
Qed.

Section WithRuntime.
Variable R : Runtime.

(** X13. [Execute] does not panic on a script [Parse] has returned: the
    three preambles it reads are present, each with one command of the
    type it asserts, and the ENV preamble holds ENV commands only; the call
    returns, with nil or with an error. *)
Theorem parsed_script_never_panics
        (P : Parser.Package) (lines : list string) (scr : Script) (w : World) :
  Parser.Parse P lines = (Some scr, None) ->
  exists err, snd (Execute R scr w) = Returned err.
Proof.
  intros HP.
  destruct (ExecFacts.Parse_is_executable P lines scr HP)
    as (f & a & wd & env & HF & HA & HW & HE).
  unfold Execute, fetchFrom, fetchAs, fetchWorkdir. rewrite HF, HA.
  destruct (GetCredentials R a) as [[uid gid]|e]; [|eauto].
  rewrite HW. destruct (FS.MkdirAll (Dir wd) (fs w)) as [fs1|e]; [|eauto].
  rewrite HE. destruct (runSources _ _ _ _ _ _ _ _) as [w' err]. eauto.
Qed.

(** The loop over the sources runs the actions once per source. *)
Lemma runSources_repeat (workdir : string) (uid gid : Z) (env : list string)
      (actions : list Command) (sources : list string) :
  forall w,
    runSources R workdir uid gid env actions sources w =
    runActions R workdir uid gid env
               (concat (repeat actions (length sources))) w.
Proof.
  induction sources as [|s sources IH]; intros w; [reflexivity|].
  cbn [runSources length repeat concat]. rewrite ExecFacts.runActions_app.
  destruct (runActions R workdir uid gid env actions w) as [w1 [err|]];
    [reflexivity | apply IH].
Qed.

(** X14. The sources of FROM are only counted: the loop over them runs the
    same actions, on the same file system and with the same identity, once
    for each source, as if the list of actions were written that many
    times; two scripts that differ only in the names of their sources
    execute alike. *)
Theorem sources_are_only_counted
        (scr scr' : Script) (w : World) (fromCmd fromCmd' : FromCommand) :
  fetchFrom scr = Found fromCmd ->
  fetchFrom scr' = Found fromCmd' ->
  length (Sources fromCmd') = length (Sources fromCmd) ->
  (forall k, k <> CmdFrom -> Preambles scr' !! k = Preambles scr !! k) ->
  Actions scr' = Actions scr ->
  Execute R scr' w = Execute R scr w /\
  forall workdir uid gid env w0,
    runSources R workdir uid gid env (Actions scr) (Sources fromCmd) w0 =
    runActions R workdir uid gid env
               (concat (repeat (Actions scr) (length (Sources fromCmd)))) w0.
Proof.
  intros HF HF' Hlen Hk Hact. split; [|intros; apply runSources_repeat].
  unfold Execute, fetchAs, fetchWorkdir, preamble.
  rewrite HF, HF', !Hk by discriminate.
  destruct (Preambles scr !! CmdAs) as [[|[] ?]|]; try reflexivity.
  destruct (GetCredentials R c) as [[uid gid]|e]; [|reflexivity].
  destruct (Preambles scr !! CmdWorkDir) as [[|[] ?]|]; try reflexivity.
  destruct (FS.MkdirAll (Dir c0) (fs w)) as [fs1|e]; [|reflexivity].
  destruct (collectEnv _ []) as [env|]; [|reflexivity].
  rewrite Hact, !runSources_repeat, Hlen. reflexivity.
Qed.

Lemma runActions_performed (workdir : string) (uid gid : Z) (env : list string)
      (actions : list Command) :
  forall w,
    runActions R workdir uid gid env (List.filter Notions.performed actions) w =
    runActions R workdir uid gid env actions w.
Proof.
  induction actions as [|a actions IH]; intros w; [reflexivity|].
  destruct a; cbn [List.filter Notions.performed runActions]; try apply IH.
  - destruct (capture R workdir uid gid env c w) as [w1 [err|]];
      [reflexivity | apply IH].
Qed.

Lemma runSources_performed (workdir : string) (uid gid : Z) (env : list string)
      (actions : list Command) (sources : list string) :
  forall w,
    runSources R workdir uid gid env (List.filter Notions.performed actions)
               sources w =
    runSources R workdir uid gid env actions sources w.
Proof.
  induction sources as [|s sources IH]; intros w; [reflexivity|].
  cbn [runSources]. rewrite runActions_performed.
  destruct (runActions R workdir uid gid env actions w) as [w1 [err|]];
    [reflexivity | apply IH].
Qed.

(** X15. [Execute] acts on COPY and CAPTURE only: the RUN and KUBEGET
    commands of a script, and any other command found among its actions,
    are passed over without effect and without error, so that the script
    executes as the one from which they are removed. *)
Theorem only_copy_and_capture_are_performed (scr : Script) (w : World) :
  Execute R (Notions.performedOnly scr) w = Execute R scr w.
Proof.
  unfold Execute, fetchFrom, fetchAs, fetchWorkdir, preamble, Notions.performedOnly.
  cbn [Preambles Actions].
  destruct (Preambles scr !! CmdFrom) as [[|[] ?]|]; try reflexivity.
  destruct (Preambles scr !! CmdAs) as [[|[] ?]|]; try reflexivity.
  destruct (GetCredentials R c0) as [[uid gid]|e]; [|reflexivity].
  destruct (Preambles scr !! CmdWorkDir) as [[|[] ?]|]; try reflexivity.
  destruct (FS.MkdirAll (Dir c1) (fs w)) as [fs1|e]; [|reflexivity].
  destruct (collectEnv _ []) as [env|]; [|reflexivity].
  rewrite runSources_performed. reflexivity.
Qed.

(** The ENV loop appends the pairs of each command, in order. *)
Lemma collectEnv_concat (envCmds : list Command) :
  forall acc pairs,
    collectEnv envCmds acc = Some pairs <->
    exists envs, envCmds = map IsEnv envs /\ pairs = acc ++ concat (map Envs envs).
Proof.
  induction envCmds as [|c envCmds IH]; intros acc pairs.
  - cbn [collectEnv]. split.
    + intros [= <-]. exists []. rewrite app_nil_r. auto.
    + intros (envs & He & ->). destruct envs; [|discriminate He].
      cbn. rewrite app_nil_r. reflexivity.
  - destruct c; cbn [collectEnv];
      try (split; [discriminate | intros ([|? ?] & He & _); discriminate He]).
    rewrite IH. split.
    + intros (envs & -> & ->). exists (c :: envs). cbn [map concat].
      rewrite app_assoc. auto.
    + intros ([|c' envs] & He & ->); [discriminate He|].
      injection He as <- ->. exists envs. cbn [map concat].
      rewrite app_assoc. auto.
Qed.

(** X16. The environment handed to the subprocesses is the concatenation of
    the pairs of all ENV commands, in the order of the script: nothing is
    merged or removed, a name given twice is passed twice, and an ENV
    command without pairs adds nothing. The loop panics exactly when a
    command stored under ENV is not an ENV command. *)
Theorem env_pairs_are_concatenated (envCmds : list Command) :
  (forall pairs,
      collectEnv envCmds [] = Some pairs <->
      exists envs, envCmds = map IsEnv envs /\ pairs = concat (map Envs envs)) /\
  (collectEnv envCmds [] = None <->
   exists c, In c envCmds /\ forall env, c <> IsEnv env).
Proof.
  split; [intros pairs; apply (collectEnv_concat envCmds [] pairs)|].
  generalize (@nil string).
  induction envCmds as [|c envCmds IH]; intros acc.
  - cbn [collectEnv]. split; [discriminate | intros (c & [] & _)].
  - assert ((forall env, c <> IsEnv env) ->
              (None = @None (list string) <->
               exists c', In c' (c :: envCmds) /\ forall env, c' <> IsEnv env)) as Hother.
    { intros Hc. split; [|reflexivity]. intros _. exists c. split; [left; reflexivity|].
      exact Hc. }
    destruct c; cbn [collectEnv]; try (apply Hother; discriminate).
    clear Hother. rewrite IH. split.
    + intros (c' & Hin & Hc'). exists c'. split; [right; exact Hin | exact Hc'].
    + intros (c' & [<-|Hin] & Hc'); [exfalso; exact (Hc' c eq_refl)|].
      exists c'. auto.
Qed.

(** [copyPaths] starts no subprocess. *)
Lemma copyPaths_invoked (workdir : string) (paths : list string) :
  forall w, invoked (copyPaths R workdir paths w) = invoked w.
Proof.
  induction paths as [|p paths IH]; intros w; [reflexivity|].
  cbn [copyPaths]. rewrite IH. unfold copyPath.
  destruct (relativeToWorkdir workdir p); [reflexivity|].
  destruct (Walk R workdir p (fs w)) as [fs1 [err|]]; reflexivity.
Qed.

(** [capture] logs nothing, and starts one subprocess. *)
Lemma capture_effects (workdir : string) (uid gid : Z) (env : list string)
      (cmd : CaptureCommand) (w : World) :
  logged (fst (capture R workdir uid gid env cmd w)) = logged w /\
  invoked (fst (capture R workdir uid gid env cmd w)) =
    invoked w ++ [{| inv_uid := uint32 uid; inv_gid := uint32 gid;
                     inv_env := env; inv_cmd := fst (GetParsedCli cmd);
                     inv_args := snd (GetParsedCli cmd) |}].
Proof.
  unfold capture. destruct (GetParsedCli cmd) as [cliCmd cliArgs].
  destruct (CliRun R _ _ _ _ _ _) as [fs1 [output|err]]; [|auto].
  destruct (writeFile_quiet output
              (Filepath.Join workdir (flatCmd R (GetCliString cmd) +:+ ".txt"))
              (recordRun {| inv_uid := uint32 uid; inv_gid := uint32 gid;
                            inv_env := env; inv_cmd := cliCmd;
                            inv_args := cliArgs |} fs1 w)) as [HL HI].
  rewrite HL, HI. auto.
Qed.

Lemma runActions_invoked (workdir : string) (uid gid : Z) (env : list string)
      (all actions : list Command) :
  (forall a, In a actions -> In a all) ->
  forall w, exists new,
    invoked (fst (runActions R workdir uid gid env actions w)) = invoked w ++ new /\
    Forall (Notions.ranAs uid gid env all) new.
Proof.
  induction actions as [|a actions IH]; intros Hsub w.
  - exists []. rewrite app_nil_r. auto.
  - assert (forall x, In x actions -> In x all) as Hsub'
        by (intros x Hx; apply Hsub; right; exact Hx).
    specialize (IH Hsub').
    destruct a; cbn [runActions]; try apply IH.
    + destruct (capture_effects workdir uid gid env c w) as [_ HI].
      destruct (capture R workdir uid gid env c w) as [w1 [err|]];
        cbn [fst] in *.
      * eexists. split; [exact HI|]. repeat constructor.
        exists c. split; [apply Hsub; left; reflexivity|].
        cbn [inv_cmd inv_args]. destruct (GetParsedCli c); reflexivity.
      * destruct (IH w1) as (new & Hn & HF). rewrite Hn, HI, <- app_assoc.
        eexists. split; [reflexivity|]. constructor; [|exact HF].
        repeat split. exists c. split; [apply Hsub; left; reflexivity|].
        cbn [inv_cmd inv_args]. destruct (GetParsedCli c); reflexivity.
    + destruct (IH (copyPaths R workdir (Args c) w)) as (new & Hn & HF).
      rewrite copyPaths_invoked in Hn. eauto.
Qed.

Lemma runSources_invoked (workdir : string) (uid gid : Z) (env : list string)
      (actions : list Command) (sources : list string) :
  forall w, exists new,
    invoked (fst (runSources R workdir uid gid env actions sources w))
      = invoked w ++ new /\
    Forall (Notions.ranAs uid gid env actions) new.
Proof.
  induction sources as [|s sources IH]; intros w.
  - exists []. rewrite app_nil_r. auto.
  - cbn [runSources].
    destruct (runActions_invoked workdir uid gid env actions actions
                (fun a H => H) w) as (new1 & H1 & F1).
    destruct (runActions R workdir uid gid env actions w) as [w1 [err|]];
      cbn [fst] in *; [eauto|].
    destruct (IH w1) as (new2 & H2 & F2). rewrite H2, H1, <- app_assoc.
    eexists. split; [reflexivity|]. apply Forall_app. auto.
Qed.

Lemma Execute_invoked (scr : Script) (w : World) :
  exists new,
    invoked (fst (Execute R scr w)) = invoked w ++ new /\
    (new = [] \/
     exists asCmd ases uid gid env,
       Preambles scr !! CmdAs = Some (IsAs asCmd :: ases) /\
       GetCredentials R asCmd = inl (uid, gid) /\
       collectEnv (preamble CmdEnv scr) [] = Some env /\
       Forall (Notions.ranAs uid gid env (Actions scr)) new).
Proof.
  assert (exists new : list Invocation,
             invoked w = invoked w ++ new /\
             (new = [] \/
              exists asCmd ases uid gid env,
                Preambles scr !! CmdAs = Some (IsAs asCmd :: ases) /\
                GetCredentials R asCmd = inl (uid, gid) /\
                collectEnv (preamble CmdEnv scr) [] = Some env /\
                Forall (Notions.ranAs uid gid env (Actions scr)) new)) as Hnone.
  { exists []. rewrite app_nil_r. auto. }
  unfold Execute, fetchFrom, fetchAs, fetchWorkdir.
  destruct (Preambles scr !! CmdFrom) as [[|[] ?]|]; try exact Hnone.
  destruct (Preambles scr !! CmdAs) as [[|[] ases]|] eqn:HA; try exact Hnone.
  destruct (GetCredentials R c0) as [[uid gid]|e] eqn:HC; [|exact Hnone].
  destruct (Preambles scr !! CmdWorkDir) as [[|[] ?]|]; try exact Hnone.
  destruct (FS.MkdirAll (Dir c1) (fs w)) as [fs1|e]; [|exact Hnone].
  destruct (collectEnv (preamble CmdEnv scr) []) as [env|] eqn:HE;
    [|exact Hnone].
  destruct (runSources_invoked (Dir c1) uid gid env (Actions scr) (Sources c)
              (withFs w fs1)) as (new & Hn & HF).
  destruct (runSources _ _ _ _ _ _ _ _) as [w' err]. cbn [fst] in *.
  exists new. split; [exact Hn|].
  right. exists c0, ases, uid, gid, env. auto.
Qed.

(** X17. Every subprocess [Execute] starts is the command of a CAPTURE of
    the script, run under the one identity the AS preamble resolves to,
    each number converted to 32 bits, and with the one environment
    collected from the ENV preambles; all subprocesses of a run share them.
    [Execute] removes nothing from the record of the subprocesses. *)
Theorem every_run_has_the_identity (scr : Script) (w : World) :
  exists new,
    invoked (fst (Execute R scr w)) = invoked w ++ new /\
    (new = [] \/
     exists asCmd ases uid gid env,
       Preambles scr !! CmdAs = Some (IsAs asCmd :: ases) /\
       GetCredentials R asCmd = inl (uid, gid) /\
       collectEnv (preamble CmdEnv scr) [] = Some env /\
       Forall (Notions.ranAs uid gid env (Actions scr)) new /\
       Forall (fun i => 0 <= inv_uid i < 2 ^ 32 /\ 0 <= inv_gid i < 2 ^ 32) new).
Proof.
  destruct (Execute_invoked scr w) as (new & Hn & [->|H]).
  - exists []. auto.
  - destruct H as (asCmd & ases & uid & gid & env & HA & HC & HE & HF).
    exists new. split; [exact Hn|]. right.
    exists asCmd, ases, uid, gid, env. repeat (split; [assumption|]).
    eapply Forall_impl; [exact HF|]. intros i (Hu & Hg & _).
    rewrite Hu, Hg. split; apply Z.mod_pos_bound; reflexivity.
Qed.

(** [copyPaths] is the only step that logs. *)
Lemma runActions_logged (workdir : string) (uid gid : Z) (env : list string)
      (actions : list Command) :
  Forall (fun a => Notions.isCopy a = false) actions ->
  forall w, logged (fst (runActions R workdir uid gid env actions w)) = logged w.
Proof.
  induction 1 as [|a actions Ha _ IH]; intros w; [reflexivity|].
  destruct a; cbn [runActions]; try apply IH; [|discriminate Ha].
  destruct (capture_effects workdir uid gid env c w) as [HL _].
  destruct (capture R workdir uid gid env c w) as [w1 [err|]]; cbn [fst] in *;
    [exact HL | rewrite IH; exact HL].
Qed.

Lemma runSources_logged (workdir : string) (uid gid : Z) (env : list string)
      (actions : list Command) (sources : list string) :
  Forall (fun a => Notions.isCopy a = false) actions ->
  forall w,
    logged (fst (runSources R workdir uid gid env actions sources w)) = logged w.
Proof.
  intros Hall. induction sources as [|s sources IH]; intros w; [reflexivity|].
  cbn [runSources].
  pose proof (runActions_logged workdir uid gid env actions Hall w) as H.
  destruct (runActions R workdir uid gid env actions w) as [w1 [err|]];
    cbn [fst] in *; [exact H | rewrite IH; exact H].
Qed.

(** X18. [Execute] writes to the error log for COPY only: on a script without
    COPY nothing is logged, every failure is returned; and on a script
    without CAPTURE no subprocess is started and, once the preambles are
    read, the identity resolved and the working directory made, nil is
    returned whatever the copies met. *)
Theorem only_copy_logs (scr : Script) (w : World) :
  (Forall (fun a => Notions.isCopy a = false) (Actions scr) ->
   logged (fst (Execute R scr w)) = logged w) /\
  (Forall (fun a => Notions.isCapture a = false) (Actions scr) ->
   invoked (fst (Execute R scr w)) = invoked w /\
   forall fromCmd asCmd uid gid workdir fs1 env,
     fetchFrom scr = Found fromCmd -> fetchAs scr = Found asCmd ->
     GetCredentials R asCmd = inl (uid, gid) ->
     fetchWorkdir scr = Found workdir ->
     FS.MkdirAll (Dir workdir) (fs w) = inl fs1 ->
     collectEnv (preamble CmdEnv scr) [] = Some env ->
     snd (Execute R scr w) = Returned None).
Proof.
  split.
  - intros Hall. unfold Execute.
    destruct (fetchFrom scr); try reflexivity.
    destruct (fetchAs scr); try reflexivity.
    destruct (GetCredentials R a0) as [[uid gid]|e]; [|reflexivity].
    destruct (fetchWorkdir scr); try reflexivity.
    destruct (FS.MkdirAll (Dir a1) (fs w)) as [fs1|e]; [|reflexivity].
    destruct (collectEnv _ []) as [env|]; [|reflexivity].
    pose proof (runSources_logged (Dir a1) uid gid env (Actions scr) (Sources a)
                  Hall (withFs w fs1)) as H.
    destruct (runSources _ _ _ _ _ _ _ _) as [w' err]. exact H.
  - intros Hall.
    assert (Forall (fun a => forall c, a <> IsCapture c) (Actions scr)) as Hall'.
    { eapply Forall_impl; [exact Hall|]. intros a Ha c ->. discriminate Ha. }
    split.
    + destruct (Execute_invoked scr w) as (new & Hn & Hnew).
      rewrite Hn. destruct new as [|i new]; [apply app_nil_r|]. exfalso.
      destruct Hnew as [Hnil | (? & ? & ? & ? & ? & _ & _ & _ & Hnew)];
        [discriminate Hnil|].
      inversion_clear Hnew as [|? ? (_ & _ & _ & cmd & Hin & _) _].
      rewrite Forall_forall in Hall. apply list_elem_of_In in Hin.
      specialize (Hall _ Hin). discriminate Hall.
    + intros fromCmd asCmd uid gid workdir fs1 env HF HA HC HW HM HE.
      rewrite (ExecFacts.Execute_runs R _ _ _ _ _ _ _ _ _ HF HA HC HW HM HE).
      cbn [snd]. f_equal. apply ExecFacts.runSources_without_capture, Hall'.
Qed.

End WithRuntime.

Lemma second_write_replaces_first_witness :
  writeFile (Sample.bytes "a") "/tmp/flareout/out.txt"
            (Sample.worldOf Sample.diskWithWorkdir)
    = (fst (writeFile (Sample.bytes "a") "/tmp/flareout/out.txt"
                      (Sample.worldOf Sample.diskWithWorkdir)), None) /\
  snd (writeFile (Sample.bytes "bc") "/tmp/flareout/out.txt"
         (fst (writeFile (Sample.bytes "a") "/tmp/flareout/out.txt"
                         (Sample.worldOf Sample.diskWithWorkdir)))) = None /\
  fs (fst (writeFile (Sample.bytes "bc") "/tmp/flareout/out.txt"
             (fst (writeFile (Sample.bytes "a") "/tmp/flareout/out.txt"
                             (Sample.worldOf Sample.diskWithWorkdir)))))
    = fs (fst (writeFile (Sample.bytes "bc") "/tmp/flareout/out.txt"
                         (Sample.worldOf Sample.diskWithWorkdir))) /\
  Spec.fileAt (FS.resolve "/tmp/flareout/out.txt")
    (fs (fst (writeFile (Sample.bytes "bc") "/tmp/flareout/out.txt"
                (fst (writeFile (Sample.bytes "a") "/tmp/flareout/out.txt"
                                (Sample.worldOf Sample.diskWithWorkdir))))))
    = Some (Z.of_nat (length (Sample.bytes "bc")), Sample.bytes "bc").
Proof.
  split; [reflexivity|].
  apply (second_write_replaces_first (Sample.bytes "a") (Sample.bytes "bc")
           "/tmp/flareout/out.txt" (Sample.worldOf Sample.diskWithWorkdir)).
  reflexivity.
Defined.

Lemma parsed_script_never_panics_witness :
  Parser.Parse Sample.package Sample.failingLines
    = (Some (Sample.parsed Sample.failingLines), None) /\
  exists err,
    snd (Execute Sample.runtime (Sample.parsed Sample.failingLines) Sample.world)
    = Returned err.
Proof.
  split; [reflexivity|].
  apply (parsed_script_never_panics Sample.runtime Sample.package
           Sample.failingLines). reflexivity.
Defined.

Lemma sources_are_only_counted_witness :
  (fetchFrom (Sample.parsed ["FROM a b"; "CAPTURE /bin/echo a"])
     = Found Sample.twoSources /\
   fetchFrom (setPreamble CmdFrom
                [IsFrom {| from_index := 7; Sources := ["x"; "y"] |}]
                (Sample.parsed ["FROM a b"; "CAPTURE /bin/echo a"]))
     = Found {| from_index := 7; Sources := ["x"; "y"] |} /\
   length ["x"; "y"] = length (Sources Sample.twoSources)) /\
  Execute Sample.runtime
          (setPreamble CmdFrom
             [IsFrom {| from_index := 7; Sources := ["x"; "y"] |}]
             (Sample.parsed ["FROM a b"; "CAPTURE /bin/echo a"]))
          Sample.world
    = Execute Sample.runtime (Sample.parsed ["FROM a b"; "CAPTURE /bin/echo a"])
              Sample.world.
Proof.
  split; [repeat split; reflexivity|].
  refine (proj1 (sources_are_only_counted Sample.runtime
                   (Sample.parsed ["FROM a b"; "CAPTURE /bin/echo a"])
                   (setPreamble CmdFrom
                      [IsFrom {| from_index := 7; Sources := ["x"; "y"] |}]
                      (Sample.parsed ["FROM a b"; "CAPTURE /bin/echo a"]))
                   Sample.world Sample.twoSources
                   {| from_index := 7; Sources := ["x"; "y"] |}
                   eq_refl eq_refl eq_refl _ eq_refl)).
  intros k Hk. cbn [setPreamble Preambles]. apply lookup_insert_ne. congruence.
Defined.

End ExecLaws.

(** ** What a COPY writes *)
Module CopyLaws.
Import Script Exec Str Filepath.
#[local] Open Scope list_scope.

(** *** Where the copies go *)









(** *** The file system after a copy *)



Section WithRuntime.
Variable R : Runtime.






(** A regular file can be stored over. *)
Lemma store_over_file (p : list string) (d : list byte) :
  forall n size data,
    p <> [] -> FS.lookup p n = Some (FS.File size data) ->
    exists n', FS.store p d n = Some n'.
Proof.
  induction p as [|e p IH]; intros n size data Hp H; [contradiction|].
  destruct n as [| es |]; try discriminate H. cbn [FS.lookup] in H.
  destruct (FS.find e es) as [c|] eqn:Hc; [|discriminate H].
  destruct p as [|e' p'].
  - cbn [FS.lookup] in H. injection H as ->.
    rewrite FSFacts.store_last, Hc. eauto.
  - rewrite FSFacts.store_inner, Hc.
    destruct (IH c size data) as (c' & ->); [discriminate | exact H | eauto].
Qed.

Lemma fileAt_lookup (q : list string) (n : FS.Node) (size : Z) (data : list byte) :
  Spec.fileAt q n = Some (size, data) <-> FS.lookup q n = Some (FS.File size data).
Proof.
  unfold Spec.fileAt. destruct (FS.lookup q n) as [[| |]|]; split;
    (discriminate || intros [= -> ->]; reflexivity).
Qed.


(** X21. A COPY of a regular file onto itself destroys it: when a path that
    passes the guard names the very file its copy is written to (a file of
    the working directory whose name starts with two dots, for one), the
    file is truncated before it is read, so that it ends up empty; no other
    regular file changes, no subprocess is started, and the only trace is
    the one message appended to the error log for the sizes that differ. *)
Theorem copy_onto_itself_empties_the_file
        (workdir path : string) (size : Z) (data : list byte) (w : World) :
  relativeToWorkdir workdir path = false ->
  FS.lookup (FS.resolve path) (fs w) = Some (FS.File size data) ->
  FS.resolve (Join workdir (Base path)) = FS.resolve path ->
  FS.resolve path <> [] ->
  size <> 0 ->
  exists fs1,
    copyPath R workdir path w =
      logError (fmtMethodValue R +:+ " did not complet for " +:+ path)
               (withFs w fs1) /\
    fs (copyPath R workdir path w) = fs1 /\
    logged (copyPath R workdir path w) =
      logged w ++ [fmtMethodValue R +:+ " did not complet for " +:+ path] /\
    invoked (copyPath R workdir path w) = invoked w /\
    Spec.fileAt (FS.resolve path) fs1 = Some (0, []) /\
    forall q, q <> FS.resolve path -> Spec.fileAt q fs1 = Spec.fileAt q (fs w).
Proof.
  intros Hguard Hsrc Hsame Hroot Hsize.
  destruct (store_over_file _ [] _ _ _ Hroot Hsrc) as (fs1 & H1).
  exists fs1.
  assert (copyPath R workdir path w =
          logError (fmtMethodValue R +:+ " did not complet for " +:+ path)
                   (withFs w fs1)) as E.
  { unfold copyPath. rewrite Hguard. unfold Walk, FS.Lstat. rewrite Hsrc.
    cbn [walk]. unfold walkFn, FS.Lstat, FS.Create, FS.Fill.
    rewrite Hsrc, Hsame, H1, (FSFacts.lookup_store _ _ _ _ H1).
    rewrite (FSFacts.store_store _ _ [] _ _ H1), H1.
    change (Z.of_nat (length [])) with 0.
    destruct (Z.eqb_spec 0 size) as [E|_]; [congruence | reflexivity]. }
  split; [exact E|]. rewrite E. cbn [logError withFs fs logged invoked].
  split; [reflexivity|]. split; [reflexivity|]. split; [reflexivity|]. split.
  - apply fileAt_lookup, (FSFacts.lookup_store _ _ _ _ H1).
  - intros q Hq. exact (FSFacts.fileAt_store _ _ _ _ _ H1 Hq).
Qed.

End WithRuntime.

(** *** The guard *)

Lemma concat_unrooted (e : string) (l : list string) :
  Spec.noSeparator e = true -> e <> "" ->
  isRooted (String.concat "/" (e :: l)) = false.
Proof.
  intros Hsep Hne. destruct e as [|c e]; [contradiction|].
  cbn [Spec.noSeparator] in Hsep. apply andb_prop in Hsep as [Hc _].
  destruct l as [|y l].
  - cbn [String.concat isRooted]. destruct (Ascii.eqb c Separator);
      [discriminate Hc | reflexivity].
  - change (String.concat "/" (String c e :: y :: l))
      with (String c (e +:+ String Separator (String.concat "/" (y :: l)))).
    cbn [isRooted]. destruct (Ascii.eqb c Separator);
      [discriminate Hc | reflexivity].
Qed.

(** Cleaning keeps a path rooted or not. *)
Lemma isRooted_Clean (path : string) : isRooted (Clean path) = isRooted path.
Proof.
  unfold Clean. destruct (isRooted path) eqn:Hr; [reflexivity|].
  destruct (PathFacts.cleanElems_modes (splitOn Separator path) [] [])
    as (ds & Hds & E); [constructor | constructor |].
  cbn [app] in E.
  pose proof (PathFacts.cleanElems_noSeparator false (splitOn Separator path) []
                (PathFacts.splitOn_all_noSeparator path) (List.Forall_nil _)) as HS.
  pose proof (PathFacts.cleanElems_rooted_proper (splitOn Separator path) []
                (List.Forall_nil _)) as HP.
  destruct (cleanElems false (splitOn Separator path) []) as [|e l] eqn:EL;
    [reflexivity|].
  inversion_clear HS as [|? ? He _].
  apply concat_unrooted; [exact He|].
  destruct ds as [|d ds].
  - cbn [app] in E. rewrite <- E in HP. inversion_clear HP as [|? ? Hp _].
    apply GuardFacts.proper_not_empty, Hp.
  - injection E as -> _. inversion_clear Hds as [|? ? Hd _].
    unfold Spec.isDots in Hd. subst d. discriminate.
Qed.

(** X22. The guard of COPY lets every path through when one of the path and
    the working directory is absolute and the other is not: [filepath.Rel]
    fails on such a pair, and the path is walked and copied, even when it
    names the working directory or a file inside it. *)
Theorem mixed_paths_pass_the_guard (workdir path : string) :
  isRooted workdir = negb (isRooted path) ->
  relativeToWorkdir workdir path = false /\
  exists err, Rel workdir path = inr err.
Proof.
  intros H.
  assert (Rel workdir path =
          inr ("Rel: can't make " +:+ path +:+ " relative to " +:+ workdir)) as E.
  { unfold Rel. cbv zeta.
    pose proof (isRooted_Clean workdir) as HW.
    pose proof (isRooted_Clean path) as HP.
    destruct (String.eqb_spec (Clean path) (Clean workdir)) as [Heq|_].
    { rewrite Heq, HW, H in HP. destruct (isRooted path); discriminate HP. }
    destruct (String.eqb_spec (Clean workdir) ".") as [Hdot|_].
    - rewrite Hdot in HW. rewrite HP. cbn [isRooted] in *.
      rewrite <- HW in H. destruct (isRooted path); [reflexivity | discriminate H].
    - rewrite HW, HP, H. destruct (isRooted path); reflexivity. }
  split; [unfold relativeToWorkdir; rewrite E; reflexivity | eauto].
Qed.



Lemma copy_onto_itself_empties_the_file_witness :
  (relativeToWorkdir "/tmp/flareout" "/tmp/flareout/..x" = false /\
   FS.lookup (FS.resolve "/tmp/flareout/..x") SampleDisk.dotted
     = Some (FS.File 3 (Sample.bytes "abc")) /\
   FS.resolve (Join "/tmp/flareout" (Base "/tmp/flareout/..x"))
     = FS.resolve "/tmp/flareout/..x") /\
  exists fs1,
    copyPath Sample.runtime "/tmp/flareout" "/tmp/flareout/..x"
             (Sample.worldOf SampleDisk.dotted) =
      logError (fmtMethodValue Sample.runtime +:+ " did not complet for "
                +:+ "/tmp/flareout/..x")
               (withFs (Sample.worldOf SampleDisk.dotted) fs1) /\
    fs (copyPath Sample.runtime "/tmp/flareout" "/tmp/flareout/..x"
                 (Sample.worldOf SampleDisk.dotted)) = fs1 /\
    logged (copyPath Sample.runtime "/tmp/flareout" "/tmp/flareout/..x"
                     (Sample.worldOf SampleDisk.dotted)) =
      logged (Sample.worldOf SampleDisk.dotted) ++
      [fmtMethodValue Sample.runtime +:+ " did not complet for "
       +:+ "/tmp/flareout/..x"] /\
    invoked (copyPath Sample.runtime "/tmp/flareout" "/tmp/flareout/..x"
                      (Sample.worldOf SampleDisk.dotted))
      = invoked (Sample.worldOf SampleDisk.dotted) /\
    Spec.fileAt (FS.resolve "/tmp/flareout/..x") fs1 = Some (0, []) /\
    forall q, q <> FS.resolve "/tmp/flareout/..x" ->
              Spec.fileAt q fs1 = Spec.fileAt q SampleDisk.dotted.
Proof.
  split; [repeat split; reflexivity|].
  apply (copy_onto_itself_empties_the_file Sample.runtime "/tmp/flareout"
           "/tmp/flareout/..x" 3 (Sample.bytes "abc")
           (Sample.worldOf SampleDisk.dotted));
    try reflexivity; vm_compute; discriminate.
Defined.

Lemma mixed_paths_pass_the_guard_witness :
  isRooted "/tmp/flareout" = negb (isRooted "tmp/flareout/f") /\
  relativeToWorkdir "/tmp/flareout" "tmp/flareout/f" = false /\
  exists err, Rel "/tmp/flareout" "tmp/flareout/f" = inr err.
Proof.
  split; [reflexivity|].
  apply (mixed_paths_pass_the_guard "/tmp/flareout" "tmp/flareout/f").
  reflexivity.
Defined.

End CopyLaws.
